(** * go-reddit-storage: the persistence engine, embedded and verified

    The development follows the repository:
    - [Comment], [Post], [SubredditData]: the records the storage layer reads
      from the API wrapper;
    - [store]: the relational store, tables as lists of rows with their
      primary keys, foreign keys, upserts and transactions;
    - [postgres] and [sqlite]: the two backends (<backend>.go, posts.go and
      comments.go of each package);
    - [schema]: the migration runner (schema/schema.go);
    - [storage]: the Storage interface over the two backends;
    - [Archiver]: the archiver (archiver.go), over a Reddit client and one
      of the backends.

    Conventions of the embedding.
    - Go strings are byte strings: [string] with [String.length] in bytes.
    - [float64] timestamps are whole seconds, as [Z]; a [time.Time] is its
      Unix second, the zero [time.Time] being second -62135596800. The
      embedding keeps every integer as it is. The code does so within
      bounds: sqlite's TEXT columns hold 15 significant digits, and
      postgres' conversions go through [int64] nanoseconds and a float64
      division. What is stated of a timestamp that is read back is stated
      within these bounds ([kept_by]).
    - Go [int] is 64 bit: sums are written with [wrap64].
    - [NOW()] and [CURRENT_TIMESTAMP] are the argument [now] of an operation.
    - [json.Marshal] of a record is the record itself (the raw payload).
    - A statement fails only on a constraint of the schema (primary key,
      foreign key); the column types, connection loss and cancellation are
      outside the model. postgres' SavePost and SavePosts hand the float64
      timestamps of a post to TIMESTAMP columns as they are: what is stated
      of the success of a save leaves the two out ([converts_timestamps]).
    - The store is one database for every connection of the handle, as a
      database file or a server is; sqlite's [:memory:], where each
      connection opens a database of its own, is not modelled. *)

From Stdlib Require Import ZArith String Ascii List Lia Bool DecimalString DecimalPos.
From stdpp Require Import gmap strings list sorting.

Local Open Scope string_scope.
Local Open Scope Z_scope.

(** ** Results and errors *)

(** [storage.StorageError]: the operation and the underlying cause. *)
Inductive Cause :=
| ForeignKey (constraint : string)
| UniqueKey (constraint : string).

Record StorageError := { Op : string; Err : Cause }.

Inductive result (A : Type) :=
| Ok (a : A)
| Error (e : StorageError).
Arguments Ok {A} a.
Arguments Error {A} e.

(** The [Err] of the [StorageError] a read returns: [sql.ErrNoRows], or the
    [fmt.Errorf] the read puts in its place. *)
Inductive QueryCause :=
| ErrNoRows
| Errorf (message : string).

Record QueryError := { QueryOp : string; QueryErr : QueryCause }.

(** [storage.PostStats] "aggregates statistics about a post". *)
Module PostStats.
Record t := mk {
  PostID : string;
  CommentCount : Z;
  MaxCommentDepth : Z;
  LastUpdated : Z
}.
End PostStats.

(** Go's [int] addition. *)
Definition wrap64 (z : Z) : Z := (z + 2 ^ 63) mod 2 ^ 64 - 2 ^ 63.

(** ** The records of [github.com/jamesprial/go-reddit-api-wrapper/pkg/types]
    (the fields the storage layer reads). *)

Record Edited := { IsEdited : bool; Timestamp : Z }.

Module Comment.
Record t := mk {
  ID : string;
  LinkID : string;
  ParentID : string;
  Author : string;
  Body : string;
  Score : Z;
  CreatedUTC : Z;
  Edited : Edited
}.
End Comment.

Module Post.
Record t := mk {
  ID : string;
  Subreddit : string;
  Author : string;
  Title : string;
  SelfText : string;
  URL : string;
  Score : Z;
  NumComments : Z;
  CreatedUTC : Z;
  Edited : Edited;
  IsSelf : bool
}.
End Post.

Module SubredditData.
Record t := mk {
  DisplayName : string;
  Title : string;
  Description : string;
  Subscribers : Z
}.
End SubredditData.

(** ** The store *)

Module store.

(** Rows of [subreddits], [posts] and [comments] (001_initial.sql). *)
Module SubredditRow.
Record t := mk {
  name : string;
  display_name : string;
  title : string;
  description : string;
  subscribers : Z;
  created_utc : option Z;
  last_synced : Z;
  raw_json : SubredditData.t
}.
End SubredditRow.

Module PostRow.
Record t := mk {
  id : string;
  subreddit : string;
  author : string;
  title : string;
  selftext : string;
  url : string;
  score : Z;
  upvote_ratio : option Z;
  num_comments : Z;
  created_utc : Z;
  edited_utc : option Z;
  is_self : bool;
  is_video : bool;
  archived_at : Z;
  last_updated : Z;
  raw_json : Post.t
}.
End PostRow.

Module CommentRow.
Record t := mk {
  id : string;
  post_id : string;
  parent_id : option string;
  author : string;
  body : string;
  score : Z;
  depth : Z;
  created_utc : Z;
  edited_utc : option Z;
  archived_at : Z;
  last_updated : Z;
  raw_json : Comment.t
}.
End CommentRow.

(** The database behind a [*sql.DB]: the three tables, rows in insertion
  order, and the number of transactions begun on the handle. *)
Record DB := mkDB {
  subreddits : list SubredditRow.t;
  posts : list PostRow.t;
  comments : list CommentRow.t;
  tx_begun : nat
}.

Definition empty : DB := mkDB [] [] [] 0.

Section table.
Context {R : Type} (key : R → string).

(** [SELECT ... WHERE key = k]. *)
Fixpoint lookup_row (k : string) (rows : list R) : option R :=
  match rows with
  | [] => None
  | r :: rs => if String.eqb (key r) k then Some r else lookup_row k rs
  end.

(** [INSERT ... ON CONFLICT (key) DO UPDATE SET ...]: a row with the key
    of [new] is replaced, in place, by [on_conflict old new]; without
    one, [new] is appended. *)
Fixpoint upsert (on_conflict : R → R → R) (new : R) (rows : list R) : list R :=
  match rows with
  | [] => [new]
  | r :: rs =>
      if String.eqb (key r) (key new) then on_conflict r new :: rs
      else r :: upsert on_conflict new rs
  end.

Definition has_row (k : string) (rows : list R) : bool :=
  match lookup_row k rows with Some _ => true | None => false end.
End table.

(** A transaction on the handle: [tx_base] is what [Rollback] leaves,
    [tx_cur] what the statements of the transaction see and [Commit]
    leaves. *)
Record Tx := mkTx { tx_base : DB; tx_cur : DB }.

Definition BeginTx (db : DB) : Tx :=
  let db' := mkDB (subreddits db) (posts db) (comments db) (S (tx_begun db)) in
  mkTx db' db'.
Definition Commit (tx : Tx) : DB := tx_cur tx.
Definition Rollback (tx : Tx) : DB := tx_base tx.

(** A statement run on the handle itself while the transaction is open
    commits on its own: it is in what the transaction sees, and it stays
    after a rollback. *)
Definition outside (f : DB → DB) (tx : Tx) : Tx :=
  mkTx (f (tx_base tx)) (f (tx_cur tx)).

Definition set_comments (db : DB) (cs : list CommentRow.t) : DB :=
  mkDB (subreddits db) (posts db) cs (tx_begun db).
Definition set_posts (db : DB) (ps : list PostRow.t) : DB :=
  mkDB (subreddits db) ps (comments db) (tx_begun db).
Definition set_subreddits (db : DB) (ss : list SubredditRow.t) : DB :=
  mkDB ss (posts db) (comments db) (tx_begun db).

(** The foreign keys of [comments]: [post_id] references [posts(id)],
    [parent_id] references [comments(id)]; a row may reference itself. *)
Definition comment_fk (db : DB) (row : CommentRow.t) : option Cause :=
  if negb (has_row PostRow.id (CommentRow.post_id row) (posts db))
  then Some (ForeignKey "comments_post_id_fkey")
  else match CommentRow.parent_id row with
       | None => None
       | Some p =>
           if String.eqb p (CommentRow.id row)
              || has_row CommentRow.id p (comments db)
           then None
           else Some (ForeignKey "comments_parent_fkey")
       end.

(** The upsert of a comment row. On a conflict only the [DO UPDATE] runs,
    which leaves [post_id] and [parent_id] alone; the foreign keys are
    checked on a fresh row. *)
Definition exec_comment (on_conflict : CommentRow.t → CommentRow.t → CommentRow.t)
    (row : CommentRow.t) (db : DB) : DB + Cause :=
  if has_row CommentRow.id (CommentRow.id row) (comments db)
  then inl (set_comments db (upsert CommentRow.id on_conflict row (comments db)))
  else match comment_fk db row with
       | Some c => inr c
       | None => inl (set_comments db (upsert CommentRow.id on_conflict row (comments db)))
       end.

(** The foreign key of [posts]: [subreddit] references [subreddits(name)]. *)
Definition post_fk (db : DB) (row : PostRow.t) : option Cause :=
  if has_row SubredditRow.name (PostRow.subreddit row) (subreddits db)
  then None
  else Some (ForeignKey "posts_subreddit_fkey").

Definition exec_post (on_conflict : PostRow.t → PostRow.t → PostRow.t)
    (row : PostRow.t) (db : DB) : DB + Cause :=
  if has_row PostRow.id (PostRow.id row) (posts db)
  then inl (set_posts db (upsert PostRow.id on_conflict row (posts db)))
  else match post_fk db row with
       | Some c => inr c
       | None => inl (set_posts db (upsert PostRow.id on_conflict row (posts db)))
       end.

Definition exec_subreddit (on_conflict : SubredditRow.t → SubredditRow.t → SubredditRow.t)
    (row : SubredditRow.t) (db : DB) : DB :=
  set_subreddits db (upsert SubredditRow.name on_conflict row (subreddits db)).

(** [SELECT depth FROM comments WHERE id = $1]. *)
Definition select_depth (db : DB) (id : string) : option Z :=
  CommentRow.depth <$> lookup_row CommentRow.id id (comments db).

End store.
Import store.

(** ** The statements both packages share *)

(** [s[3:]] when [len(s) > 3], else [s]. *)
Definition strip3 (s : string) : string :=
  if (3 <? String.length s)%nat
  then substring 3 (String.length s - 3)%nat s else s.

(** The [parent_id] parameter of the INSERT: NULL for a top-level comment. *)
Definition parentID_param (comment : Comment.t) : option string :=
  if String.eqb (Comment.ParentID comment) ""
     || String.eqb (Comment.ParentID comment) (Comment.LinkID comment)
  then None
  else Some (strip3 (Comment.ParentID comment)).

(** The [post_id] parameter of the INSERT. *)
Definition postID_param (comment : Comment.t) : string :=
  strip3 (Comment.LinkID comment).

(** [ON CONFLICT (id) DO UPDATE SET score, body, edited_utc, last_updated,
    raw_json] of SaveComment (both backends) and of sqlite's SaveComments. *)
Definition comment_do_update (old new : CommentRow.t) : CommentRow.t :=
  CommentRow.mk (CommentRow.id old) (CommentRow.post_id old)
    (CommentRow.parent_id old) (CommentRow.author old)
    (CommentRow.body new) (CommentRow.score new) (CommentRow.depth old)
    (CommentRow.created_utc old) (CommentRow.edited_utc new)
    (CommentRow.archived_at old) (CommentRow.last_updated new)
    (CommentRow.raw_json new).

(** The same with [depth = EXCLUDED.depth]: postgres' SaveComments. *)
Definition comment_do_update_depth (old new : CommentRow.t) : CommentRow.t :=
  CommentRow.mk (CommentRow.id old) (CommentRow.post_id old)
    (CommentRow.parent_id old) (CommentRow.author old)
    (CommentRow.body new) (CommentRow.score new) (CommentRow.depth new)
    (CommentRow.created_utc old) (CommentRow.edited_utc new)
    (CommentRow.archived_at old) (CommentRow.last_updated new)
    (CommentRow.raw_json new).

Definition error := option StorageError.
Definition noerr : error := None.

(** [ON CONFLICT (name) DO UPDATE SET display_name, title, description,
    subscribers, last_synced, raw_json] of SaveSubreddit. *)
Definition subreddit_do_update (old new : SubredditRow.t) : SubredditRow.t :=
  SubredditRow.mk (SubredditRow.name old) (SubredditRow.display_name new)
    (SubredditRow.title new) (SubredditRow.description new)
    (SubredditRow.subscribers new) (SubredditRow.created_utc old)
    (SubredditRow.last_synced new) (SubredditRow.raw_json new).

(** The row of SaveSubreddit: "created_utc not available in API". *)
Definition subreddit_row (now : Z) (sub : SubredditData.t) : SubredditRow.t :=
  SubredditRow.mk (SubredditData.DisplayName sub) (SubredditData.DisplayName sub)
    (SubredditData.Title sub) (SubredditData.Description sub)
    (SubredditData.Subscribers sub) None now sub.

(** SaveSubreddit is the same statement in both packages. *)
Definition SaveSubreddit (s : DB) (now : Z) (sub : SubredditData.t) : DB * error :=
  (exec_subreddit subreddit_do_update (subreddit_row now sub) s, noerr).

(** [&types.SubredditData{DisplayName: post.Subreddit}]. *)
Definition subreddit_of_post (post : Post.t) : SubredditData.t :=
  SubredditData.mk (Post.Subreddit post) "" "" 0.

(** [ON CONFLICT (id) DO UPDATE SET score, num_comments, upvote_ratio,
    edited_utc, last_updated, raw_json] of SavePosts (both backends) and of
    sqlite's SavePost. *)
Definition post_do_update (old new : PostRow.t) : PostRow.t :=
  PostRow.mk (PostRow.id old) (PostRow.subreddit old) (PostRow.author old)
    (PostRow.title old) (PostRow.selftext old) (PostRow.url old)
    (PostRow.score new) (PostRow.upvote_ratio new) (PostRow.num_comments new)
    (PostRow.created_utc old) (PostRow.edited_utc new) (PostRow.is_self old)
    (PostRow.is_video old) (PostRow.archived_at old) (PostRow.last_updated new)
    (PostRow.raw_json new).

(** The same without [upvote_ratio]: postgres' SavePost. *)
Definition post_do_update_single (old new : PostRow.t) : PostRow.t :=
  PostRow.mk (PostRow.id old) (PostRow.subreddit old) (PostRow.author old)
    (PostRow.title old) (PostRow.selftext old) (PostRow.url old)
    (PostRow.score new) (PostRow.upvote_ratio old) (PostRow.num_comments new)
    (PostRow.created_utc old) (PostRow.edited_utc new) (PostRow.is_self old)
    (PostRow.is_video old) (PostRow.archived_at old) (PostRow.last_updated new)
    (PostRow.raw_json new).

(** The row of SavePost and SavePosts: "upvote_ratio not available",
    "is_video not available". *)
Definition post_row (now : Z) (post : Post.t) : PostRow.t :=
  let editedUTC :=
    if IsEdited (Post.Edited post) && (0 <? Timestamp (Post.Edited post))
    then Some (Timestamp (Post.Edited post)) else None in
  PostRow.mk (Post.ID post) (Post.Subreddit post) (Post.Author post)
    (Post.Title post) (Post.SelfText post) (Post.URL post) (Post.Score post)
    None (Post.NumComments post) (Post.CreatedUTC post) editedUTC
    (Post.IsSelf post) false now now post.

(** "Ensure subreddits exist": the first loop of SavePosts. The saves go
    through [s.SaveSubreddit], on the handle and not on the transaction. *)
Fixpoint ensure_subreddits (now : Z) (subreddits : gmap string bool) (tx : Tx)
    (posts : list Post.t) : Tx * error :=
  match posts with
  | [] => (tx, noerr)
  | post :: rest =>
      if negb (String.eqb (Post.Subreddit post) "")
         && negb (default false (subreddits !! Post.Subreddit post))
      then
        let sub := subreddit_of_post post in
        match snd (SaveSubreddit (tx_base tx) now sub) with
        | Some err => (tx, Some err)
        | None =>
            ensure_subreddits now (<[Post.Subreddit post := true]> subreddits)
              (outside (λ d, fst (SaveSubreddit d now sub)) tx) rest
        end
      else ensure_subreddits now subreddits tx rest
  end.

(** "Insert posts": the second loop of SavePosts, inside the transaction. *)
Fixpoint insert_posts (now : Z) (tx : DB) (posts : list Post.t) : DB + StorageError :=
  match posts with
  | [] => inl tx
  | post :: rest =>
      match exec_post post_do_update (post_row now post) tx with
      | inr e => inr {| Op := "insert_post"; Err := e |}
      | inl tx' => insert_posts now tx' rest
      end
  end.

(** SavePosts is the same code in both packages. *)
Definition SavePosts (s : DB) (now : Z) (posts : list Post.t) : DB * error :=
  match posts with
  | [] => (s, noerr)
  | _ =>
      let tx := BeginTx s in
      match ensure_subreddits now ∅ tx posts with
      | (tx, Some err) => (Rollback tx, Some err)
      | (tx, None) =>
          match insert_posts now (tx_cur tx) posts with
          | inr e => (Rollback tx, Some e)
          | inl cur => (Commit (mkTx (tx_base tx) cur), noerr)
          end
      end
  end.

(** SavePost, with the [DO UPDATE] of the package. *)
Definition SavePost_with (do_update : PostRow.t → PostRow.t → PostRow.t)
    (s : DB) (now : Z) (post : Post.t) : DB * error :=
  let '(s1, err) :=
    if negb (String.eqb (Post.Subreddit post) "")
    then SaveSubreddit s now (subreddit_of_post post)
    else (s, noerr) in
  match err with
  | Some e => (s1, Some e)
  | None =>
      match exec_post do_update (post_row now post) s1 with
      | inl s' => (s', noerr)
      | inr e => (s1, Some {| Op := "save_post"; Err := e |})
      end
  end.

(** GetSubreddit is the same statement in both packages. [Scan] writes the
    column [name] and then the column [display_name] into [sub.DisplayName]:
    the second one stays. *)
Definition scan_subreddit (row : SubredditRow.t) : SubredditData.t :=
  SubredditData.mk (SubredditRow.display_name row) (SubredditRow.title row)
    (SubredditRow.description row) (SubredditRow.subscribers row).

Definition GetSubreddit (s : DB) (name : string) : SubredditData.t + QueryError :=
  match lookup_row SubredditRow.name name (subreddits s) with
  | Some row => inl (scan_subreddit row)
  | None =>
      inr {| QueryOp := "get_subreddit";
             QueryErr := Errorf ("subreddit not found: " +:+ name) |}
  end.

(** ** The query of GetPostsBySubreddit

    [storage.QueryOptions] "provides filtering and pagination for queries";
    the dates are [time.Time] values. *)
Module QueryOptions.
Record t := mk {
  Limit : Z;
  Offset : Z;
  SortBy : string;
  SortOrder : string;
  StartDate : Z;
  EndDate : Z
}.
End QueryOptions.

(** [t.IsZero()], for a [time.Time] given by its Unix second. *)
Definition IsZero (t : Z) : bool := t =? -62135596800.

(** The arguments that go with a query text. *)
Inductive Arg :=
| arg_string (s : string)
| arg_time (t : Z)
| arg_int (n : Z).

(** [%d]. *)
Definition itoa (n : Z) : string := DecimalString.NilZero.string_of_int (Z.to_int n).

Definition validSortColumns : gmap string bool :=
  <["created_utc" := true]> (<["created" := true]> (<["score" := true]>
    (<["num_comments" := true]> (<["comments" := true]> ∅)))).

(** "Add sorting": the column and the direction of the ORDER BY, the same
    code in both packages. [strings.ToUpper] is the library's; the code
    compares its result with ASC and DESC only. *)
Definition order_by (ToUpper : string → string) (opts : QueryOptions.t)
    : string * string :=
  let sortBy := QueryOptions.SortBy opts in
  let sortBy := if String.eqb sortBy "" then "created_utc" else sortBy in
  let sortOrder := ToUpper (QueryOptions.SortOrder opts) in
  let sortOrder :=
    if negb (String.eqb sortOrder "ASC") && negb (String.eqb sortOrder "DESC")
    then "DESC" else sortOrder in
  let sortBy :=
    if String.eqb sortBy "comments" then "num_comments"
    else if String.eqb sortBy "created" then "created_utc"
    else sortBy in
  let sortBy :=
    if negb (default false (validSortColumns !! sortBy)) then "created_utc"
    else sortBy in
  (sortBy, sortOrder).


(** ** The thread query (GetCommentsByPost of both packages)

    [WITH RECURSIVE comment_tree AS (anchor UNION ALL step) SELECT ... FROM
    comment_tree ORDER BY path]. The two packages differ in the path only:
    an array of timestamps in postgres, the concatenated text of the
    timestamps in sqlite. *)

Section comment_tree.
Context {K : Type}.
Context (root_path : CommentRow.t → K) (append_path : K → CommentRow.t → K).
Context (path_le : K → K → bool).

(** "Top-level comments": [WHERE post_id = $1 AND parent_id IS NULL]. *)
Definition anchor (cs : list CommentRow.t) (postID : string)
    : list (CommentRow.t * K) :=
  map (λ c, (c, root_path c))
      (List.filter (λ c, String.eqb (CommentRow.post_id c) postID
                         && bool_decide (CommentRow.parent_id c = None)) cs).

(** "Nested comments": [FROM comments c JOIN comment_tree ct ON c.parent_id
    = ct.id], over the rows of the previous round. *)
Definition nested (cs : list CommentRow.t) (ct : list (CommentRow.t * K))
    : list (CommentRow.t * K) :=
  flat_map (λ c,
    map (λ r, (c, append_path (snd r) c))
        (List.filter (λ r, bool_decide
                       (CommentRow.parent_id c = Some (CommentRow.id (fst r)))) ct))
    cs.

(** The rounds of the recursive query: it stops at the first round without
    rows; [rounds] bounds the number of rounds. *)
Fixpoint comment_tree_rounds (rounds : nat) (cs : list CommentRow.t)
    (ct : list (CommentRow.t * K)) : list (CommentRow.t * K) :=
  match rounds with
  | O => []
  | S n =>
      match ct with
      | [] => []
      | _ => ct ++ comment_tree_rounds n cs (nested cs ct)
      end
  end.

(** A round adds rows one level below the last; with a primary key on [id]
    there are at most as many levels as comments (lemma
    [comment_tree_complete]). *)
Definition comment_tree (cs : list CommentRow.t) (postID : string)
    : list (CommentRow.t * K) :=
  comment_tree_rounds (S (List.length cs)) cs (anchor cs postID).

Definition by_path (x y : CommentRow.t * K) : Prop :=
  path_le (snd x) (snd y) = true.

#[global] Instance by_path_dec x y : Decision (by_path x y).
Proof. unfold by_path. apply _. Defined.

(** [ORDER BY path]. *)
Definition query_comments (s : DB) (postID : string) : list CommentRow.t :=
  map fst (merge_sort by_path (comment_tree (comments s) postID)).

End comment_tree.

(** ** package postgres *)

Module postgres.

(** timeutil.go. [unixFloatToTime] is [time.Unix(int64(sec), ...)] and
    [timeToUnixFloat] is [float64(t.UnixNano()) / 1e9]: on whole seconds
    both are the identity while the nanoseconds fit [int64] and the float64
    holds them (up to 2^32 seconds, see [kept_by]); beyond, the code
    overflows or rounds, which the embedding does not follow. *)
Definition zeroTime : Z := -62135596800.

Definition unixFloatToTime (ts : Z) : Z * bool :=
  if ts =? 0 then (zeroTime, false) else (ts, true).

Definition timeToUnixFloat (t : Z) : Z :=
  if t =? zeroTime then 0 else t.

Definition timePtrOrNil (t : Z) (ok : bool) : option Z :=
  if negb ok || (t =? zeroTime) then None else Some t.

(** The row SaveComment and SaveComments hand to the INSERT. *)
Definition comment_row (now : Z) (comment : Comment.t) (depth : Z) : CommentRow.t :=
  let createdAt := fst (unixFloatToTime (Comment.CreatedUTC comment)) in
  let '(editedAt, hasEdited) :=
    unixFloatToTime (Timestamp (Comment.Edited comment)) in
  let hasEdited := if IsEdited (Comment.Edited comment) then hasEdited else false in
  CommentRow.mk (Comment.ID comment) (postID_param comment)
    (parentID_param comment) (Comment.Author comment) (Comment.Body comment)
    (Comment.Score comment) depth createdAt (timePtrOrNil editedAt hasEdited)
    now now comment.

(** "Calculate depth by querying parent if it exists". *)
Definition parent_depth (s : DB) (parentID : option string) : Z :=
  match parentID with
  | None => 0
  | Some p =>
      match select_depth s p with
      | Some parentDepth => wrap64 (parentDepth + 1)
      | None => 1
      end
  end.

(** SavePost, as far as the constraints of the schema go. The statement
    binds [post.CreatedUTC] and the edit timestamp as float64, without
    [unixFloatToTime], to the TIMESTAMP columns [created_utc] and
    [edited_utc]; what a server makes of that is outside the embedding. *)
Definition SavePost := SavePost_with post_do_update_single.

Definition SaveComment (s : DB) (now : Z) (comment : Comment.t) : DB * error :=
  let depth := parent_depth s (parentID_param comment) in
  match exec_comment comment_do_update (comment_row now comment depth) s with
  | inl s' => (s', noerr)
  | inr e => (s, Some {| Op := "save_comment"; Err := e |})
  end.

(** The map "commentID -> parentID (stripped)" of SaveComments. *)
Definition batch_parentID (comment : Comment.t) : string :=
  if negb (String.eqb (Comment.ParentID comment) "")
     && negb (String.eqb (Comment.ParentID comment) (Comment.LinkID comment))
  then
    if (3 <? String.length (Comment.ParentID comment))%nat
       && String.eqb (substring 0 3 (Comment.ParentID comment)) "t1_"
    then substring 3 (String.length (Comment.ParentID comment) - 3)%nat
           (Comment.ParentID comment)
    else Comment.ParentID comment
  else "".

Definition build_commentMap (comments : list Comment.t) : gmap string string :=
  foldl (λ m comment, <[Comment.ID comment := batch_parentID comment]> m)
        ∅ comments.

(** The closure [calculateDepth] of SaveComments, with the cache it
    updates threaded through. Go's recursion has no bound: [fuel] bounds the
    nesting of calls, and [None] is a call that has not returned within it. *)
Fixpoint calculateDepth (fuel : nat) (tx : DB) (commentMap : gmap string string)
    (depthCache : gmap string Z) (commentID : string)
    : option (Z * gmap string Z) :=
  match fuel with
  | O => None
  | S fuel' =>
      match depthCache !! commentID with
      | Some depth => Some (depth, depthCache)
      | None =>
          let parentID := default "" (commentMap !! commentID) in
          let exists_ := bool_decide (is_Some (commentMap !! commentID)) in
          if negb exists_ || String.eqb parentID "" then
            match
              (if negb (String.eqb parentID "")
               then select_depth tx parentID else None)
            with
            | Some parentDepth =>
                let depth := wrap64 (parentDepth + 1) in
                Some (depth, <[commentID := depth]> depthCache)
            | None => Some (0, <[commentID := 0]> depthCache)
            end
          else
            match calculateDepth fuel' tx commentMap depthCache parentID with
            | None => None
            | Some (d, depthCache') =>
                let depth := wrap64 (d + 1) in
                Some (depth, <[commentID := depth]> depthCache')
            end
      end
  end.

(** The insert loop of SaveComments, inside the transaction. *)
Fixpoint insert_comments (fuel : nat) (now : Z) (commentMap : gmap string string)
    (depthCache : gmap string Z) (tx : DB) (comments : list Comment.t)
    : option (DB + StorageError) :=
  match comments with
  | [] => Some (inl tx)
  | comment :: rest =>
      match calculateDepth fuel tx commentMap depthCache (Comment.ID comment) with
      | None => None
      | Some (depth, depthCache') =>
          match exec_comment comment_do_update_depth
                  (comment_row now comment depth) tx with
          | inr e => Some (inr {| Op := "insert_comment"; Err := e |})
          | inl tx' => insert_comments fuel now commentMap depthCache' tx' rest
          end
      end
  end.

Definition SaveComments (fuel : nat) (s : DB) (now : Z) (comments : list Comment.t)
    : option (DB * error) :=
  match comments with
  | [] => Some (s, noerr)
  | _ =>
      let tx := BeginTx s in
      let commentMap := build_commentMap comments in
      match insert_comments fuel now commentMap ∅ (tx_cur tx) comments with
      | None => None
      | Some (inr e) => Some (Rollback tx, Some e)
      | Some (inl cur) => Some (Commit (mkTx (tx_base tx) cur), noerr)
      end
  end.

(** Postgres compares arrays element by element; a proper prefix is smaller. *)
Fixpoint array_le (a b : list Z) : bool :=
  match a, b with
  | [], _ => true
  | _ :: _, [] => false
  | x :: a', y :: b' => (x <? y) || ((x =? y) && array_le a' b')
  end.

(** [ARRAY[created_utc] as path] and [ct.path || c.created_utc]. *)
Definition root_path (c : CommentRow.t) : list Z := [CommentRow.created_utc c].
Definition append_path (path : list Z) (c : CommentRow.t) : list Z :=
  path ++ [CommentRow.created_utc c].

Definition scan_comment (row : CommentRow.t) : Comment.t :=
  let LinkID := "t3_" +:+ CommentRow.post_id row in
  Comment.mk (CommentRow.id row) LinkID
    (match CommentRow.parent_id row with
     | Some parentID => "t1_" +:+ parentID
     | None => LinkID
     end)
    (CommentRow.author row) (CommentRow.body row) (CommentRow.score row)
    (timeToUnixFloat (CommentRow.created_utc row))
    (match CommentRow.edited_utc row with
     | Some t => {| IsEdited := true; Timestamp := timeToUnixFloat t |}
     | None => {| IsEdited := false; Timestamp := 0 |}
     end).

Definition GetCommentsByPost (s : DB) (postID : string) : list Comment.t * error :=
  (map scan_comment (query_comments root_path append_path array_le s postID),
   noerr).

(** GetPostStats. Its recursive query is that of GetCommentsByPost with the
    level of a row in the place of its path: [0 as level] and
    [ct.level + 1] (an [integer]; a level is below the number of comments).
    The posts with the id are joined with every row of the tree and grouped:
    [COUNT(ct.id)], [COALESCE(MAX(level), 0)], [MAX(p.last_updated)]. No post
    with the id is no row to scan. *)
Definition root_level (c : CommentRow.t) : Z := 0.
Definition next_level (level : Z) (c : CommentRow.t) : Z := level + 1.

Definition GetPostStats (s : DB) (postID : string) : PostStats.t + QueryError :=
  let ct := comment_tree root_level next_level (comments s) postID in
  match List.filter (λ p, String.eqb (PostRow.id p) postID) (posts s) with
  | [] => inr {| QueryOp := "get_post_stats"; QueryErr := ErrNoRows |}
  | p :: ps =>
      inl {| PostStats.PostID := postID;
             PostStats.CommentCount :=
               Z.of_nat (List.length (p :: ps) * List.length ct);
             PostStats.MaxCommentDepth :=
               match map snd ct with
               | [] => 0
               | level :: levels => foldl Z.max level levels
               end;
             PostStats.LastUpdated :=
               foldl Z.max (PostRow.last_updated p) (map PostRow.last_updated ps) |}
  end.

(** GetPostsBySubreddit up to the call of [QueryContext]: the query text and
    its arguments. *)
Definition GetPostsBySubreddit_query (ToUpper : string → string)
    (subreddit : string) (opts : QueryOptions.t) : string * list Arg :=
  let query := "
		SELECT id, subreddit, author, title, selftext, url, score, upvote_ratio,
		       num_comments, created_utc, edited_utc, is_self, is_video, raw_json
		FROM posts
		WHERE subreddit = $1
	" in
  let args := [arg_string subreddit] in
  let argPos := 2 in
  let '(query, args, argPos) :=
    if negb (IsZero (QueryOptions.StartDate opts))
    then (query +:+ " AND created_utc >= $" +:+ itoa argPos,
          (args ++ [arg_time (QueryOptions.StartDate opts)])%list,
          wrap64 (argPos + 1))
    else (query, args, argPos) in
  let '(query, args, argPos) :=
    if negb (IsZero (QueryOptions.EndDate opts))
    then (query +:+ " AND created_utc <= $" +:+ itoa argPos,
          (args ++ [arg_time (QueryOptions.EndDate opts)])%list,
          wrap64 (argPos + 1))
    else (query, args, argPos) in
  let '(sortBy, sortOrder) := order_by ToUpper opts in
  let query := query +:+ " ORDER BY " +:+ sortBy +:+ " " +:+ sortOrder in
  let limit :=
    if QueryOptions.Limit opts =? 0 then 25 else QueryOptions.Limit opts in
  let query :=
    query +:+ " LIMIT $" +:+ itoa argPos +:+ " OFFSET $"
    +:+ itoa (wrap64 (argPos + 1)) in
  (query, (args ++ [arg_int limit; arg_int (QueryOptions.Offset opts)])%list).

End postgres.

(** ** package sqlite *)

Module sqlite.

Definition comment_row (now : Z) (comment : Comment.t) (depth : Z) : CommentRow.t :=
  let editedUTC :=
    if IsEdited (Comment.Edited comment)
       && (0 <? Timestamp (Comment.Edited comment))
    then Some (Timestamp (Comment.Edited comment)) else None in
  CommentRow.mk (Comment.ID comment) (postID_param comment)
    (parentID_param comment) (Comment.Author comment) (Comment.Body comment)
    (Comment.Score comment) depth (Comment.CreatedUTC comment) editedUTC
    now now comment.

(** "Calculate depth": 0 for a NULL parent, else 1. *)
Definition flat_depth (parentID : option string) : Z :=
  match parentID with None => 0 | Some _ => 1 end.

Definition SavePost := SavePost_with post_do_update.

Definition SaveComment (s : DB) (now : Z) (comment : Comment.t) : DB * error :=
  let depth := flat_depth (parentID_param comment) in
  match exec_comment comment_do_update (comment_row now comment depth) s with
  | inl s' => (s', noerr)
  | inr e => (s, Some {| Op := "save_comment"; Err := e |})
  end.

Fixpoint insert_comments (now : Z) (tx : DB) (comments : list Comment.t)
    : DB + StorageError :=
  match comments with
  | [] => inl tx
  | comment :: rest =>
      let depth := flat_depth (parentID_param comment) in
      match exec_comment comment_do_update (comment_row now comment depth) tx with
      | inr e => inr {| Op := "insert_comment"; Err := e |}
      | inl tx' => insert_comments now tx' rest
      end
  end.

Definition SaveComments (s : DB) (now : Z) (comments : list Comment.t)
    : DB * error :=
  match comments with
  | [] => (s, noerr)
  | _ =>
      let tx := BeginTx s in
      match insert_comments now (tx_cur tx) comments with
      | inr e => (Rollback tx, Some e)
      | inl cur => (Commit (mkTx (tx_base tx) cur), noerr)
      end
  end.

(** The [created_utc] column of sqlite is TEXT: the float is kept in its text
    form, [1700000000.0] for a whole second of up to 15 digits. (A longer
    one is written in exponent form, with 15 significant digits, which the
    embedding does not follow: see [kept_by].) *)
Definition real_text (t : Z) : string :=
  DecimalString.NilZero.string_of_int (Z.to_int t) +:+ ".0".

(** [created_utc as path] and [ct.path || c.created_utc]: text, compared byte
    by byte. *)
Definition root_path (c : CommentRow.t) : string :=
  real_text (CommentRow.created_utc c).
Definition append_path (path : string) (c : CommentRow.t) : string :=
  path +:+ real_text (CommentRow.created_utc c).

(** The [Scan] of GetCommentsByPost. [created_utc] and [edited_utc] are read
    back from their text: as they were written, for whole seconds of up to
    15 digits ([kept_by]). *)
Definition scan_comment (row : CommentRow.t) : Comment.t :=
  let LinkID := "t3_" +:+ CommentRow.post_id row in
  Comment.mk (CommentRow.id row) LinkID
    (match CommentRow.parent_id row with
     | Some parentID => "t1_" +:+ parentID
     | None => LinkID
     end)
    (CommentRow.author row) (CommentRow.body row) (CommentRow.score row)
    (CommentRow.created_utc row)
    (match CommentRow.edited_utc row with
     | Some t => {| IsEdited := true; Timestamp := t |}
     | None => {| IsEdited := false; Timestamp := 0 |}
     end).

Definition GetCommentsByPost (s : DB) (postID : string) : list Comment.t * error :=
  (map scan_comment (query_comments root_path append_path String.leb s postID),
   noerr).

(** The [Scan] of GetPost and scanPosts: [upvote_ratio], [is_video] and
    [raw_json] are read and dropped; [edited_utc] is NULL or the text of the
    timestamp, which [%f] reads back. The timestamps come back from their
    text as they were written, for whole seconds of up to 15 digits
    ([kept_by]). *)
Definition scan_post (row : PostRow.t) : Post.t :=
  Post.mk (PostRow.id row) (PostRow.subreddit row) (PostRow.author row)
    (PostRow.title row) (PostRow.selftext row) (PostRow.url row)
    (PostRow.score row) (PostRow.num_comments row) (PostRow.created_utc row)
    (match PostRow.edited_utc row with
     | Some timestamp => {| IsEdited := true; Timestamp := timestamp |}
     | None => {| IsEdited := false; Timestamp := 0 |}
     end)
    (PostRow.is_self row).

Definition GetPost (s : DB) (id : string) : Post.t + QueryError :=
  match lookup_row PostRow.id id (posts s) with
  | Some row => inl (scan_post row)
  | None =>
      inr {| QueryOp := "get_post"; QueryErr := Errorf ("post not found: " +:+ id) |}
  end.

(** GetPostsBySubreddit up to the call of [QueryContext]: the query text and
    its arguments. *)
Definition GetPostsBySubreddit_query (ToUpper : string → string)
    (subreddit : string) (opts : QueryOptions.t) : string * list Arg :=
  let query := "
		SELECT id, subreddit, author, title, selftext, url, score, upvote_ratio,
		       num_comments, created_utc, edited_utc, is_self, is_video, raw_json
		FROM posts
		WHERE subreddit = ?
	" in
  let args := [arg_string subreddit] in
  let '(query, args) :=
    if negb (IsZero (QueryOptions.StartDate opts))
    then (query +:+ " AND created_utc >= ?",
          (args ++ [arg_time (QueryOptions.StartDate opts)])%list)
    else (query, args) in
  let '(query, args) :=
    if negb (IsZero (QueryOptions.EndDate opts))
    then (query +:+ " AND created_utc <= ?",
          (args ++ [arg_time (QueryOptions.EndDate opts)])%list)
    else (query, args) in
  let '(sortBy, sortOrder) := order_by ToUpper opts in
  let query := query +:+ " ORDER BY " +:+ sortBy +:+ " " +:+ sortOrder in
  let limit :=
    if QueryOptions.Limit opts =? 0 then 25 else QueryOptions.Limit opts in
  let query := query +:+ " LIMIT ? OFFSET ?" in
  (query, (args ++ [arg_int limit; arg_int (QueryOptions.Offset opts)])%list).

End sqlite.

(** ** package schema: the migration runner *)

Module schema.

(** [Migration] "represents a single database migration". *)
Record Migration := { Version : Z; Name : string; SQL : string }.

(** An entry of an embedded directory, with what [ReadFile] returns for it. *)
Record DirEntry := { entry_Name : string; entry_IsDir : bool; entry_content : string }.

Inductive LoadError :=
| UnsupportedDatabase (dbType : string)
| InvalidFilename (name : string).

(** [strings.HasSuffix]. *)
Definition HasSuffix (s suffix : string) : bool :=
  (String.length suffix <=? String.length s)%nat
  && String.eqb
       (substring (String.length s - String.length suffix) (String.length suffix) s)
       suffix.

(** [fmt.Sscanf(name, "%d_", &version)]: blanks, an optional sign, decimal
    digits, then the underscore of the format; the number has to fit an
    [int]. A newline among the blanks, no digit, or anything but an
    underscore after the digits is an error. *)
Definition is_blank (c : ascii) : bool :=
  let n := nat_of_ascii c in
  (n =? 9)%nat || (n =? 11)%nat || (n =? 12)%nat || (n =? 13)%nat || (n =? 32)%nat.

Fixpoint skip_blanks (s : string) : string :=
  match s with
  | String c rest => if is_blank c then skip_blanks rest else s
  | EmptyString => s
  end.

Definition digit_of (c : ascii) : option Z :=
  let n := nat_of_ascii c in
  if (48 <=? n)%nat && (n <=? 57)%nat then Some (Z.of_nat (n - 48)) else None.

(** The digits at the head of [s], their value on top of [acc], the number
    of digits read and the rest of the input. *)
Fixpoint scan_digits (acc : Z) (count : nat) (s : string) : Z * nat * string :=
  match s with
  | String c rest =>
      match digit_of c with
      | Some d => scan_digits (10 * acc + d) (S count) rest
      | None => (acc, count, s)
      end
  | EmptyString => (acc, count, s)
  end.

Definition scan_version (name : string) : option Z :=
  let s := skip_blanks name in
  let '(negative, s) :=
    match s with
    | String "-" rest => (true, rest)
    | String "+" rest => (false, rest)
    | _ => (false, s)
    end in
  let '(value, count, rest) := scan_digits 0 0 s in
  let version := if negative then - value else value in
  match count, rest with
  | S _, String "_" _ =>
      if (- 2 ^ 63 <=? version) && (version <? 2 ^ 63) then Some version else None
  | _, _ => None
  end.

(** The loop of loadMigrations over the directory entries. *)
Fixpoint read_entries (entries : list DirEntry) (migrations : list Migration)
    : list Migration + LoadError :=
  match entries with
  | [] => inl migrations
  | entry :: rest =>
      if entry_IsDir entry || negb (HasSuffix (entry_Name entry) ".sql")
      then read_entries rest migrations
      else
        match scan_version (entry_Name entry) with
        | None => inr (InvalidFilename (entry_Name entry))
        | Some version =>
            read_entries rest
              (migrations ++
                 [{| Version := version; Name := entry_Name entry;
                     SQL := entry_content entry |}])
        end
  end.

Definition by_version (a b : Migration) : Prop := Version a <= Version b.

#[local] Instance by_version_dec a b : Decision (by_version a b).
Proof. unfold by_version. apply _. Defined.

(** The embedded file systems [postgresFS] and [sqliteFS]: the entries of
    [migrations/postgres] and of [migrations/sqlite]. *)
Record EmbedFS := { postgresFS : list DirEntry; sqliteFS : list DirEntry }.

(** loadMigrations; [sort.Slice] by [Version] is a sort by [by_version]. *)
Definition loadMigrations (fs : EmbedFS) (dbType : string)
    : list Migration + LoadError :=
  match
    (if String.eqb dbType "postgres" then Some (postgresFS fs)
     else if String.eqb dbType "sqlite" then Some (sqliteFS fs)
     else None)
  with
  | None => inr (UnsupportedDatabase dbType)
  | Some entries =>
      match read_entries entries [] with
      | inr e => inr e
      | inl migrations => inl (merge_sort by_version migrations)
      end
  end.

(** [MigrationRunner] "handles database migrations"; the handle [db] is the
    state the operations below take and return. *)
Record MigrationRunner := { dbType : string; migrations : list Migration }.

Definition NewMigrationRunner (fs : EmbedFS) (dbType : string)
    : MigrationRunner + LoadError :=
  match loadMigrations fs dbType with
  | inr e => inr e
  | inl ms => inl {| dbType := dbType; migrations := ms |}
  end.

(** A row of [schema_version]. *)
Record LedgerRow := { version : Z; name : string; applied_at : Z }.

Inductive MigrationError :=
| ExecuteSQL
| RecordMigration (c : Cause).

(** "failed to run migration %s: %w". *)
Record RunError := { failed_migration : string; cause : MigrationError }.

Section runner.
(** The objects the scripts create and change, and the effect of a script
    on them ([None]: the script fails). *)
Context {Objects : Type} (exec_sql : string → Objects → option Objects).

(** The database: the objects, the ledger table ([None] until it is
    created) and the number of transactions begun. *)
Record DB := mkDB {
  objects : Objects;
  schema_version : option (list LedgerRow);
  tx_begun : nat
}.

Definition ledger (db : DB) : list LedgerRow :=
  default [] (schema_version db).

(** [CREATE TABLE IF NOT EXISTS schema_version]. *)
Definition createSchemaVersionTable (db : DB) : DB :=
  mkDB (objects db) (Some (ledger db)) (tx_begun db).

(** [SELECT COALESCE(MAX(version), 0) FROM schema_version]. *)
Definition getCurrentVersion (db : DB) : Z :=
  match ledger db with
  | [] => 0
  | r :: rs => foldl Z.max (version r) (map version rs)
  end.

(** runMigration "runs a single migration in a transaction": the script,
    then the ledger record, whose [version] is the primary key. *)
Definition runMigration (now : Z) (db : DB) (migration : Migration)
    : DB * option MigrationError :=
  let tx := mkDB (objects db) (schema_version db) (S (tx_begun db)) in
  match exec_sql (SQL migration) (objects tx) with
  | None => (tx, Some ExecuteSQL)
  | Some objs =>
      if bool_decide (Version migration ∈ map version (ledger tx))
      then (tx, Some (RecordMigration (UniqueKey "schema_version_pkey")))
      else
        (mkDB objs
           (Some (ledger tx ++
                    [{| version := Version migration; name := Name migration;
                        applied_at := now |}])%list)
           (tx_begun tx),
         None)
  end.

(** "Run pending migrations": the loop of Run. *)
Fixpoint run_pending (now : Z) (currentVersion : Z) (db : DB)
    (migrations : list Migration) : DB * option RunError :=
  match migrations with
  | [] => (db, None)
  | migration :: rest =>
      if Version migration <=? currentVersion
      then run_pending now currentVersion db rest
      else
        match runMigration now db migration with
        | (db', Some err) =>
            (db', Some {| failed_migration := Name migration; cause := err |})
        | (db', None) => run_pending now currentVersion db' rest
        end
  end.

Definition Run (mr : MigrationRunner) (now : Z) (db : DB) : DB * option RunError :=
  let db := createSchemaVersionTable db in
  let currentVersion := getCurrentVersion db in
  run_pending now currentVersion db (migrations mr).

End runner.

End schema.

(** ** The [storage.Storage] interface over the two backends *)

Inductive Backend := Postgres | SQLite.

Module storage.

Definition SavePost (b : Backend) : DB → Z → Post.t → DB * error :=
  match b with
  | Postgres => postgres.SavePost
  | SQLite => sqlite.SavePost
  end.

Definition SavePosts (b : Backend) : DB → Z → list Post.t → DB * error :=
  SavePosts.

Definition SaveSubreddit (b : Backend) : DB → Z → SubredditData.t → DB * error :=
  SaveSubreddit.

Definition SaveComment (b : Backend) : DB → Z → Comment.t → DB * error :=
  match b with
  | Postgres => postgres.SaveComment
  | SQLite => sqlite.SaveComment
  end.

(** [None]: the call has not returned within [fuel] nested calls of the
    depth resolver (sqlite has no resolver and always returns). *)
Definition SaveComments (fuel : nat) (b : Backend) (s : DB) (now : Z)
    (comments : list Comment.t) : option (DB * error) :=
  match b with
  | Postgres => postgres.SaveComments fuel s now comments
  | SQLite => Some (sqlite.SaveComments s now comments)
  end.

Definition GetCommentsByPost (b : Backend) : DB → string → list Comment.t * error :=
  match b with
  | Postgres => postgres.GetCommentsByPost
  | SQLite => sqlite.GetCommentsByPost
  end.

Definition scan_comment (b : Backend) : CommentRow.t → Comment.t :=
  match b with
  | Postgres => postgres.scan_comment
  | SQLite => sqlite.scan_comment
  end.

(** The rows behind GetCommentsByPost, before they are scanned. *)
Definition thread_rows (b : Backend) (s : DB) (postID : string) : list CommentRow.t :=
  match b with
  | Postgres =>
      query_comments postgres.root_path postgres.append_path postgres.array_le s postID
  | SQLite =>
      query_comments sqlite.root_path sqlite.append_path String.leb s postID
  end.

End storage.

(** ** The archiver (archiver.go)

    The requests and responses of the API wrapper, with the fields the
    archiver sets and reads ([Pagination] is flattened into the request). *)

Module PostsRequest.
Record t := mk { Subreddit : string; Limit : Z; After : string }.
End PostsRequest.

Module PostsResponse.
Record t := mk { Posts : list Post.t; AfterFullname : string }.
End PostsResponse.

Module CommentsRequest.
Record t := mk { Subreddit : string; PostID : string }.
End CommentsRequest.

Module CommentsResponse.
Record t := mk { Post : Post.t; Comments : list Comment.t }.
End CommentsResponse.

(** [ArchiveOptions] "configures archiving behavior". *)
Module ArchiveOptions.
Record t := mk {
  Sort : string;
  Limit : Z;
  IncludeComments : bool;
  MaxCommentDepth : Z;
  UpdateExisting : bool
}.
End ArchiveOptions.

(** The calls of [graw.Client] the archiver makes: each takes the client in
    a state and returns it in the next, with a response or an error. *)
Record RedditClient (Client ClientError : Type) := {
  client_GetSubreddit : Client → string → Client * (SubredditData.t + ClientError);
  client_GetHot : Client → PostsRequest.t → Client * (PostsResponse.t + ClientError);
  client_GetNew : Client → PostsRequest.t → Client * (PostsResponse.t + ClientError);
  client_GetComments :
    Client → CommentsRequest.t → Client * (CommentsResponse.t + ClientError)
}.
Arguments client_GetSubreddit {Client ClientError} _ _ _.
Arguments client_GetHot {Client ClientError} _ _ _.
Arguments client_GetNew {Client ClientError} _ _ _.
Arguments client_GetComments {Client ClientError} _ _ _.

(** The errors the archiver returns: a [StorageError] around an error of
    the client, the one for an invalid sort type, or the error of the
    storage as it is. *)
Inductive ArchiveError (ClientError : Type) :=
| FetchError (Op : string) (err : ClientError)
| InvalidSort (sort : string)
| Stored (err : StorageError).
Arguments FetchError {ClientError} Op err.
Arguments InvalidSort {ClientError} sort.
Arguments Stored {ClientError} err.

Module Archiver.
Section archiver.
Context {Client ClientError : Type} (client : RedditClient Client ClientError).
(** The storage is one of the two backends; [fuel] bounds the nested calls
    of postgres' depth resolver, and [None] is a call that has not returned;
    the statements of one call of the archiver all read the clock at [now].
    Log lines are left out, and so is the cancellation of the context. *)
Context (backend : Backend) (fuel : nat) (now : Z).

Definition outcome : Type := option (Client * DB * option (ArchiveError ClientError)).

(** ArchivePost "fetches and stores a single post with comments". *)
Definition ArchivePost (c : Client) (s : DB) (subreddit postID : string)
    (includeComments : bool) : outcome :=
  let commentsReq := CommentsRequest.mk subreddit postID in
  match client_GetComments client c commentsReq with
  | (c, inr err) => Some (c, s, Some (FetchError "fetch_post_and_comments" err))
  | (c, inl commentsResp) =>
      match storage.SavePost backend s now (CommentsResponse.Post commentsResp) with
      | (s, Some err) => Some (c, s, Some (Stored err))
      | (s, None) =>
          if includeComments
             && (0 <? Z.of_nat (length (CommentsResponse.Comments commentsResp)))
          then
            match storage.SaveComments fuel backend s now
                    (CommentsResponse.Comments commentsResp) with
            | None => None
            | Some (s, Some err) => Some (c, s, Some (Stored err))
            | Some (s, None) => Some (c, s, None)
            end
          else Some (c, s, None)
      end
  end.

(** "Archive comments if requested": the loop over the posts; an error of
    ArchivePost is logged and the loop goes on. *)
Fixpoint archive_comments (c : Client) (s : DB) (subreddit : string)
    (posts : list Post.t) : option (Client * DB) :=
  match posts with
  | [] => Some (c, s)
  | post :: rest =>
      match ArchivePost c s subreddit (Post.ID post) true with
      | None => None
      | Some (c, s, _) => archive_comments c s subreddit rest
      end
  end.

(** "Fetch posts based on sort type": [None] for an invalid sort type. *)
Definition fetch_posts (c : Client) (sort : string) (req : PostsRequest.t)
    : option (Client * (PostsResponse.t + ClientError)) :=
  if String.eqb sort "hot" then Some (client_GetHot client c req)
  else if String.eqb sort "new" || String.eqb sort "top"
  then Some (client_GetNew client c req)
  else None.

(** ArchiveSubreddit "fetches and stores posts from a subreddit". *)
Definition ArchiveSubreddit (c : Client) (s : DB) (subreddit : string)
    (opts : ArchiveOptions.t) : outcome :=
  match client_GetSubreddit client c subreddit with
  | (c, inr err) => Some (c, s, Some (FetchError "fetch_subreddit" err))
  | (c, inl subInfo) =>
      match storage.SaveSubreddit backend s now subInfo with
      | (s, Some err) => Some (c, s, Some (Stored err))
      | (s, None) =>
          let Limit :=
            if ArchiveOptions.Limit opts =? 0 then 25 else ArchiveOptions.Limit opts in
          let Sort :=
            if String.eqb (ArchiveOptions.Sort opts) "" then "hot"
            else ArchiveOptions.Sort opts in
          let req := PostsRequest.mk subreddit Limit "" in
          match fetch_posts c Sort req with
          | None => Some (c, s, Some (InvalidSort Sort))
          | Some (c, inr err) => Some (c, s, Some (FetchError "fetch_posts" err))
          | Some (c, inl postsResponse) =>
              let posts := PostsResponse.Posts postsResponse in
              match storage.SavePosts backend s now posts with
              | (s, Some err) => Some (c, s, Some (Stored err))
              | (s, None) =>
                  if ArchiveOptions.IncludeComments opts
                  then
                    match archive_comments c s subreddit posts with
                    | None => None
                    | Some (c, s) => Some (c, s, None)
                    end
                  else Some (c, s, None)
              end
          end
      end
  end.

(** The loop of BackfillSubreddit, [for fetched < maxPosts]; [rounds] bounds
    its rounds, and [None] is a loop that has not ended within them. *)
Fixpoint backfill (rounds : nat) (c : Client) (s : DB) (subreddit : string)
    (maxPosts : Z) (includeComments : bool) (fetched : Z) (after : string)
    : outcome :=
  if fetched <? maxPosts then
    match rounds with
    | O => None
    | S rounds =>
        let batchSize :=
          if wrap64 (maxPosts - fetched) <? 100 then wrap64 (maxPosts - fetched)
          else 100 in
        let req := PostsRequest.mk subreddit batchSize after in
        match client_GetNew client c req with
        | (c, inr err) => Some (c, s, Some (FetchError "backfill_fetch" err))
        | (c, inl postsResponse) =>
            let posts := PostsResponse.Posts postsResponse in
            if (length posts =? 0)%nat then Some (c, s, None)
            else
              match storage.SavePosts backend s now posts with
              | (s, Some err) => Some (c, s, Some (Stored err))
              | (s, None) =>
                  match
                    (if includeComments then archive_comments c s subreddit posts
                     else Some (c, s))
                  with
                  | None => None
                  | Some (c, s) =>
                      let fetched := wrap64 (fetched + Z.of_nat (length posts)) in
                      let after := PostsResponse.AfterFullname postsResponse in
                      if String.eqb after "" then Some (c, s, None)
                      else backfill rounds c s subreddit maxPosts includeComments
                             fetched after
                  end
              end
        end
    end
  else Some (c, s, None).

(** BackfillSubreddit "archives historical posts from a subreddit". *)
Definition BackfillSubreddit (rounds : nat) (c : Client) (s : DB)
    (subreddit : string) (maxPosts : Z) (includeComments : bool) : outcome :=
  backfill rounds c s subreddit maxPosts includeComments 0 "".

End archiver.
End Archiver.

(** ** Fixtures: the thread of TestCommentDepthCalculation *)

Module fixtures.

Definition not_edited : Edited := {| IsEdited := false; Timestamp := 0 |}.

(** testutil.NewTestPost and testutil.NewTestComment (internal/testutil),
    with [time.Now().Unix()] as the argument [now]. *)
Definition NewTestPost (now : Z) (id subreddit title : string) : Post.t :=
  Post.mk id subreddit "" title "" "" 0 0 now not_edited false.

Definition NewTestComment (now : Z) (id postID author body : string) : Comment.t :=
  Comment.mk id ("t3_" +:+ postID) "" author body 0 now not_edited.

(** [c.ParentID = parent]. *)
Definition with_ParentID (c : Comment.t) (parent : string) : Comment.t :=
  Comment.mk (Comment.ID c) (Comment.LinkID c) parent (Comment.Author c)
    (Comment.Body c) (Comment.Score c) (Comment.CreatedUTC c) (Comment.Edited c).

(** The post and the four comments of TestCommentDepthCalculation. *)
Definition post : Post.t :=
  NewTestPost 1700000000 "depthtest" "golang" "Depth Test Post".
Definition c1 :=
  with_ParentID (NewTestComment 1700000000 "c1" "depthtest" "user1" "Top level")
    "t3_depthtest".
Definition c2 :=
  with_ParentID (NewTestComment 1700000001 "c2" "depthtest" "user2" "Reply to c1")
    "t1_c1".
Definition c3 :=
  with_ParentID (NewTestComment 1700000002 "c3" "depthtest" "user3" "Reply to c2")
    "t1_c2".
Definition c4 :=
  with_ParentID
    (NewTestComment 1700000003 "c4" "depthtest" "user4" "Another reply to c1")
    "t1_c1".

(** The store after [SavePost(post)] on a fresh database. *)
Definition with_post (b : Backend) : DB := fst (storage.SavePost b store.empty 10 post).

(** A post without a subreddit: SavePosts skips the subreddit save for it,
    and its insert then misses the row [posts.subreddit] references. *)
Definition no_subreddit : Post.t := NewTestPost 1700000001 "p2" "" "No subreddit".

(** Two replies that name each other as parent. *)
Definition cyc_a :=
  with_ParentID (NewTestComment 1700000004 "a" "depthtest" "user1" "a") "t1_b".
Definition cyc_b :=
  with_ParentID (NewTestComment 1700000005 "b" "depthtest" "user2" "b") "t1_a".

(** The store after the single saves of [c1] and [c2]. *)
Definition with_c1_c2 (b : Backend) : DB :=
  fst (storage.SaveComment b (fst (storage.SaveComment b (with_post b) 11 c1)) 12 c2).

(** Two migration files with the same version, and two whose names sort
    against their versions; both in the order of their names, in which
    [ReadDir] lists a directory. *)
Definition file (name content : string) : schema.DirEntry :=
  {| schema.entry_Name := name; schema.entry_IsDir := false;
     schema.entry_content := content |}.

Definition duplicate_versions : schema.EmbedFS :=
  {| schema.postgresFS := [];
     schema.sqliteFS := [file "001_indexes.sql" "B"; file "001_initial.sql" "A"] |}.

Definition unordered_versions : schema.EmbedFS :=
  {| schema.postgresFS := [];
     schema.sqliteFS := [file "10_indexes.sql" "B"; file "2_initial.sql" "A"] |}.

(** A toy database for the runner: the objects are the scripts run so far,
    and the script [FAIL] fails. *)
Definition exec_sql (sql : string) (objects : list string) : option (list string) :=
  if String.eqb sql "FAIL" then None else Some (objects ++ [sql])%list.

Definition three_migrations : schema.MigrationRunner :=
  {| schema.dbType := "sqlite";
     schema.migrations :=
       [ {| schema.Version := 1; schema.Name := "001_initial.sql"; schema.SQL := "A" |};
         {| schema.Version := 2; schema.Name := "002_indexes.sql"; schema.SQL := "FAIL" |};
         {| schema.Version := 3; schema.Name := "003_more.sql"; schema.SQL := "C" |} ] |}.

Definition two_migrations : schema.MigrationRunner :=
  {| schema.dbType := "sqlite";
     schema.migrations :=
       [ {| schema.Version := 1; schema.Name := "001_initial.sql"; schema.SQL := "A" |};
         {| schema.Version := 2; schema.Name := "002_indexes.sql"; schema.SQL := "B" |} ] |}.

Definition fresh : schema.DB := schema.mkDB ([] : list string) None 0.

(** The post of the fixtures, fetched again with another score. *)
Definition post_rescored : Post.t :=
  Post.mk "depthtest" "golang" "" "Depth Test Post" "" "" 50 4 1700009999
    not_edited false.

(** A second post. *)
Definition other_post : Post.t :=
  NewTestPost 1700000008 "other" "golang" "Other Post".

(** Two top-level replies of the post, created one second apart: [early] in
    the last second whose Unix time has nine digits, [late] in the first
    with ten. *)
Definition early :=
  with_ParentID (NewTestComment 999999999 "early" "depthtest" "user1" "first")
    "t3_depthtest".
Definition late :=
  with_ParentID (NewTestComment 1000000000 "late" "depthtest" "user2" "second")
    "t3_depthtest".

(** The store after [SavePost(post)] and [SaveComments] of a batch. *)
Definition with_comments (b : Backend) (batch : list Comment.t) : DB :=
  default store.empty (fst <$> storage.SaveComments 4 b (with_post b) 11 batch).

Definition depths (s : DB) : list (string * Z) :=
  map (λ r, (CommentRow.id r, CommentRow.depth r)) (comments s).

(** The mock client of the archiver tests. GetSubreddit returns its
    subreddit; the listings return its two posts, GetNew at most as many as
    asked for, and nothing after the first page; GetComments returns a post
    made for the id, without comments. The state counts the calls. *)
Definition mock_posts : list Post.t :=
  [ NewTestPost 1700000000 "post1" "golang" "First Post";
    NewTestPost 1700000000 "post2" "golang" "Second Post" ].

Definition mock_subreddit : SubredditData.t :=
  SubredditData.mk "golang" "The Go Programming Language" "Test subreddit" 100000.

Definition mockRedditClient : RedditClient nat string :=
  {| client_GetSubreddit calls name := (S calls, inl mock_subreddit);
     client_GetHot calls req := (S calls, inl (PostsResponse.mk mock_posts ""));
     client_GetNew calls req :=
       (S calls,
        inl (if String.eqb (PostsRequest.After req) ""
             then PostsResponse.mk
                    (firstn (Z.to_nat (PostsRequest.Limit req)) mock_posts)
                    "t3_after"
             else PostsResponse.mk [] ""));
     client_GetComments calls req :=
       (S calls,
        inl (CommentsResponse.mk
               (NewTestPost 1700000000 (CommentsRequest.PostID req)
                  (CommentsRequest.Subreddit req) "Test Post")
               [])) |}.

(** The runner NewMigrationRunner builds from [duplicate_versions], and a
    runner with a migration of version 0. *)
Definition duplicate_runner : schema.MigrationRunner :=
  {| schema.dbType := "sqlite";
     schema.migrations :=
       [ {| schema.Version := 1; schema.Name := "001_indexes.sql"; schema.SQL := "B" |};
         {| schema.Version := 1; schema.Name := "001_initial.sql"; schema.SQL := "A" |} ] |}.

Definition zero_runner : schema.MigrationRunner :=
  {| schema.dbType := "sqlite";
     schema.migrations :=
       [ {| schema.Version := 0; schema.Name := "000_setup.sql"; schema.SQL := "S" |};
         {| schema.Version := 1; schema.Name := "001_initial.sql"; schema.SQL := "A" |} ] |}.

(** A client whose GetComments returns the first mock post with one comment
    that belongs to a post the store does not hold. *)
Definition mock_post : Post.t :=
  NewTestPost 1700000000 "post1" "golang" "First Post".

Definition stray_thread : CommentsResponse.t :=
  CommentsResponse.mk mock_post
    [ NewTestComment 1700000001 "c9" "elsewhere" "user1" "lost" ].

Definition strayCommentClient : RedditClient nat string :=
  {| client_GetSubreddit := client_GetSubreddit mockRedditClient;
     client_GetHot := client_GetHot mockRedditClient;
     client_GetNew := client_GetNew mockRedditClient;
     client_GetComments calls req := (S calls, inl stray_thread) |}.

End fixtures.

(** ** Notions the properties are stated with *)

(** The parent link of the batch map: [x] has the in-batch parent id [p]. *)
Definition batch_parent (commentMap : gmap string string) (x p : string) : Prop :=
  commentMap !! x = Some p ∧ p ≠ "".

(** The depth of [x] along its chain of batch parents: 0 where the chain
    leaves the map or meets an empty parent id, one more at each link. *)
Inductive resolves (commentMap : gmap string string) : string → Z → Prop :=
| resolves_top x :
    (∀ p, ¬ batch_parent commentMap x p) → resolves commentMap x 0
| resolves_nested x p d :
    batch_parent commentMap x p → resolves commentMap p d →
    resolves commentMap x (wrap64 (d + 1)).

(** The batch map has a cycle: some id is its own ancestor. *)
Definition cyclic (commentMap : gmap string string) : Prop :=
  ∃ x, tc (batch_parent commentMap) x x.

(** Every entry of the depth cache is the depth of its key. *)
Definition cache_sound (commentMap : gmap string string) (depthCache : gmap string Z) : Prop :=
  ∀ k v, depthCache !! k = Some v → resolves commentMap k v.

(** The invariant of the insert loops of SaveComments while the reply [c],
    whose parent [p] is neither stored nor in the batch, is still to come. *)
Definition awaiting (c : Comment.t) (p : string) (tx : DB) (cs : list Comment.t) : Prop :=
  In c cs ∧ NoDup (map Comment.ID cs)
  ∧ ¬ In p (map Comment.ID cs)
  ∧ ¬ In p (map CommentRow.id (comments tx))
  ∧ ¬ In (Comment.ID c) (map CommentRow.id (comments tx)).

(** The entries loadMigrations reads for a dialect, the files among them it
    takes for migrations, and the definition each one stands for. *)
Definition dialect_entries (fs : schema.EmbedFS) (dbType : string)
    : option (list schema.DirEntry) :=
  if String.eqb dbType "postgres" then Some (schema.postgresFS fs)
  else if String.eqb dbType "sqlite" then Some (schema.sqliteFS fs)
  else None.

Definition migration_files (entries : list schema.DirEntry) : list schema.DirEntry :=
  List.filter (λ e, negb (schema.entry_IsDir e)
                    && schema.HasSuffix (schema.entry_Name e) ".sql") entries.

Definition definition_of (e : schema.DirEntry) : option schema.Migration :=
  (λ v, {| schema.Version := v; schema.Name := schema.entry_Name e;
           schema.SQL := schema.entry_content e |})
  <$> schema.scan_version (schema.entry_Name e).

(** The migrations Run has to apply at a ledger maximum, the effect of
    their scripts one after the other, and the ledger record of one. *)
Definition pending (currentVersion : Z) (ms : list schema.Migration)
    : list schema.Migration :=
  List.filter (λ m, negb (schema.Version m <=? currentVersion)) ms.

Definition run_scripts {Objects : Type} (exec_sql : string → Objects → option Objects)
    (ms : list schema.Migration) (o : Objects) : option Objects :=
  foldl (λ acc m, acc ≫= exec_sql (schema.SQL m)) (Some o) ms.

Definition ledger_row (now : Z) (m : schema.Migration) : schema.LedgerRow :=
  {| schema.version := schema.Version m; schema.name := schema.Name m;
     schema.applied_at := now |}.




Definition frozen_comment (r : CommentRow.t) :=
  (CommentRow.id r, CommentRow.created_utc r, CommentRow.post_id r,
   CommentRow.parent_id r, CommentRow.author r, CommentRow.archived_at r).















(** The thread of a post: the replies reached from its top-level replies
    through parent links. [tree_row k (c, path)] is a row of the recursive
    query at level [k], with the path the query gives it. *)
Inductive in_thread (cs : list CommentRow.t) (postID : string) : CommentRow.t → Prop :=
| thread_root c :
    In c cs → CommentRow.post_id c = postID → CommentRow.parent_id c = None →
    in_thread cs postID c
| thread_reply c q :
    In c cs → in_thread cs postID q →
    CommentRow.parent_id c = Some (CommentRow.id q) →
    in_thread cs postID c.

Inductive tree_row {K : Type} (root_path : CommentRow.t → K)
    (append_path : K → CommentRow.t → K) (cs : list CommentRow.t) (postID : string)
    : nat → CommentRow.t * K → Prop :=
| tree_root c :
    In c cs → CommentRow.post_id c = postID → CommentRow.parent_id c = None →
    tree_row root_path append_path cs postID 0 (c, root_path c)
| tree_reply k c q path :
    In c cs → tree_row root_path append_path cs postID k (q, path) →
    CommentRow.parent_id c = Some (CommentRow.id q) →
    tree_row root_path append_path cs postID (S k) (c, append_path path c).

(** [d] is a reply to the stored comment [a]; its descendants are the
    transitive closure. *)
Definition reply_to (cs : list CommentRow.t) (d a : CommentRow.t) : Prop :=
  In a cs ∧ CommentRow.parent_id d = Some (CommentRow.id a).

Definition descends (cs : list CommentRow.t) : relation CommentRow.t :=
  tc (reply_to cs).

(** The subreddit SavePost and SavePosts make up for a post: its name and
    nothing else. *)
Definition blank_subreddit (name : string) : SubredditData.t :=
  SubredditData.mk name "" "" 0.

(** The post as sqlite gives it back: [edited_utc] holds the timestamp of an
    edited post when it is positive, and is NULL otherwise. *)
Definition sqlite_Edited (e : Edited) : Edited :=
  if IsEdited e && (0 <? Timestamp e)
  then {| IsEdited := true; Timestamp := Timestamp e |}
  else {| IsEdited := false; Timestamp := 0 |}.

Definition stored_post (post : Post.t) : Post.t :=
  Post.mk (Post.ID post) (Post.Subreddit post) (Post.Author post) (Post.Title post)
    (Post.SelfText post) (Post.URL post) (Post.Score post) (Post.NumComments post)
    (Post.CreatedUTC post) (sqlite_Edited (Post.Edited post)) (Post.IsSelf post).

(** A stored post saved again: what the [DO UPDATE] writes comes from the
    new post, the rest stays as first stored. *)
Definition resaved_post (old new : Post.t) : Post.t :=
  Post.mk (Post.ID old) (Post.Subreddit old) (Post.Author old) (Post.Title old)
    (Post.SelfText old) (Post.URL old) (Post.Score new) (Post.NumComments new)
    (Post.CreatedUTC old) (sqlite_Edited (Post.Edited new)) (Post.IsSelf old).

(** Fullnames as the API gives them: the post of a comment is [t3_<id>],
    its parent is the post or a comment, [t1_<id>]. *)
Definition fullnames (c : Comment.t) : Prop :=
  (∃ post, post ≠ "" ∧ Comment.LinkID c = "t3_" +:+ post)
  ∧ (Comment.ParentID c = Comment.LinkID c
     ∨ ∃ parent, parent ≠ "" ∧ Comment.ParentID c = "t1_" +:+ parent).

(** What postgres keeps of [Edited]: the timestamp of an edited comment,
    unless it is 0 or the second of the zero [time.Time]. *)
Definition postgres_Edited (e : Edited) : Edited :=
  if IsEdited e && negb (Timestamp e =? 0)
     && negb (Timestamp e =? postgres.zeroTime)
  then {| IsEdited := true; Timestamp := Timestamp e |}
  else {| IsEdited := false; Timestamp := 0 |}.

Definition with_Edited (c : Comment.t) (e : Edited) : Comment.t :=
  Comment.mk (Comment.ID c) (Comment.LinkID c) (Comment.ParentID c)
    (Comment.Author c) (Comment.Body c) (Comment.Score c) (Comment.CreatedUTC c) e.

(** A new comment with nothing to hang on, when it comes after the comments
    [pre] of a batch in the transaction [tx]: it is neither stored nor in
    [pre], and its post is not stored, or its parent is neither the comment
    itself, nor stored, nor in [pre]. *)
Definition dangling (c : Comment.t) (tx : DB) (pre : list Comment.t) : Prop :=
  ¬ In (Comment.ID c) (map CommentRow.id (comments tx))
  ∧ ¬ In (Comment.ID c) (map Comment.ID pre)
  ∧ (¬ In (postID_param c) (map PostRow.id (posts tx))
     ∨ ∃ p, parentID_param c = Some p ∧ p ≠ Comment.ID c
            ∧ ¬ In p (map CommentRow.id (comments tx))
            ∧ ¬ In p (map Comment.ID pre)).

(** The comment [k] is stored at the depth of its chain of batch parents. *)
Definition stored_at_batch_depth (commentMap : gmap string string) (tx : DB)
    (k : string) : Prop :=
  ∃ row, lookup_row CommentRow.id k (comments tx) = Some row
         ∧ resolves commentMap k (CommentRow.depth row).

(** The decimal numeral with the digits [ds], most significant first, and
    the number it writes. *)
Definition digit_char (d : nat) : ascii := ascii_of_nat (48 + d).

Definition numeral (ds : list nat) : string :=
  foldr (λ d s, String (digit_char d) s) "" ds.

Definition numeral_value (ds : list nat) : Z :=
  foldl (λ acc d, 10 * acc + Z.of_nat d) 0 ds.

(** The runner without the migrations whose version is 0 or below. *)
Definition positive_versions (mr : schema.MigrationRunner) : schema.MigrationRunner :=
  {| schema.dbType := schema.dbType mr;
     schema.migrations :=
       List.filter (λ m, 0 <? schema.Version m) (schema.migrations mr) |}.

(** The numbers of the [$n] placeholders of a query text, in the order in
    which they come, and the number of its [?] placeholders. *)
Fixpoint dollar_placeholders (query : string) : list Z :=
  match query with
  | "" => []
  | String c rest =>
      if Ascii.eqb c "$" then
        match schema.scan_digits 0 0 rest with
        | (n, S _, _) => n :: dollar_placeholders rest
        | _ => dollar_placeholders rest
        end
      else dollar_placeholders rest
  end.

Fixpoint question_marks (query : string) : nat :=
  match query with
  | "" => 0%nat
  | String c rest =>
      if Ascii.eqb c "?" then S (question_marks rest) else question_marks rest
  end.

(** The whole seconds a backend gives back as it was given them. sqlite's
    TEXT columns hold a float64 in its text form, which has 15 significant
    digits: a whole second of 16 digits or more is written in exponent form
    and comes back rounded. On postgres a second goes in through
    [time.Unix] and comes back through [UnixNano] and a float64 division,
    which are exact up to 2^32 seconds (and further, not without bound).
    The embedding keeps every integer, so that what it says of a timestamp
    read back holds of the code within these bounds. *)
Definition kept_by (b : Backend) (t : Z) : Prop :=
  match b with
  | SQLite => -1000000000000000 < t < 1000000000000000
  | Postgres => -4294967296 < t < 4294967296
  end.

Definition kept_post (post : Post.t) : Prop :=
  kept_by SQLite (Post.CreatedUTC post)
  ∧ kept_by SQLite (Timestamp (Post.Edited post)).

Definition kept_comment (b : Backend) (c : Comment.t) : Prop :=
  kept_by b (Comment.CreatedUTC c)
  ∧ kept_by b (Timestamp (Comment.Edited c)).

(** A Unix time of ten digits: from September 2001 to November 2286. *)
Definition ten_digits (t : Z) : Prop := 1000000000 ≤ t < 10000000000.

(** The digits of a decimal number of the library, most significant
    first. *)
Fixpoint uint_digits (d : Decimal.uint) : list nat :=
  match d with
  | Decimal.Nil => []
  | Decimal.D0 l => 0%nat :: uint_digits l
  | Decimal.D1 l => 1%nat :: uint_digits l
  | Decimal.D2 l => 2%nat :: uint_digits l
  | Decimal.D3 l => 3%nat :: uint_digits l
  | Decimal.D4 l => 4%nat :: uint_digits l
  | Decimal.D5 l => 5%nat :: uint_digits l
  | Decimal.D6 l => 6%nat :: uint_digits l
  | Decimal.D7 l => 7%nat :: uint_digits l
  | Decimal.D8 l => 8%nat :: uint_digits l
  | Decimal.D9 l => 9%nat :: uint_digits l
  end.

(** The three tables of a store, and the comments of a list saved one by
    one with sqlite's SaveComment, up to the first error. *)
Definition tables (s : DB) :=
  (subreddits s, posts s, comments s).

Fixpoint save_each (now : Z) (s : DB) (cs : list Comment.t) : DB * error :=
  match cs with
  | [] => (s, noerr)
  | c :: rest =>
      match sqlite.SaveComment s now c with
      | (s', None) => save_each now s' rest
      | (s', Some e) => (s', Some e)
      end
  end.

(** * Properties *)

(** ** Tables: lookups and upserts *)

Section table_facts.
Context {R : Type} (key : R → string).

Lemma lookup_row_Some k rows r :
  lookup_row key k rows = Some r → In r rows ∧ key r = k.
Proof.
  induction rows as [|x rows IH]; simpl; [discriminate|].
  destruct (String.eqb_spec (key x) k) as [Hk|Hk].
  - intros [= ->]. auto.
  - intros H. destruct (IH H). auto.
Qed.

Lemma lookup_row_None k rows :
  lookup_row key k rows = None ↔ ¬ In k (map key rows).
Proof.
  induction rows as [|x rows IH]; simpl; [tauto|].
  destruct (String.eqb_spec (key x) k) as [Hk|Hk].
  - split; [discriminate|]. intros H. exfalso. auto.
  - rewrite IH. tauto.
Qed.

Lemma has_row_In k rows :
  has_row key k rows = true ↔ In k (map key rows).
Proof.
  unfold has_row. destruct (lookup_row key k rows) as [r|] eqn:E.
  - apply lookup_row_Some in E as [Hin <-]. split; [|done].
    intros _. apply in_map. exact Hin.
  - apply lookup_row_None in E. split; [discriminate|tauto].
Qed.

Lemma has_row_false k rows :
  has_row key k rows = false ↔ ¬ In k (map key rows).
Proof.
  rewrite <- has_row_In. destruct (has_row key k rows); split; congruence.
Qed.

(** What an upsert does to any column [col] that the [DO UPDATE] keeps:
    the rows already there keep it, in place; a fresh key adds one row. *)
Lemma upsert_kept_column {C} (col : R → C) f new rows :
  (∀ old, col (f old new) = col old) →
  map col (upsert key f new rows) =
    (map col rows ++ if has_row key (key new) rows then [] else [col new])%list.
Proof.
  intros Hf. unfold has_row. induction rows as [|x rows IH]; simpl; [done|].
  destruct (String.eqb_spec (key x) (key new)) as [Hk|Hk]; simpl.
  - rewrite Hf. by rewrite app_nil_r.
  - by rewrite IH.
Qed.


Lemma lookup_row_upsert f new rows k :
  (∀ old, key (f old new) = key old) →
  lookup_row key k (upsert key f new rows) =
    if String.eqb (key new) k
    then Some (match lookup_row key k rows with
               | Some old => f old new
               | None => new
               end)
    else lookup_row key k rows.
Proof.
  intros Hf. induction rows as [|x rows IH]; simpl.
  - by destruct (String.eqb (key new) k).
  - destruct (String.eqb (key x) (key new)) eqn:Hx; simpl.
    + rewrite Hf. apply String.eqb_eq in Hx. rewrite Hx.
      by destruct (String.eqb (key new) k).
    + destruct (String.eqb (key x) k) eqn:Hk; [|exact IH].
      apply String.eqb_eq in Hk. subst k. rewrite String.eqb_sym, Hx. done.
Qed.

End table_facts.

(** ** C10: an empty batch *)

(** C10. SavePosts and SaveComments called with an empty list return nil at
    once and leave the store as it was: no table changes and the count of
    transactions begun on the handle stays the same, on both backends. *)
Theorem C10_empty_batch_is_noop (b : Backend) (fuel : nat) (s : DB) (now : Z) :
  storage.SavePosts b s now [] = (s, noerr)
  ∧ storage.SaveComments fuel b s now [] = Some (s, noerr).
Proof. split; [reflexivity|]. destruct b; reflexivity. Qed.

(** ** C5: batches and the transaction *)

(** What the transaction of SavePosts does cover: when SavePosts returns an
    error, [posts] and [comments] are as before the call. *)
Lemma insert_posts_tables now tx posts0 cur :
  insert_posts now tx posts0 = inl cur →
  subreddits cur = subreddits tx ∧ comments cur = comments tx.
Proof.
  revert tx. induction posts0 as [|p ps IH]; simpl; intros tx.
  - by intros [= ->].
  - unfold exec_post.
    destruct (has_row PostRow.id _ _); [|destruct (post_fk tx _); [discriminate|]];
      intros H; apply IH in H; simpl in H; exact H.
Qed.

Lemma ensure_subreddits_tables now seen tx posts0 tx' err :
  ensure_subreddits now seen tx posts0 = (tx', err) →
  posts (tx_base tx') = posts (tx_base tx)
  ∧ comments (tx_base tx') = comments (tx_base tx).
Proof.
  revert seen tx. induction posts0 as [|p ps IH]; simpl; intros seen tx.
  - by intros [= <- <-].
  - destruct (_ && _); [|apply IH]. simpl. intros H. apply IH in H. exact H.
Qed.

Lemma SavePosts_failure_keeps_posts s now batch s' e :
  SavePosts s now batch = (s', Some e) →
  posts s' = posts s ∧ comments s' = comments s.
Proof.
  unfold SavePosts. destruct batch as [|p ps]; [discriminate|].
  destruct (ensure_subreddits now ∅ (BeginTx s) (p :: ps)) as [tx [err|]] eqn:E;
    apply ensure_subreddits_tables in E; simpl in E.
  - by intros [= <- <-].
  - destruct (insert_posts now (tx_cur tx) (p :: ps)); [discriminate|].
    by intros [= <- <-].
Qed.

(** C5. SavePosts is not all-or-nothing for the parent Containers: on the
    batch [post; no_subreddit] the insert of the second post fails, the
    call returns that error and no post is stored, but the subreddit row
    written for the first post stays in the store. *)
Theorem C5_SavePosts_keeps_subreddit_on_failure (b : Backend) :
  let r := storage.SavePosts b store.empty 10 [fixtures.post; fixtures.no_subreddit] in
  snd r = Some {| Op := "insert_post"; Err := ForeignKey "posts_subreddit_fkey" |}
  ∧ posts (fst r) = []
  ∧ map SubredditRow.name (subreddits (fst r)) = ["golang"]
  ∧ subreddits store.empty = [].
Proof. repeat split. Qed.

(** ** C1: the depth of a nested reply *)

(** C1. The depth invariant fails on replies nested two levels or more.
    The batch of TestCommentDepthCalculation saved through sqlite stores
    [c3] (a reply to [c2], itself at depth 1) at depth 1; the single saves
    of sqlite do the same; and postgres' batch save stores [c3] at depth 1
    when its parent [c2] is already in storage at depth 1. *)
Theorem C1_nested_reply_depth :
  (let r := sqlite.SaveComments (fixtures.with_post SQLite) 11
              [fixtures.c1; fixtures.c2; fixtures.c3; fixtures.c4] in
   snd r = noerr
   ∧ fixtures.depths (fst r) = [("c1", 0); ("c2", 1); ("c3", 1); ("c4", 1)])
  ∧ (let r := sqlite.SaveComment (fixtures.with_c1_c2 SQLite) 13 fixtures.c3 in
     snd r = noerr
     ∧ fixtures.depths (fst r) = [("c1", 0); ("c2", 1); ("c3", 1)])
  ∧ (∀ fuel, ∃ s',
       postgres.SaveComments (2 + fuel) (fixtures.with_c1_c2 Postgres) 13
         [fixtures.c3] = Some (s', noerr)
       ∧ fixtures.depths s' = [("c1", 0); ("c2", 1); ("c3", 1)]).
Proof.
  split; [|split].
  - vm_compute. done.
  - vm_compute. done.
  - intros fuel. eexists. split; reflexivity.
Qed.

(** ** The depth resolver of postgres' SaveComments *)

Section resolver.
Context (commentMap : gmap string string).
Implicit Types (depthCache : gmap string Z) (tx : DB).

Lemma batch_parent_functional x p q :
  batch_parent commentMap x p → batch_parent commentMap x q → p = q.
Proof. intros [H1 _] [H2 _]. congruence. Qed.

Lemma batch_parent_dec x :
  {p | batch_parent commentMap x p} + {∀ p, ¬ batch_parent commentMap x p}.
Proof.
  destruct (commentMap !! x) as [p|] eqn:E.
  - destruct (decide (p = "")) as [->|Hp].
    + right. intros p [H1 H2]. congruence.
    + left. exists p. by split.
  - right. intros p [H1 _]. congruence.
Qed.

Lemma resolves_functional x d d' :
  resolves commentMap x d → resolves commentMap x d' → d = d'.
Proof.
  intros H. revert d'. induction H as [x Hx|x p d Hp _ IH]; intros d' H'.
  - inversion H' as [|? q ? Hq]; subst; [done|]. by destruct (Hx q).
  - inversion H' as [? Hx|? q d1 Hq Hd1]; subst.
    + by destruct (Hx p).
    + rewrite (batch_parent_functional _ _ _ Hp Hq) in IH.
      by rewrite (IH _ Hd1).
Qed.

(** An id with a depth is on no cycle. *)
Lemma resolves_no_cycle x d :
  resolves commentMap x d → ¬ tc (batch_parent commentMap) x x.
Proof.
  induction 1 as [x Hx|x p d Hp _ IH]; intros Hc.
  - inversion Hc as [? ? Hs|? y ? Hs _]; subst; by eapply Hx.
  - apply IH. inversion Hc as [? ? Hs|? y ? Hs Hy]; subst.
    + rewrite (batch_parent_functional _ _ _ Hp Hs) in *. by apply tc_once.
    + rewrite (batch_parent_functional _ _ _ Hp Hs) in *.
      eapply tc_r; eassumption.
Qed.

Lemma cache_sound_empty : cache_sound commentMap ∅.
Proof. intros k v. by rewrite lookup_empty. Qed.

Lemma cache_sound_insert depthCache x d :
  cache_sound commentMap depthCache → resolves commentMap x d →
  cache_sound commentMap (<[x := d]> depthCache).
Proof.
  intros Hc Hx k v. rewrite lookup_insert. case_decide; [|apply Hc].
  intros [= <-]. by subst.
Qed.

(** What calculateDepth returns is the depth along the chain, and it keeps
    the cache sound. *)
Lemma calculateDepth_sound fuel tx depthCache x d depthCache' :
  cache_sound commentMap depthCache →
  postgres.calculateDepth fuel tx commentMap depthCache x = Some (d, depthCache') →
  resolves commentMap x d ∧ cache_sound commentMap depthCache'.
Proof.
  revert depthCache x d depthCache'.
  induction fuel as [|fuel IH]; intros depthCache x d depthCache' Hc; simpl;
    [discriminate|].
  destruct (depthCache !! x) as [v|] eqn:Ev.
  { intros [= <- <-]. split; [by apply Hc|done]. }
  destruct (commentMap !! x) as [p|] eqn:Ex; simpl.
  -     destruct (String.eqb_spec p "") as [->|Hp]; simpl.
    + intros [= <- <-].
      assert (resolves commentMap x 0) as Hx.
      { apply resolves_top. intros q [Hq1 Hq2]. congruence. }
      split; [done|by apply cache_sound_insert].
    + destruct (postgres.calculateDepth fuel tx commentMap depthCache p)
        as [[d1 cache1]|] eqn:Ep; [|discriminate].
      intros [= <- <-]. destruct (IH _ _ _ _ Hc Ep) as [Hd1 Hc1].
      assert (resolves commentMap x (wrap64 (d1 + 1))) as Hx.
      { eapply resolves_nested; [|exact Hd1]. by split. }
      split; [done|by apply cache_sound_insert].
  -     intros [= <- <-].
    assert (resolves commentMap x 0) as Hx.
    { apply resolves_top. intros q [Hq1 Hq2]. congruence. }
    split; [done|by apply cache_sound_insert].
Qed.

(** An id with a depth is resolved by calculateDepth, given enough fuel. *)
Lemma calculateDepth_complete x d :
  resolves commentMap x d →
  ∃ n, ∀ fuel tx depthCache, (n ≤ fuel)%nat →
    cache_sound commentMap depthCache →
    ∃ depthCache',
      postgres.calculateDepth fuel tx commentMap depthCache x = Some (d, depthCache').
Proof.
  induction 1 as [x Hx|x p d [Hp1 Hp2] Hd [n IH]].
  - exists 1%nat. intros [|fuel] tx depthCache Hn Hc; [lia|]. simpl.
    destruct (depthCache !! x) as [v|] eqn:Ev.
    { apply Hc in Ev. exists depthCache. do 2 f_equal.
      eapply resolves_functional; [exact Ev|by apply resolves_top]. }
    destruct (commentMap !! x) as [q|] eqn:Ex; simpl.
    +       destruct (String.eqb_spec q "") as [->|Hq]; simpl; [eauto|].
      destruct (Hx q). by split.
    +       eauto.
  - exists (S n). intros [|fuel] tx depthCache Hn Hc; [lia|]. simpl.
    destruct (depthCache !! x) as [v|] eqn:Ev.
    { apply Hc in Ev. exists depthCache. do 2 f_equal.
      eapply resolves_functional; [exact Ev|].
      eapply resolves_nested; [|exact Hd]. by split. }
    rewrite Hp1. simpl.
    destruct (String.eqb_spec p "") as [->|_]; [done|]. simpl.
    destruct (IH fuel tx depthCache ltac:(lia) Hc) as [cache1 ->]. eauto.
Qed.

End resolver.

(** ** The batch map *)

Lemma build_commentMap_snoc cs c :
  postgres.build_commentMap (cs ++ [c]) =
    <[Comment.ID c := postgres.batch_parentID c]> (postgres.build_commentMap cs).
Proof. unfold postgres.build_commentMap. by rewrite foldl_app. Qed.

Lemma build_commentMap_lookup cs x p :
  postgres.build_commentMap cs !! x = Some p →
  ∃ c, In c cs ∧ Comment.ID c = x ∧ postgres.batch_parentID c = p.
Proof.
  induction cs as [|c cs IH] using rev_ind.
  - unfold postgres.build_commentMap. simpl. by rewrite lookup_empty.
  - rewrite build_commentMap_snoc, lookup_insert. case_decide.
    + intros [= <-]. exists c. split; [|done]. apply in_or_app. right. by left.
    + intros H'. destruct (IH H') as (c' & ? & ? & ?). exists c'.
      split; [|done]. apply in_or_app. by left.
Qed.

Lemma build_commentMap_NoDup cs c :
  NoDup (map Comment.ID cs) → In c cs →
  postgres.build_commentMap cs !! Comment.ID c = Some (postgres.batch_parentID c).
Proof.
  induction cs as [|c' cs IH] using rev_ind; [by intros _ []|].
  rewrite map_app. simpl. intros Hnd Hin.
  apply NoDup_app in Hnd as (Hnd & Hdisj & _).
  rewrite build_commentMap_snoc, lookup_insert.
  apply in_app_or in Hin as [Hin|[->|[]]].
  - case_decide as Heq; [|by apply IH].
    destruct (Hdisj (Comment.ID c)).
    + apply list_elem_of_In, in_map, Hin.
    + rewrite Heq. apply list_elem_of_In. by left.
  - by case_decide.
Qed.

Lemma build_commentMap_None cs x :
  ¬ In x (map Comment.ID cs) → postgres.build_commentMap cs !! x = None.
Proof.
  intros Hx. destruct (postgres.build_commentMap cs !! x) as [p|] eqn:E; [|done].
  apply build_commentMap_lookup in E as (c & Hin & <- & _).
  destruct Hx. by apply in_map.
Qed.

(** ** Chains of batch parents end, unless the map has a cycle *)

Lemma chain_ends (commentMap : gmap string string) (n : nat) :
  ∀ (V : gset string) x,
    (size (dom commentMap ∖ V) < n)%nat →
    (∀ v, v ∈ V → tc (batch_parent commentMap) v x) →
    (∃ d, resolves commentMap x d) ∨ cyclic commentMap.
Proof.
  induction n as [|n IH]; intros V x Hsize HV; [lia|].
  destruct (batch_parent_dec commentMap x) as [[p Hp]|Hno].
  2:{ left. exists 0. by apply resolves_top. }
  destruct (decide (x ∈ V)) as [Hx|Hx].
  { right. exists x. by apply HV. }
  assert (x ∈ dom commentMap) as Hdom.
  { apply elem_of_dom. destruct Hp as [-> _]. eauto. }
  destruct (IH ({[x]} ∪ V) p) as [[d Hd]|Hc].
  - assert (dom commentMap ∖ V = {[x]} ∪ (dom commentMap ∖ ({[x]} ∪ V))) as Heq.
    { apply set_eq. intros y. destruct (decide (y = x)); set_solver. }
    rewrite Heq, size_union in Hsize by set_solver.
    rewrite size_singleton in Hsize. lia.
  - intros v [->%elem_of_singleton|Hv]%elem_of_union.
    + by apply tc_once.
    + eapply tc_r; [by apply HV|done].
  - left. exists (wrap64 (d + 1)). by eapply resolves_nested.
  - by right.
Qed.

Lemma acyclic_resolves (commentMap : gmap string string) x :
  ¬ cyclic commentMap → ∃ d, resolves commentMap x d.
Proof.
  intros Hc.
  destruct (chain_ends commentMap (S (size (dom commentMap))) ∅ x) as [H|H];
    [|set_solver|done|done].
  apply Nat.lt_succ_r, subseteq_size. set_solver.
Qed.

Lemma cycle_never_resolved (commentMap : gmap string string) x fuel tx :
  tc (batch_parent commentMap) x x →
  ∀ depthCache, cache_sound commentMap depthCache →
  postgres.calculateDepth fuel tx commentMap depthCache x = None.
Proof.
  intros Hc depthCache Hs.
  destruct (postgres.calculateDepth fuel tx commentMap depthCache x)
    as [[d c']|] eqn:E; [|done].
  apply calculateDepth_sound in E as [Hd _]; [|done].
  by destruct (resolves_no_cycle _ _ _ Hd).
Qed.

(** ** The insert loop of postgres' SaveComments *)

Lemma insert_comments_resolved fuel now commentMap depthCache tx cs cur :
  cache_sound commentMap depthCache →
  postgres.insert_comments fuel now commentMap depthCache tx cs = Some (inl cur) →
  ∀ c, In c cs → ∃ d, resolves commentMap (Comment.ID c) d.
Proof.
  revert depthCache tx. induction cs as [|c0 cs IH]; intros depthCache tx Hs;
    simpl; [by intros _ c []|].
  destruct (postgres.calculateDepth _ _ _ _ _) as [[d cache1]|] eqn:E;
    [|discriminate].
  apply calculateDepth_sound in E as [Hd Hs1]; [|done].
  destruct (exec_comment _ _ _) as [tx'|e]; [|discriminate].
  intros H c [<-|Hin]; [eauto|]. eapply IH; eauto.
Qed.

Lemma insert_comments_returns now commentMap cs :
  (∀ c, In c cs → ∃ d, resolves commentMap (Comment.ID c) d) →
  ∃ n, ∀ fuel tx depthCache, (n ≤ fuel)%nat →
    cache_sound commentMap depthCache →
    is_Some (postgres.insert_comments fuel now commentMap depthCache tx cs).
Proof.
  induction cs as [|c cs IH]; intros Hall.
  - exists 0%nat. intros. simpl. eauto.
  - destruct (Hall c) as [d Hd]; [by left|].
    destruct (calculateDepth_complete _ _ _ Hd) as [n1 H1].
    destruct IH as [n2 H2]; [intros; apply Hall; by right|].
    exists (n1 `max` n2)%nat. intros fuel tx depthCache Hn Hs. simpl.
    destruct (H1 fuel tx depthCache ltac:(lia) Hs) as [cache1 E]. rewrite E.
    apply calculateDepth_sound in E as [_ Hs1]; [|done].
    destruct (exec_comment _ _ _) as [tx'|e]; [|eauto].
    apply H2; [lia|done].
Qed.

(** ** C3: a cycle in the batch *)

Lemma SaveComments_nonempty fuel s now cs :
  cs ≠ [] →
  postgres.SaveComments fuel s now cs =
    match postgres.insert_comments fuel now (postgres.build_commentMap cs) ∅
            (tx_cur (BeginTx s)) cs with
    | None => None
    | Some (inr e) => Some (Rollback (BeginTx s), Some e)
    | Some (inl cur) => Some (cur, noerr)
    end.
Proof. by destruct cs. Qed.

Lemma sqlite_SaveComments_nonempty s now cs :
  cs ≠ [] →
  sqlite.SaveComments s now cs =
    match sqlite.insert_comments now (tx_cur (BeginTx s)) cs with
    | inr e => (Rollback (BeginTx s), Some e)
    | inl cur => (cur, noerr)
    end.
Proof. by destruct cs. Qed.

Lemma cyclic_nonempty cs : cyclic (postgres.build_commentMap cs) → cs ≠ [].
Proof.
  intros [x Hx] ->.
  inversion Hx as [? ? [Hs _]|? ? ? [Hs _] _]; subst;
    unfold postgres.build_commentMap in Hs; simpl in Hs;
    by rewrite lookup_empty in Hs.
Qed.

Lemma cycle_in_batch cs x :
  tc (batch_parent (postgres.build_commentMap cs)) x x →
  ∃ c, In c cs ∧ Comment.ID c = x.
Proof.
  intros Hx.
  inversion Hx as [? ? [Hs _]|? ? ? [Hs _] _]; subst;
    apply build_commentMap_lookup in Hs as (c & ? & ? & _); eauto.
Qed.

(** C3 (as the code has it). SaveComments has no cycle guard and no
    CycleDetected error. When the parent map of the batch has a cycle,
    postgres' resolver never returns for a Reply on the cycle, whatever the
    number of nested calls allowed, and SaveComments never returns success.
    When the map has no cycle, SaveComments returns. *)
Theorem C3_cycle_is_not_detected (cs : list Comment.t) :
  let commentMap := postgres.build_commentMap cs in
  (cyclic commentMap →
     (∀ x, tc (batch_parent commentMap) x x →
        ∀ fuel tx, postgres.calculateDepth fuel tx commentMap ∅ x = None)
     ∧ (∀ fuel s now s', postgres.SaveComments fuel s now cs ≠ Some (s', noerr)))
  ∧ (¬ cyclic commentMap →
     ∀ s now, ∃ n, ∀ fuel, (n ≤ fuel)%nat →
       is_Some (postgres.SaveComments fuel s now cs)).
Proof.
  intros commentMap. split.
  - intros Hcyc. split.
    + intros y Hy fuel tx. apply cycle_never_resolved; [done|].
      apply cache_sound_empty.
    + intros fuel s now s'.
      rewrite SaveComments_nonempty by by apply cyclic_nonempty.
      destruct (postgres.insert_comments _ _ _ _ _ _) as [[cur|e]|] eqn:E;
        [|done|done].
      exfalso. destruct Hcyc as [x Hx].
      destruct (cycle_in_batch _ _ Hx) as (c & Hin & <-).
      destruct (insert_comments_resolved _ _ _ _ _ _ _
                  (cache_sound_empty _) E c Hin) as [d Hd].
      by destruct (resolves_no_cycle _ _ _ Hd).
  - intros Hc s now.
    destruct (insert_comments_returns now commentMap cs) as [n Hn].
    { intros c _. by apply acyclic_resolves. }
    exists n. intros fuel Hfuel.
    destruct (decide (cs = [])) as [->|Hne]; [by eexists|].
    rewrite SaveComments_nonempty by done.
    destruct (Hn fuel (tx_cur (BeginTx s)) ∅ Hfuel (cache_sound_empty _))
      as [[cur|e] E]; fold commentMap; rewrite E; eauto.
Qed.

Lemma cyc_a_on_cycle :
  tc (batch_parent (postgres.build_commentMap [fixtures.cyc_a; fixtures.cyc_b]))
     "a" "a".
Proof.
  apply tc_l with "b"; [|apply tc_once]; split; done.
Qed.

Lemma c1_c2_acyclic :
  ¬ cyclic (postgres.build_commentMap [fixtures.c1; fixtures.c2]).
Proof.
  intros [x Hx]. destruct (cycle_in_batch _ _ Hx) as (c & Hin & <-).
  assert (resolves (postgres.build_commentMap [fixtures.c1; fixtures.c2]) "c1" 0)
    as H1.
  { apply resolves_top. intros p [Hp1 Hp2]. vm_compute in Hp1. congruence. }
  assert (resolves (postgres.build_commentMap [fixtures.c1; fixtures.c2]) "c2" 1)
    as H2.
  { apply (resolves_nested _ "c2" "c1" 0); [by split|exact H1]. }
  destruct Hin as [<-|[<-|[]]].
  - exact (resolves_no_cycle _ _ _ H1 Hx).
  - exact (resolves_no_cycle _ _ _ H2 Hx).
Qed.

(** C3, at the batch [cyc_a; cyc_b] (a cycle) and at [c1; c2] (none). *)
Lemma C3_cycle_is_not_detected_witness :
  cyclic (postgres.build_commentMap [fixtures.cyc_a; fixtures.cyc_b])
  ∧ (∀ fuel s now s',
       postgres.SaveComments fuel s now [fixtures.cyc_a; fixtures.cyc_b]
       ≠ Some (s', noerr))
  ∧ ¬ cyclic (postgres.build_commentMap [fixtures.c1; fixtures.c2])
  ∧ (∀ s now, ∃ n, ∀ fuel, (n ≤ fuel)%nat →
       is_Some (postgres.SaveComments fuel s now [fixtures.c1; fixtures.c2])).
Proof.
  assert (cyclic (postgres.build_commentMap [fixtures.cyc_a; fixtures.cyc_b]))
    as Hc by (exists "a"; apply cyc_a_on_cycle).
  split; [exact Hc|]. split.
  - apply (proj1 (C3_cycle_is_not_detected [fixtures.cyc_a; fixtures.cyc_b]) Hc).
  - split; [exact c1_c2_acyclic|].
    apply (proj2 (C3_cycle_is_not_detected [fixtures.c1; fixtures.c2])
             c1_c2_acyclic).
Defined.

(** C3 as stated fails: on the batch [cyc_a; cyc_b], whose two replies name
    each other as parent, postgres' SaveComments returns nothing, neither a
    CycleDetected error nor any other result, however many nested calls of
    the resolver are allowed. *)
Lemma C3_counterexample :
  cyclic (postgres.build_commentMap [fixtures.cyc_a; fixtures.cyc_b])
  ∧ ∀ fuel,
      postgres.SaveComments fuel (fixtures.with_post Postgres) 11
        [fixtures.cyc_a; fixtures.cyc_b] = None.
Proof.
  split; [exists "a"; apply cyc_a_on_cycle|].
  intros fuel. rewrite SaveComments_nonempty by done.
  cbn [postgres.insert_comments].
  assert (Comment.ID fixtures.cyc_a = "a") as -> by done.
  rewrite cycle_never_resolved;
    [done|apply cyc_a_on_cycle|apply cache_sound_empty].
Qed.

(** ** C2: a reply whose parent is nowhere *)

Lemma comment_do_update_id old new :
  CommentRow.id (comment_do_update old new) = CommentRow.id old.
Proof. done. Qed.

Lemma comment_do_update_depth_id old new :
  CommentRow.id (comment_do_update_depth old new) = CommentRow.id old.
Proof. done. Qed.

Lemma postgres_comment_row_id now c d :
  CommentRow.id (postgres.comment_row now c d) = Comment.ID c
  ∧ CommentRow.parent_id (postgres.comment_row now c d) = parentID_param c
  ∧ CommentRow.post_id (postgres.comment_row now c d) = postID_param c
  ∧ CommentRow.depth (postgres.comment_row now c d) = d.
Proof.
  unfold postgres.comment_row.
  by destruct (postgres.unixFloatToTime (Timestamp (Comment.Edited c))).
Qed.

Lemma sqlite_comment_row_id now c d :
  CommentRow.id (sqlite.comment_row now c d) = Comment.ID c
  ∧ CommentRow.parent_id (sqlite.comment_row now c d) = parentID_param c
  ∧ CommentRow.post_id (sqlite.comment_row now c d) = postID_param c
  ∧ CommentRow.depth (sqlite.comment_row now c d) = d.
Proof. done. Qed.

(** The ids of [comments] after a statement that went through. *)
Lemma exec_comment_ids f row tx tx' :
  (∀ old, CommentRow.id (f old row) = CommentRow.id old) →
  exec_comment f row tx = inl tx' →
  map CommentRow.id (comments tx') =
    (map CommentRow.id (comments tx) ++
       if has_row CommentRow.id (CommentRow.id row) (comments tx)
       then [] else [CommentRow.id row])%list.
Proof.
  intros Hf. unfold exec_comment.
  destruct (has_row CommentRow.id (CommentRow.id row) (comments tx)) eqn:E.
  - intros [= <-]. simpl. rewrite (upsert_kept_column _ _ f) by done.
    by rewrite E.
  - destruct (comment_fk tx row); [discriminate|].
    intros [= <-]. simpl. rewrite (upsert_kept_column _ _ f) by done.
    by rewrite E.
Qed.

(** A fresh row whose parent is neither itself nor a stored comment is
    rejected by a foreign key. *)
Lemma exec_comment_rejects f row tx p :
  ¬ In (CommentRow.id row) (map CommentRow.id (comments tx)) →
  CommentRow.parent_id row = Some p →
  p ≠ CommentRow.id row →
  ¬ In p (map CommentRow.id (comments tx)) →
  ∃ e, exec_comment f row tx = inr e.
Proof.
  intros Hid Hp Hne Hpid. unfold exec_comment, comment_fk.
  apply has_row_false in Hid, Hpid. rewrite Hid, Hp, Hpid.
  destruct (String.eqb_spec p (CommentRow.id row)); [done|].
  destruct (has_row PostRow.id _ _); simpl; eauto.
Qed.

Section missing_parent.
Context (c : Comment.t) (p : string).
Context (Hparent : parentID_param c = Some p) (Hself : p ≠ Comment.ID c).

Lemma awaiting_head tx c0 cs :
  awaiting c p tx (c0 :: cs) → Comment.ID c0 = Comment.ID c → c0 = c.
Proof.
  intros (Hin & Hnd & _) Heq. destruct Hin as [->|Hin]; [done|].
  simpl in Hnd. apply NoDup_cons in Hnd as [Hc0 _]. destruct Hc0.
  rewrite Heq. apply list_elem_of_In. by apply in_map.
Qed.

Lemma awaiting_step f row tx tx' c0 cs :
  (∀ old, CommentRow.id (f old row) = CommentRow.id old) →
  CommentRow.id row = Comment.ID c0 →
  awaiting c p tx (c0 :: cs) → Comment.ID c0 ≠ Comment.ID c →
  exec_comment f row tx = inl tx' → awaiting c p tx' cs.
Proof.
  intros Hf Hrow (Hin & Hnd & Hp & Hps & Hcs) Hne Hexec.
  destruct Hin as [->|Hin]; [done|].
  simpl in Hnd, Hp. apply NoDup_cons in Hnd as [Hc0 Hnd].
  repeat split; [done|done|tauto| |];
    rewrite (exec_comment_ids _ _ _ _ Hf Hexec), in_app_iff, Hrow;
    destruct (has_row _ _ _); simpl; intuition congruence.
Qed.

Lemma sqlite_insert_rejects now tx cs :
  awaiting c p tx cs → ∃ e, sqlite.insert_comments now tx cs = inr e.
Proof.
  revert tx. induction cs as [|c0 cs IH]; intros tx Haw;
    [by destruct Haw as [[] _]|].
  simpl. destruct (exec_comment _ _ tx) as [tx'|e] eqn:E; [|eauto].
  destruct (decide (Comment.ID c0 = Comment.ID c)) as [Heq|Hne].
  - apply (awaiting_head _ _ _ Haw) in Heq as ->.
    destruct Haw as (_ & _ & _ & Hps & Hcs).
    destruct (exec_comment_rejects comment_do_update
                (sqlite.comment_row now c (sqlite.flat_depth (parentID_param c)))
                tx p) as [e He]; try done.
    rewrite E in He. discriminate.
  - apply IH. by eapply awaiting_step; [| |exact Haw|exact Hne|exact E].
Qed.

Lemma postgres_insert_rejects fuel now commentMap depthCache tx cs cur :
  awaiting c p tx cs →
  postgres.insert_comments fuel now commentMap depthCache tx cs ≠ Some (inl cur).
Proof.
  revert tx depthCache. induction cs as [|c0 cs IH]; intros tx depthCache Haw;
    [by destruct Haw as [[] _]|].
  simpl. destruct (postgres.calculateDepth _ _ _ _ _) as [[d cache1]|]; [|done].
  destruct (exec_comment _ _ tx) as [tx'|e] eqn:E; [|done].
  destruct (decide (Comment.ID c0 = Comment.ID c)) as [Heq|Hne].
  - apply (awaiting_head _ _ _ Haw) in Heq as ->.
    destruct Haw as (_ & _ & _ & Hps & Hcs).
    destruct (postgres_comment_row_id now c d) as (Hid & Hpar & _).
    destruct (exec_comment_rejects comment_do_update_depth
                (postgres.comment_row now c d) tx p) as [e He];
      rewrite ?Hid, ?Hpar; try done.
    rewrite E in He. discriminate.
  - apply IH. eapply awaiting_step; [| |exact Haw|exact Hne|exact E]; [done|].
    apply postgres_comment_row_id.
Qed.

End missing_parent.

(** A Reply that is not yet stored and whose declared parent is non-empty,
    not the owning Item, not the Reply itself, not in storage and not in the
    batch: the depth computed for it is 1, by the single saves and by the
    batch resolver, and its row does not pass the foreign keys, so that a
    save that returns has returned an error and left the store as it was. *)
Lemma missing_parent_is_rejected (b : Backend) (s : DB) (now : Z)
    (c : Comment.t) (p : string) :
  parentID_param c = Some p →
  p ≠ Comment.ID c →
  ¬ In p (map CommentRow.id (comments s)) →
  ¬ In (Comment.ID c) (map CommentRow.id (comments s)) →
  (postgres.parent_depth s (parentID_param c) = 1
   ∧ sqlite.flat_depth (parentID_param c) = 1)
  ∧ (∃ e, storage.SaveComment b s now c = (s, Some e))
  ∧ ∀ cs, In c cs → NoDup (map Comment.ID cs) → ¬ In p (map Comment.ID cs) →
      (postgres.batch_parentID c = p → p ≠ "" →
       ∀ fuel tx depthCache,
         cache_sound (postgres.build_commentMap cs) depthCache →
         ∃ depthCache',
           postgres.calculateDepth (2 + fuel) tx (postgres.build_commentMap cs)
             depthCache (Comment.ID c) = Some (1, depthCache'))
      ∧ (∀ fuel r, storage.SaveComments fuel b s now cs = Some r →
           ∃ e, r = (Rollback (BeginTx s), Some e)).
Proof.
  intros Hparent Hself Hp Hc. split; [|split].
  - rewrite Hparent. split; [|done]. unfold postgres.parent_depth, select_depth.
    apply lookup_row_None in Hp. by rewrite Hp.
  - destruct b; simpl.
    + unfold postgres.SaveComment.
      destruct (postgres_comment_row_id now c
                  (postgres.parent_depth s (parentID_param c))) as (Hid & Hpar & _).
      destruct (exec_comment_rejects comment_do_update
                  (postgres.comment_row now c
                     (postgres.parent_depth s (parentID_param c))) s p)
        as [e ->]; rewrite ?Hid, ?Hpar; try done. eauto.
    + unfold sqlite.SaveComment.
      destruct (exec_comment_rejects comment_do_update
                  (sqlite.comment_row now c (sqlite.flat_depth (parentID_param c)))
                  s p) as [e ->]; try done. eauto.
  - intros cs Hin Hnd Hpcs. split.
    + intros Hbatch Hne fuel tx depthCache Hsound.
      pose proof (build_commentMap_NoDup cs c Hnd Hin) as Hlc.
      pose proof (build_commentMap_None cs p Hpcs) as Hlp.
      rewrite Hbatch in Hlc.
      assert (resolves (postgres.build_commentMap cs) p 0) as Hp0.
      { apply resolves_top. intros q [Hq _]. congruence. }
      assert (resolves (postgres.build_commentMap cs) (Comment.ID c) 1) as Hc1.
      { by apply (resolves_nested _ (Comment.ID c) p 0). }
      simpl. destruct (depthCache !! Comment.ID c) as [v|] eqn:Ev.
      { apply Hsound in Ev.
        rewrite (resolves_functional _ _ _ _ Ev Hc1). eauto. }
      rewrite Hlc. simpl. destruct (String.eqb_spec p ""); [done|]. simpl.
      destruct (depthCache !! p) as [v|] eqn:Ev'.
      { apply Hsound in Ev'.
        rewrite (resolves_functional _ _ _ _ Ev' Hp0). eauto. }
      rewrite Hlp. simpl. eauto.
    + assert (awaiting c p (tx_cur (BeginTx s)) cs) as Haw by done.
      assert (cs ≠ []) as Hne by (by intros ->).
      intros fuel r. destruct b; simpl.
      * rewrite SaveComments_nonempty by done.
        destruct (postgres.insert_comments _ _ _ _ _ _) as [[cur|e]|] eqn:E;
          [|intros [= <-]; eauto|done].
        by destruct (postgres_insert_rejects c p Hparent Hself _ _ _ _ _ _ cur Haw E).
      * intros [= <-]. unfold sqlite.SaveComments.
        destruct cs as [|c0 cs0]; [done|].
        destruct (sqlite_insert_rejects c p Hparent Hself now _ _ Haw) as [e ->].
        eauto.
Qed.

(** C2. The fallback for a parent that is not found does not go through.
    The reply [c3] names the parent [c2], which is neither the post nor
    stored nor in the batch. Both backends compute the fallback depth (1)
    and run the INSERT with [parent_id = c2]; the foreign key of
    [comments.parent_id] rejects the row: SaveComment returns the
    [save_comment] error, SaveComments the [insert_comment] error after its
    rollback, and no comment is stored. *)
Theorem C2_missing_parent_fails_the_save (b : Backend) :
  let s := fixtures.with_post b in
  map PostRow.id (posts s) = ["depthtest"]
  ∧ comments s = []
  ∧ postID_param fixtures.c3 = "depthtest"
  ∧ parentID_param fixtures.c3 = Some "c2"
  ∧ postgres.parent_depth s (parentID_param fixtures.c3) = 1
  ∧ sqlite.flat_depth (parentID_param fixtures.c3) = 1
  ∧ (∀ fuel tx,
       fst <$> postgres.calculateDepth (2 + fuel) tx
                 (postgres.build_commentMap [fixtures.c3]) ∅ "c3" = Some 1)
  ∧ storage.SaveComment b s 11 fixtures.c3
    = (s, Some {| Op := "save_comment"; Err := ForeignKey "comments_parent_fkey" |})
  ∧ (∀ fuel,
       storage.SaveComments (2 + fuel) b s 11 [fixtures.c3]
       = Some (Rollback (BeginTx s),
               Some {| Op := "insert_comment";
                       Err := ForeignKey "comments_parent_fkey" |}))
  ∧ comments (Rollback (BeginTx s)) = [].
Proof.
  cbv zeta. destruct b; repeat split; intros; reflexivity.
Qed.

(** ** C9: what the construction of the runner refuses *)

#[local] Instance by_version_total : Total schema.by_version.
Proof. intros a b. unfold schema.by_version. lia. Qed.

Lemma read_entries_ok entries acc :
  (∀ e, In e (migration_files entries) →
        schema.scan_version (schema.entry_Name e) ≠ None) →
  schema.read_entries entries acc =
    inl (acc ++ omap definition_of (migration_files entries))%list.
Proof.
  revert acc. induction entries as [|e entries IH]; intros acc Hall; simpl.
  - by rewrite app_nil_r.
  - unfold migration_files in *. simpl in *.
    destruct (schema.entry_IsDir e); simpl in *; [by apply IH|].
    destruct (schema.HasSuffix _ _); simpl in *; [|by apply IH].
    destruct (schema.scan_version (schema.entry_Name e)) as [v|] eqn:Ev.
    + rewrite IH by (intros; apply Hall; by right).
      unfold definition_of at 2. rewrite Ev. simpl. by rewrite <- app_assoc.
    + by destruct (Hall e (or_introl eq_refl)).
Qed.

Lemma read_entries_error entries acc :
  (∃ e, In e (migration_files entries)
        ∧ schema.scan_version (schema.entry_Name e) = None) →
  ∃ name, schema.read_entries entries acc = inr (schema.InvalidFilename name).
Proof.
  revert acc. induction entries as [|e entries IH]; intros acc [e0 [Hin Hbad]];
    simpl; [done|].
  unfold migration_files in *. simpl in *.
  destruct (schema.entry_IsDir e); simpl in *; [apply IH; eauto|].
  destruct (schema.HasSuffix _ _); simpl in *; [|apply IH; eauto].
  destruct (schema.scan_version (schema.entry_Name e)) as [v|] eqn:Ev; [|eauto].
  destruct Hin as [->|Hin]; [congruence|]. apply IH. eauto.
Qed.

Lemma all_scan_dec entries :
  (∀ e, In e (migration_files entries) →
        schema.scan_version (schema.entry_Name e) ≠ None)
  ∨ (∃ e, In e (migration_files entries)
          ∧ schema.scan_version (schema.entry_Name e) = None).
Proof.
  induction (migration_files entries) as [|e l [IH|[e0 [Hin Hbad]]]].
  - left. by intros e [].
  - destruct (schema.scan_version (schema.entry_Name e)) as [v|] eqn:Ev.
    + left. intros e' [<-|Hin]; [congruence|auto].
    + right. exists e. split; [by left|done].
  - right. exists e0. split; [by right|done].
Qed.

(** C9 (as the code has it). NewMigrationRunner fails only for a dialect
    that is neither postgres nor sqlite, or for a migration file whose name
    does not start with an integer followed by an underscore. Nothing looks
    at duplicate or unordered versions: when every name scans, the runner is
    built and holds the definition of every file, sorted by version. *)
Theorem C9_construction_checks_names_only (fs : schema.EmbedFS) (dbType : string) :
  match dialect_entries fs dbType with
  | None =>
      schema.NewMigrationRunner fs dbType = inr (schema.UnsupportedDatabase dbType)
  | Some entries =>
      ((∀ e, In e (migration_files entries) →
             schema.scan_version (schema.entry_Name e) ≠ None) →
       ∃ mr, schema.NewMigrationRunner fs dbType = inl mr
             ∧ Sorted schema.by_version (schema.migrations mr)
             ∧ schema.migrations mr ≡ₚ omap definition_of (migration_files entries))
      ∧ ((∃ e, In e (migration_files entries)
               ∧ schema.scan_version (schema.entry_Name e) = None) →
         ∃ name, schema.NewMigrationRunner fs dbType
                 = inr (schema.InvalidFilename name))
  end.
Proof.
  unfold schema.NewMigrationRunner, schema.loadMigrations, dialect_entries.
  destruct (if String.eqb dbType "postgres" then Some (schema.postgresFS fs)
            else if String.eqb dbType "sqlite" then Some (schema.sqliteFS fs)
            else None) as [entries|]; [|done].
  split.
  - intros Hall. rewrite (read_entries_ok entries [] Hall). simpl.
    eexists. split; [done|]. simpl. split.
    + apply Sorted_merge_sort. apply _.
    + apply merge_sort_Permutation.
  - intros Hbad. destruct (read_entries_error entries [] Hbad) as [name ->].
    eauto.
Qed.

(** C9 at the two files of [duplicate_versions]. *)
Lemma C9_construction_checks_names_only_witness :
  (∀ e, In e (migration_files (schema.sqliteFS fixtures.duplicate_versions)) →
        schema.scan_version (schema.entry_Name e) ≠ None)
  ∧ ∃ mr, schema.NewMigrationRunner fixtures.duplicate_versions "sqlite" = inl mr
          ∧ Sorted schema.by_version (schema.migrations mr)
          ∧ schema.migrations mr
            ≡ₚ omap definition_of
                 (migration_files (schema.sqliteFS fixtures.duplicate_versions)).
Proof.
  assert (∀ e, In e (migration_files (schema.sqliteFS fixtures.duplicate_versions)) →
               schema.scan_version (schema.entry_Name e) ≠ None) as H.
  { intros e [<-|[<-|[]]]; vm_compute; discriminate. }
  split; [exact H|].
  exact (proj1 (C9_construction_checks_names_only fixtures.duplicate_versions
                  "sqlite") H).
Defined.

(** C9 as stated fails: two files with version 1 are accepted at
    construction, both kept; so are two files whose names list version 10
    before version 2. *)
Lemma C9_counterexample :
  (∃ a b, schema.NewMigrationRunner fixtures.duplicate_versions "sqlite"
          = inl {| schema.dbType := "sqlite"; schema.migrations := [a; b] |}
          ∧ schema.Version a = 1 ∧ schema.Version b = 1
          ∧ schema.Name a ≠ schema.Name b)
  ∧ map schema.Version
      (omap definition_of (schema.sqliteFS fixtures.unordered_versions))
    = [10; 2]
  ∧ (∃ mr, schema.NewMigrationRunner fixtures.unordered_versions "sqlite" = inl mr
           ∧ map schema.Version (schema.migrations mr) = [2; 10]).
Proof.
  split; [|split].
  - do 2 eexists. split; [vm_compute; reflexivity|]. by repeat split.
  - reflexivity.
  - eexists. split; vm_compute; reflexivity.
Qed.

(** ** The migration runner *)

Section runner_facts.
Context {Objects : Type} (exec_sql : string → Objects → option Objects).
Implicit Types (db : schema.DB (Objects := Objects)) (m : schema.Migration).

Lemma run_scripts_cons m ms (o : Objects) :
  run_scripts exec_sql (m :: ms) o =
    exec_sql (schema.SQL m) o ≫= run_scripts exec_sql ms.
Proof.
  unfold run_scripts. simpl. destruct (exec_sql (schema.SQL m) o); simpl; [done|].
  induction ms; simpl; auto.
Qed.

(** runMigration is atomic: it commits the effect of the script together
    with the ledger record, or leaves objects and ledger as they were. *)
Lemma runMigration_atomic now db m :
  let r := schema.runMigration exec_sql now db m in
  schema.tx_begun (fst r) = S (schema.tx_begun db)
  ∧ match snd r with
    | None =>
        exec_sql (schema.SQL m) (schema.objects db) = Some (schema.objects (fst r))
        ∧ schema.schema_version (fst r)
          = Some (schema.ledger db ++ [ledger_row now m])%list
        ∧ ¬ In (schema.Version m) (map schema.version (schema.ledger db))
    | Some e =>
        schema.objects (fst r) = schema.objects db
        ∧ schema.schema_version (fst r) = schema.schema_version db
        ∧ match e with
          | schema.ExecuteSQL => exec_sql (schema.SQL m) (schema.objects db) = None
          | schema.RecordMigration _ =>
              exec_sql (schema.SQL m) (schema.objects db) ≠ None
              ∧ In (schema.Version m) (map schema.version (schema.ledger db))
          end
    end.
Proof.
  unfold schema.runMigration. simpl.
  destruct (exec_sql (schema.SQL m) (schema.objects db)) as [objs|] eqn:E;
    simpl; [|done].
  unfold schema.ledger. simpl. case_bool_decide as Hin; simpl.
  - split; [done|]. repeat split; [done|]. by apply list_elem_of_In.
  - split; [done|]. repeat split. by rewrite <- list_elem_of_In.
Qed.

Lemma runMigration_outcome now db db1 m :
  schema.objects db1 = schema.objects db →
  schema.schema_version db1 = schema.schema_version db →
  snd (schema.runMigration exec_sql now db1 m)
  = snd (schema.runMigration exec_sql now db m).
Proof.
  intros Ho Hs. unfold schema.runMigration, schema.ledger. simpl.
  rewrite Ho, Hs. destruct (exec_sql _ _); [|done]. by case_bool_decide.
Qed.

Lemma pending_subset cur ms m : In m (pending cur ms) → In m ms.
Proof. unfold pending. rewrite filter_In. tauto. Qed.

#[local] Arguments schema.runMigration : simpl never.

(** The loop of Run from any state whose ledger exists. *)
Lemma run_pending_spec now cur ms :
  StronglySorted schema.by_version ms →
  ∀ db l db' res,
    schema.schema_version db = Some l →
    schema.run_pending exec_sql now cur db ms = (db', res) →
    ∃ done rest,
      pending cur ms = (done ++ rest)%list
      ∧ run_scripts exec_sql done (schema.objects db) = Some (schema.objects db')
      ∧ schema.schema_version db' = Some (l ++ map (ledger_row now) done)%list
      ∧ StronglySorted Z.lt (map schema.Version done)
      ∧ Forall (λ m, ¬ In (schema.Version m) (map schema.version l)) done
      ∧ match res with
        | None =>
            rest = [] ∧ schema.tx_begun db' = (schema.tx_begun db + length done)%nat
        | Some e =>
            ∃ m rest', rest = m :: rest'
              ∧ schema.failed_migration e = schema.Name m
              ∧ schema.tx_begun db' = (schema.tx_begun db + length done + 1)%nat
              ∧ snd (schema.runMigration exec_sql now db' m) = Some (schema.cause e)
        end.
Proof.
  induction 1 as [|m ms Hsorted IH Hm]; intros db l db' res Hl; simpl.
  - intros [= <- <-]. exists [], []. simpl. rewrite app_nil_r.
    repeat split; auto using SSorted_nil; lia.
  - destruct (Z.leb_spec (schema.Version m) cur) as [Hle|Hlt]; simpl.
    { intros Hrun. apply (IH _ _ _ _ Hl Hrun). }
    pose proof (runMigration_atomic now db m) as [Htx Hatomic].
    destruct (schema.runMigration exec_sql now db m) as [db1 [err|]] eqn:Erun.
    + intros [= <- <-]. exists [], (m :: pending cur ms).
      destruct Hatomic as (Hobj & Hsv & Hcause). cbn [fst snd] in *.
      rewrite Hobj, Hsv. simpl. rewrite app_nil_r.
      repeat split; auto using SSorted_nil.
      exists m, (pending cur ms). repeat split; [simpl; lia|].
      rewrite (runMigration_outcome now db db1 m Hobj Hsv), Erun. done.
    + intros Hrun. destruct Hatomic as (Hexec & Hsv & Hfresh).
      cbn [fst snd] in *.
      unfold schema.ledger in Hsv, Hfresh. rewrite Hl in Hsv, Hfresh.
      simpl in Hsv, Hfresh.
      destruct (IH _ _ _ _ Hsv Hrun)
        as (done & rest & Hpend & Hscripts & Hsv' & Hlt' & Hnew & Hres).
      exists (m :: done), rest.
      rewrite Hpend. split; [done|].
      rewrite run_scripts_cons, Hexec. simpl. split; [done|].
      rewrite Hsv', <- app_assoc. simpl. split; [done|].
      assert (Forall (λ m', schema.Version m < schema.Version m') done) as Hgt.
      { apply Forall_forall. intros m' Hm'.
        rewrite Forall_forall in Hnew.
        assert (schema.Version m' ≠ schema.Version m) as Hne.
        { intros Heq. apply (Hnew m'); [done|].
          rewrite map_app, in_app_iff. right. left. by rewrite Heq. }
        rewrite Forall_forall in Hm.
        assert (schema.by_version m m') as Hle'.
        { apply Hm. apply list_elem_of_In, (pending_subset cur).
          rewrite Hpend. apply in_or_app. left. by apply list_elem_of_In. }
        unfold schema.by_version in Hle'. lia. }
      split; [|split].
      * apply SSorted_cons; [done|]. by apply Forall_fmap.
      * apply Forall_cons. split; [done|].
        eapply Forall_impl; [exact Hnew|]. simpl. intros m' Hm' Hin.
        apply Hm'. rewrite map_app, in_app_iff. by left.
      * destruct res as [e|].
        -- destruct Hres as (m0 & rest' & -> & Hname & Htx' & Hfail).
           exists m0, rest'. repeat split; [done| |done]. simpl. lia.
        -- destruct Hres as [-> Htx']. split; [done|]. simpl. lia.
Qed.

(** What a ledger maximum is. *)
Lemma getCurrentVersion_spec db :
  let versions := map schema.version (schema.ledger db) in
  (versions = [] ∧ schema.getCurrentVersion db = 0)
  ∨ (In (schema.getCurrentVersion db) versions
     ∧ ∀ v, In v versions → v ≤ schema.getCurrentVersion db).
Proof.
  unfold schema.getCurrentVersion. destruct (schema.ledger db) as [|r rs]; simpl;
    [by left|right].
  generalize (schema.version r). induction (map schema.version rs) as [|w ws IH];
    intros v; simpl.
  - split; [by left|]. intros ? [->|[]]. lia.
  - destruct (IH (v `max` w)) as [Hin Hmax]. split.
    + destruct Hin as [Hin|Hin]; [|by right; right].
      destruct (Z.max_spec v w) as [[_ Hvw]|[_ Hvw]]; rewrite <- Hin, Hvw; auto.
    + intros x [->|[->|Hx]].
      * specialize (Hmax (x `max` w) (or_introl eq_refl)). lia.
      * specialize (Hmax (v `max` x) (or_introl eq_refl)). lia.
      * apply Hmax. by right.
Qed.

Lemma run_pending_skips now cur db ms :
  (∀ m, In m ms → schema.Version m ≤ cur) →
  schema.run_pending exec_sql now cur db ms = (db, None).
Proof.
  induction ms as [|m ms IH]; intros Hall; simpl; [done|].
  destruct (Z.leb_spec (schema.Version m) cur) as [_|Hlt].
  - apply IH. intros. apply Hall. by right.
  - specialize (Hall m (or_introl eq_refl)). lia.
Qed.

(** The ledger only grows, by records above the maximum the run started
    from; after a run without error every migration is at or below that
    maximum or recorded. *)
Lemma run_pending_ledger now cur ms :
  ∀ db l db' res,
    schema.schema_version db = Some l →
    schema.run_pending exec_sql now cur db ms = (db', res) →
    ∃ added,
      schema.schema_version db' = Some (l ++ added)%list
      ∧ Forall (λ r, cur < schema.version r) added
      ∧ (res = None →
         ∀ m, In m ms →
           schema.Version m ≤ cur
           ∨ In (schema.Version m) (map schema.version added)).
Proof.
  induction ms as [|m ms IH]; intros db l db' res Hl; simpl.
  - intros [= <- <-]. exists []. rewrite app_nil_r. by repeat split.
  - destruct (Z.leb_spec (schema.Version m) cur) as [Hle|Hlt].
    + intros Hrun. destruct (IH _ _ _ _ Hl Hrun) as (added & Hsv & Hgt & Hall).
      exists added. repeat split; [done|done|].
      intros -> m' [<-|Hin]; [by left|by apply Hall].
    + pose proof (runMigration_atomic now db m) as [_ Hatomic].
      destruct (schema.runMigration exec_sql now db m) as [db1 [err|]] eqn:Erun;
        cbn [fst snd] in Hatomic.
      * intros [= <- <-]. exists []. rewrite app_nil_r.
        destruct Hatomic as (_ & -> & _). by repeat split.
      * intros Hrun. destruct Hatomic as (_ & Hsv & _).
        unfold schema.ledger in Hsv. rewrite Hl in Hsv. simpl in Hsv.
        destruct (IH _ _ _ _ Hsv Hrun) as (added & Hsv' & Hgt & Hall).
        exists (ledger_row now m :: added).
        rewrite Hsv', <- app_assoc. repeat split; [|].
        -- by apply Forall_cons.
        -- intros -> m' [<-|Hin]; [right; by left|].
           destruct (Hall eq_refl m' Hin); [by left|right; by right].
Qed.

End runner_facts.

#[local] Instance by_version_transitive : Transitive schema.by_version.
Proof. intros a b c. unfold schema.by_version. lia. Qed.

(** ** C8: order, atomicity and the first failure *)

(** C8. Run applies the pending migrations (those above the ledger maximum)
    in strictly ascending version order, up to the first one that fails:
    [done] is what it committed, each script with its ledger record in one
    transaction; on a failure the error names the first migration not
    committed, objects and ledger are those left by [done], and no
    transaction was begun for a later migration. *)
Theorem C8_run_applies_in_order {Objects : Type}
    (exec_sql : string → Objects → option Objects)
    (mr : schema.MigrationRunner) (now : Z) (db db' : schema.DB)
    (res : option schema.RunError) :
  Sorted schema.by_version (schema.migrations mr) →
  schema.Run exec_sql mr now db = (db', res) →
  (∃ done rest,
     pending (schema.getCurrentVersion (schema.createSchemaVersionTable db))
       (schema.migrations mr) = (done ++ rest)%list
     ∧ run_scripts exec_sql done (schema.objects db) = Some (schema.objects db')
     ∧ schema.schema_version db'
       = Some (schema.ledger db ++ map (ledger_row now) done)%list
     ∧ StronglySorted Z.lt (map schema.Version done)
     ∧ match res with
       | None =>
           rest = []
           ∧ schema.tx_begun db' = (schema.tx_begun db + length done)%nat
       | Some e =>
           ∃ m rest', rest = m :: rest'
             ∧ schema.failed_migration e = schema.Name m
             ∧ schema.tx_begun db' = (schema.tx_begun db + length done + 1)%nat
             ∧ snd (schema.runMigration exec_sql now db' m) = Some (schema.cause e)
       end)
  ∧ (∀ d m,
       let r := schema.runMigration exec_sql now d m in
       match snd r with
       | None =>
           exec_sql (schema.SQL m) (schema.objects d) = Some (schema.objects (fst r))
           ∧ schema.schema_version (fst r)
             = Some (schema.ledger d ++ [ledger_row now m])%list
       | Some _ =>
           schema.objects (fst r) = schema.objects d
           ∧ schema.schema_version (fst r) = schema.schema_version d
       end).
Proof.
  intros Hsorted Hrun. split.
  - unfold schema.Run in Hrun.
    apply Sorted_StronglySorted in Hsorted; [|apply _].
    destruct (run_pending_spec exec_sql now _ _ Hsorted
                (schema.createSchemaVersionTable db) (schema.ledger db) _ _
                eq_refl Hrun)
      as (done & rest & Hpend & Hscripts & Hsv & Hlt & _ & Hres).
    exists done, rest. by repeat split.
  - intros d m. pose proof (runMigration_atomic exec_sql now d m) as [_ H].
    simpl. destruct (snd (schema.runMigration exec_sql now d m)); tauto.
Qed.

(** C8 at three migrations whose second script fails, on a fresh database. *)
Lemma C8_run_applies_in_order_witness :
  Sorted schema.by_version (schema.migrations fixtures.three_migrations)
  ∧ ∃ db' e,
      schema.Run fixtures.exec_sql fixtures.three_migrations 7 fixtures.fresh
      = (db', Some e)
      ∧ schema.failed_migration e = "002_indexes.sql"
      ∧ schema.objects db' = ["A"]
      ∧ map schema.version (schema.ledger db') = [1]
      ∧ ∃ done rest,
          pending 0 (schema.migrations fixtures.three_migrations)
          = (done ++ rest)%list
          ∧ run_scripts fixtures.exec_sql done (schema.objects fixtures.fresh)
            = Some (schema.objects db').
Proof.
  assert (Sorted schema.by_version (schema.migrations fixtures.three_migrations))
    as Hs.
  { repeat constructor; unfold schema.by_version; simpl; lia. }
  split; [exact Hs|]. do 2 eexists. split; [reflexivity|].
  repeat split.
  destruct (proj1 (C8_run_applies_in_order fixtures.exec_sql
                     fixtures.three_migrations 7 fixtures.fresh _ _ Hs eq_refl))
    as (done & rest & Hpend & Hscripts & _).
  exists done, rest. split; [exact Hpend|exact Hscripts].
Defined.

(** ** C7: running the migrations again *)

Lemma createSchemaVersionTable_keeps {Objects : Type} (db : schema.DB (Objects := Objects)) :
  schema.ledger (schema.createSchemaVersionTable db) = schema.ledger db
  ∧ schema.objects (schema.createSchemaVersionTable db) = schema.objects db
  ∧ schema.tx_begun (schema.createSchemaVersionTable db) = schema.tx_begun db
  ∧ (schema.schema_version db ≠ None → schema.createSchemaVersionTable db = db).
Proof.
  repeat split. destruct db as [o [l|] n]; [done|]. by intros [].
Qed.

(** C7. Once every known migration is recorded in the ledger, Run applies
    nothing: it returns nil, objects and ledger are unchanged and no
    transaction is begun (the ledger table is created when it is missing,
    which can only be with no migration known). In particular a Run right
    after a Run that returned nil changes nothing at all. *)
Theorem C7_run_is_idempotent {Objects : Type}
    (exec_sql : string → Objects → option Objects)
    (mr : schema.MigrationRunner) (now : Z) (db : schema.DB) :
  ((∀ m, In m (schema.migrations mr) →
         In (schema.Version m) (map schema.version (schema.ledger db))) →
   schema.Run exec_sql mr now db = (schema.createSchemaVersionTable db, None)
   ∧ schema.ledger (schema.createSchemaVersionTable db) = schema.ledger db
   ∧ schema.objects (schema.createSchemaVersionTable db) = schema.objects db
   ∧ schema.tx_begun (schema.createSchemaVersionTable db) = schema.tx_begun db
   ∧ (schema.schema_version db ≠ None →
      schema.Run exec_sql mr now db = (db, None)))
  ∧ (∀ db1 now',
       schema.Run exec_sql mr now db = (db1, None) →
       schema.Run exec_sql mr now' db1 = (db1, None)).
Proof.
  split.
  - intros Hall.
    destruct (createSchemaVersionTable_keeps db) as (Hl & Ho & Ht & Hsame).
    assert (schema.Run exec_sql mr now db
            = (schema.createSchemaVersionTable db, None)) as Hrun.
    { unfold schema.Run. apply run_pending_skips. intros m Hm.
      destruct (getCurrentVersion_spec (schema.createSchemaVersionTable db))
        as [[Hnil _]|[_ Hmax]].
      - specialize (Hall m Hm). rewrite Hl, Hnil in *. by destruct Hall.
      - apply Hmax. rewrite Hl. by apply Hall. }
    repeat split; try done. intros Hsome. by rewrite Hrun, Hsame.
  - intros db1 now' Hrun. unfold schema.Run in Hrun.
    destruct (run_pending_ledger exec_sql now _ _
                (schema.createSchemaVersionTable db) (schema.ledger db) _ _
                eq_refl Hrun) as (added & Hsv & Hgt & Hall).
    specialize (Hall eq_refl).
    assert (schema.createSchemaVersionTable db1 = db1) as Hsame.
    { apply createSchemaVersionTable_keeps. by rewrite Hsv. }
    unfold schema.Run. rewrite Hsame. apply run_pending_skips. intros m Hm.
    assert (schema.ledger db1 = (schema.ledger db ++ added)%list) as Hl1.
    { unfold schema.ledger at 1. by rewrite Hsv. }
    pose proof (getCurrentVersion_spec db1) as Hcur1.
    pose proof (getCurrentVersion_spec (schema.createSchemaVersionTable db))
      as Hcur0.
    destruct (createSchemaVersionTable_keeps db) as (Hl & _).
    rewrite Hl in Hcur0. rewrite Hl1, map_app in Hcur1. simpl in Hcur0, Hcur1.
    rewrite Forall_forall in Hgt.
    assert (schema.getCurrentVersion (schema.createSchemaVersionTable db)
            ≤ schema.getCurrentVersion db1) as Hmono.
    { destruct Hcur1 as [[Hnil ->]|[_ Hmax1]].
      - apply app_eq_nil in Hnil as [Hnil _].
        destruct Hcur0 as [[_ ->]|[Hin _]]; [done|]. rewrite Hnil in Hin.
        by destruct Hin.
      - destruct Hcur0 as [[Hnil Hzero]|[Hin _]].
        + destruct added as [|r added'].
          * rewrite Hnil in Hmax1. simpl in Hmax1.
            destruct (getCurrentVersion_spec db1) as [[_ ->]|[Hin1 _]]; [lia|].
            rewrite Hl1, map_app, Hnil in Hin1. by destruct Hin1.
          * specialize (Hgt r ltac:(by left)).
            specialize (Hmax1 (schema.version r)).
            rewrite in_app_iff in Hmax1. simpl in Hmax1.
            specialize (Hmax1 ltac:(right; by left)). lia.
        + apply Hmax1. rewrite in_app_iff. by left. }
    destruct (Hall m Hm) as [Hle|Hin]; [lia|].
    destruct Hcur1 as [[Hnil _]|[_ Hmax1]].
    + apply app_eq_nil in Hnil as [_ Hnil]. rewrite Hnil in Hin. by destruct Hin.
    + apply Hmax1. rewrite in_app_iff. by right.
Qed.

(** C7 at the two migrations of the fixtures, run twice on a fresh
    database. *)
Lemma C7_run_is_idempotent_witness :
  let db1 := fst (schema.Run fixtures.exec_sql fixtures.two_migrations 7
                    fixtures.fresh) in
  (∀ m, In m (schema.migrations fixtures.two_migrations) →
        In (schema.Version m) (map schema.version (schema.ledger db1)))
  ∧ schema.objects db1 = ["A"; "B"]
  ∧ schema.Run fixtures.exec_sql fixtures.two_migrations 8 db1 = (db1, None).
Proof.
  set (db1 := fst (schema.Run fixtures.exec_sql fixtures.two_migrations 7
                     fixtures.fresh)).
  assert (∀ m, In m (schema.migrations fixtures.two_migrations) →
               In (schema.Version m) (map schema.version (schema.ledger db1)))
    as Hall.
  { intros m [<-|[<-|[]]]; vm_compute; tauto. }
  split; [exact Hall|]. split; [reflexivity|].
  apply (proj1 (C7_run_is_idempotent fixtures.exec_sql fixtures.two_migrations
                  8 db1) Hall).
  discriminate.
Defined.

(** ** C6: upserts *)













Lemma postgres_comment_row_frozen f now c d :
  (∀ old new, frozen_comment (f old new) = frozen_comment old) →
  ∀ old, frozen_comment (f old (postgres.comment_row now c d)) = frozen_comment old.
Proof. auto. Qed.





Lemma exec_post_rows f row s s' :
  exec_post f row s = inl s' →
  posts s' = upsert PostRow.id f row (posts s).
Proof.
  unfold exec_post. destruct (has_row _ _ _); [by intros [= <-]|].
  destruct (post_fk s row); [discriminate|]. by intros [= <-].
Qed.

Lemma exec_comment_rows f row s s' :
  exec_comment f row s = inl s' →
  comments s' = upsert CommentRow.id f row (comments s).
Proof.
  unfold exec_comment. destruct (has_row _ _ _); [by intros [= <-]|].
  destruct (comment_fk s row); [discriminate|]. by intros [= <-].
Qed.








(** *** The second loop of SavePosts *)





(** *** The loops of SaveComments *)








(** *** The saves, one by one *)









(** ** The thread query *)

Section thread.
Context {K : Type}.
Context (root_path : CommentRow.t → K) (append_path : K → CommentRow.t → K).
Context (path_le : K → K → bool).
Context (cs : list CommentRow.t) (postID : string).
Context (Hpk : NoDup (map CommentRow.id cs)).

#[local] Abbreviation row_at := (tree_row root_path append_path cs postID).
#[local] Abbreviation idf := (λ x : CommentRow.t * K, CommentRow.id (fst x)).

Lemma same_id c c' :
  In c cs → In c' cs → CommentRow.id c = CommentRow.id c' → c = c'.
Proof.
  clear postID. induction cs as [|x l IH]; [done|]. simpl in Hpk.
  apply NoDup_cons in Hpk as [Hx Hl]. rewrite list_elem_of_In in Hx.
  intros [->|Hc] [->|Hc'] Heq; [done| | |by apply IH].
  - destruct Hx. rewrite Heq. by apply in_map.
  - destruct Hx. rewrite <- Heq. by apply in_map.
Qed.

Lemma row_at_In k x : row_at k x → In (fst x) cs.
Proof. by destruct 1. Qed.

Lemma anchor_spec x : In x (anchor root_path cs postID) ↔ row_at 0 x.
Proof.
  unfold anchor. rewrite in_map_iff. split.
  - intros (c & <- & Hc). apply filter_In in Hc as [Hin Hc].
    apply andb_true_iff in Hc as [Hp Hn].
    apply String.eqb_eq in Hp. apply bool_decide_eq_true in Hn.
    by constructor.
  - inversion 1 as [c Hin Hp Hn|]; subst. exists c. split; [done|].
    apply filter_In. split; [done|]. rewrite Hn. simpl.
    by rewrite String.eqb_refl.
Qed.

Lemma nested_spec k ct :
  (∀ x, In x ct ↔ row_at k x) →
  ∀ x, In x (nested append_path cs ct) ↔ row_at (S k) x.
Proof.
  intros Hct x. unfold nested. rewrite in_flat_map. split.
  - intros (c & Hc & Hx). apply in_map_iff in Hx as (r & <- & Hr).
    apply filter_In in Hr as [Hr Hp]. apply bool_decide_eq_true in Hp.
    apply Hct in Hr. destruct r as [q path]. by econstructor.
  - inversion 1 as [|? c q path Hc Hq Hp]; subst. exists c. split; [done|].
    apply in_map_iff. exists (q, path). split; [done|].
    apply filter_In. split; [by apply Hct|]. by apply bool_decide_eq_true.
Qed.

(** A row at a level has an ancestor row at every level above it. *)
Lemma row_at_above j x : row_at j x → ∀ k, (k ≤ j)%nat → ∃ y, row_at k y.
Proof.
  induction 1 as [c Hc Hp Hn|j c q path Hc Hq IH Hp]; intros k Hk.
  - assert (k = 0)%nat as -> by lia. eexists. by constructor.
  - destruct (decide (k = S j)) as [->|Hne].
    + eexists. by econstructor.
    + apply IH. lia.
Qed.

Lemma comment_tree_rounds_spec n :
  ∀ k ct, (∀ x, In x ct ↔ row_at k x) →
  ∀ x, In x (comment_tree_rounds append_path n cs ct)
       ↔ ∃ j, (k ≤ j < k + n)%nat ∧ row_at j x.
Proof.
  induction n as [|n IH]; intros k ct Hct x; simpl.
  - split; [done|]. intros (j & Hj & _). lia.
  - destruct ct as [|r ct'] eqn:Ect.
    + split; [done|]. intros (j & Hj & Hx).
      destruct (row_at_above j x Hx k) as [y Hy]; [lia|].
      by apply Hct in Hy.
    + rewrite <- Ect in *. clear Ect r ct'. rewrite in_app_iff.
      rewrite (IH (S k) _ (nested_spec k ct Hct)). rewrite Hct. split.
      * intros [Hx|(j & Hj & Hx)]; [exists k|exists j]; split; auto; lia.
      * intros (j & Hj & Hx). destruct (decide (j = k)) as [->|Hne]; [by left|].
        right. exists j. split; [lia|done].
Qed.

(** A comment is at one level, with one path. *)
Lemma row_at_unique k x :
  row_at k x → ∀ k' x', row_at k' x' → idf x = idf x' → k = k' ∧ x = x'.
Proof.
  induction 1 as [c Hc Hp Hn|k c q path Hc Hq IH Hp];
    intros k' x' Hx' Hid; simpl in Hid.
  - inversion Hx' as [c' Hc' Hp' Hn'|j c' q' path' Hc' Hq' Hp']; subst;
      simpl in Hid; pose proof (same_id c c' Hc Hc' Hid) as <-; [done|].
    congruence.
  - inversion Hx' as [c' Hc' Hp' Hn'|j c' q' path' Hc' Hq' Hp']; subst;
      simpl in Hid; pose proof (same_id c c' Hc Hc' Hid) as <-; [congruence|].
    assert (CommentRow.id q = CommentRow.id q') as Hq'' by congruence.
    destruct (IH _ _ Hq' Hq'') as [-> [= <- <-]]. done.
Qed.

(** The ids on the way up from a row: as many as its level plus one, all
    different. *)
Lemma row_at_chain k x :
  row_at k x →
  ∃ l, length l = S k ∧ NoDup l
       ∧ ∀ i, In i l → ∃ j y, (j ≤ k)%nat ∧ row_at j y ∧ idf y = i.
Proof.
  induction 1 as [c Hc Hp Hn|k c q path Hc Hq (l & Hlen & Hnd & Hl) Hp].
  - exists [CommentRow.id c]. split; [done|]. split; [apply NoDup_singleton|].
    intros i [<-|[]]. exists 0%nat, (c, root_path c). split; [lia|].
    split; [by constructor|done].
  - exists (CommentRow.id c :: l). split; [simpl; lia|]. split.
    + apply NoDup_cons. split; [|done]. rewrite list_elem_of_In. intros Hin.
      destruct (Hl _ Hin) as (j & y & Hj & Hy & Hid).
      assert (row_at (S k) (c, append_path path c)) as Hx by by econstructor.
      destruct (row_at_unique _ _ Hx _ _ Hy) as [Hk _]; [by rewrite Hid|]. lia.
    + intros i [<-|Hin].
      * exists (S k), (c, append_path path c). split; [lia|].
        split; [by econstructor|done].
      * destruct (Hl _ Hin) as (j & y & Hj & Hy & Hid). exists j, y.
        split; [lia|done].
Qed.

Lemma row_at_level k x : row_at k x → (k < length cs)%nat.
Proof.
  intros Hx. destruct (row_at_chain k x Hx) as (l & Hlen & Hnd & Hl).
  assert (length l ≤ length (map CommentRow.id cs))%nat as Hle.
  { apply NoDup_incl_length; [by apply NoDup_ListNoDup|]. intros i Hi.
    destruct (Hl i Hi) as (j & y & _ & Hy & <-).
    apply in_map. by eapply row_at_In. }
  rewrite length_map in Hle. lia.
Qed.

(** The rows of the recursive query are the rows at all levels: the bound on
    the rounds cuts nothing. *)
Lemma comment_tree_spec x :
  In x (comment_tree root_path append_path cs postID) ↔ ∃ k, row_at k x.
Proof.
  unfold comment_tree.
  rewrite (comment_tree_rounds_spec _ 0 _ anchor_spec). split.
  - intros (j & _ & Hx). eauto.
  - intros (k & Hx). exists k. split; [|done].
    pose proof (row_at_level k x Hx). lia.
Qed.

Lemma row_at_thread k x : row_at k x → in_thread cs postID (fst x).
Proof.
  induction 1 as [c Hc Hp Hn|k c q path Hc Hq IH Hp]; simpl.
  - by apply thread_root.
  - by eapply thread_reply.
Qed.

Lemma thread_row_at c : in_thread cs postID c → ∃ k path, row_at k (c, path).
Proof.
  induction 1 as [c Hc Hp Hn|c q Hc Hq (k & path & IH) Hp].
  - exists 0%nat, (root_path c). by constructor.
  - exists (S k), (append_path path c). by econstructor.
Qed.

(** No comment comes twice out of the recursive query. *)
Lemma filter_one ct v :
  NoDup (map idf ct) →
  (length (List.filter (λ r : CommentRow.t * K, bool_decide (v = Some (idf r))) ct)
   ≤ 1)%nat.
Proof.
  induction ct as [|r ct IH]; simpl; [lia|]. intros Hnd.
  apply NoDup_cons in Hnd as [Hr Hnd]. specialize (IH Hnd).
  case_bool_decide as Hv; simpl; [|done].
  destruct (List.filter _ ct) as [|y l'] eqn:E; [simpl; lia|]. exfalso.
  assert (In y (List.filter
                  (λ r : CommentRow.t * K, bool_decide (v = Some (idf r))) ct))
    as Hy by (rewrite E; by left).
  apply filter_In in Hy as [Hy Hv']. apply bool_decide_eq_true in Hv'.
  apply Hr. apply list_elem_of_In. apply in_map_iff. exists y.
  split; [congruence|done].
Qed.

Lemma nested_ids ct l i :
  In i (map idf (nested append_path l ct)) → In i (map CommentRow.id l).
Proof.
  unfold nested. rewrite !in_map_iff. intros (x & <- & Hx).
  apply in_flat_map in Hx as (c & Hc & Hx).
  apply in_map_iff in Hx as (r & <- & _). by exists c.
Qed.

Lemma nested_NoDup ct l :
  NoDup (map idf ct) → NoDup (map CommentRow.id l) →
  NoDup (map idf (nested append_path l ct)).
Proof.
  intros Hct. induction l as [|c l IH]; simpl; [constructor|].
  intros [Hc Hl]%NoDup_cons. rewrite map_app. apply NoDup_app.
  split; [|split; [|by apply IH]].
  - pose proof (filter_one ct (CommentRow.parent_id c) Hct) as Hone.
    destruct (List.filter _ ct) as [|r [|r' rest]]; simpl in *;
      [constructor|apply NoDup_singleton|lia].
  - intros i Hi%list_elem_of_In Hi'%list_elem_of_In.
    apply nested_ids in Hi'. apply Hc, list_elem_of_In.
    apply in_map_iff in Hi as (x & <- & Hx).
    apply in_map_iff in Hx as (r & <- & _). done.
Qed.

Lemma comment_tree_rounds_NoDup n :
  ∀ k ct, (∀ x, In x ct ↔ row_at k x) → NoDup (map idf ct) →
  NoDup (map idf (comment_tree_rounds append_path n cs ct)).
Proof.
  induction n as [|n IH]; intros k ct Hct Hnd; simpl; [constructor|].
  destruct ct as [|r ct'] eqn:Ect; [constructor|].
  rewrite <- Ect in *. clear Ect r ct'. rewrite map_app. apply NoDup_app.
  split; [done|]. split.
  - intros i Hi%list_elem_of_In Hi'%list_elem_of_In.
    apply in_map_iff in Hi as (x & <- & Hx).
    apply in_map_iff in Hi' as (y & Hid & Hy).
    apply Hct in Hx.
    apply (comment_tree_rounds_spec n (S k) _ (nested_spec k ct Hct)) in Hy
      as (j & Hj & Hy).
    destruct (row_at_unique _ _ Hx _ _ Hy) as [Hk _]; [done|]. lia.
  - apply (IH (S k)); [by apply nested_spec|]. by apply nested_NoDup.
Qed.

Lemma anchor_NoDup : NoDup (map idf (anchor root_path cs postID)).
Proof.
  unfold anchor. rewrite map_map. simpl. clear -Hpk.
  induction cs as [|c l IH]; simpl; [constructor|].
  apply NoDup_cons in Hpk as [Hc Hl].
  destruct (_ && _); simpl; [|by apply IH].
  apply NoDup_cons. split; [|by apply IH].
  rewrite list_elem_of_In in *. intros Hin. apply Hc.
  apply in_map_iff in Hin as (x & <- & Hx). apply filter_In in Hx as [Hx _].
  by apply in_map.
Qed.

Lemma comment_tree_NoDup :
  NoDup (map idf (comment_tree root_path append_path cs postID)).
Proof.
  apply (comment_tree_rounds_NoDup _ 0); [apply anchor_spec|apply anchor_NoDup].
Qed.

(** *** The order of the rows *)

Context (path_total : ∀ a b, path_le a b = true ∨ path_le b a = true).
Context (path_trans :
  ∀ a b c, path_le a b = true → path_le b c = true → path_le a c = true).
Context (path_ext : ∀ path c, path_le (append_path path c) path = false).

#[local] Instance by_path_total : Total (by_path path_le).
Proof. intros x y. apply path_total. Qed.

#[local] Instance by_path_trans : Transitive (by_path path_le).
Proof. intros x y z. apply path_trans. Qed.

#[local] Abbreviation sorted_tree :=
  (merge_sort (by_path path_le) (comment_tree root_path append_path cs postID)).
#[local] Abbreviation rows := (map fst sorted_tree).

Lemma sorted_tree_row x : In x sorted_tree ↔ ∃ k, row_at k x.
Proof.
  rewrite <- comment_tree_spec, <- !list_elem_of_In.
  by rewrite merge_sort_Permutation.
Qed.

Lemma sorted_tree_order i j x y :
  sorted_tree !! i = Some x → sorted_tree !! j = Some y →
  path_le (snd y) (snd x) = false → (i < j)%nat.
Proof.
  intros Hi Hj Hlt.
  pose proof (StronglySorted_merge_sort (by_path path_le)
                (comment_tree root_path append_path cs postID)) as Hs.
  revert i j Hi Hj. induction Hs as [|z l Hs IH Hz]; intros i j Hi Hj;
    [by rewrite lookup_nil in Hi|].
  destruct i as [|i], j as [|j]; simpl in *.
  - injection Hi as ->. injection Hj as ->.
    destruct (path_total (snd y) (snd y)); congruence.
  - lia.
  - injection Hj as ->. rewrite Forall_forall in Hz.
    specialize (Hz x (list_elem_of_lookup_2 _ _ _ Hi)).
    unfold by_path in Hz. congruence.
  - specialize (IH i j Hi Hj). lia.
Qed.

Lemma rows_lookup i c :
  rows !! i = Some c ↔ ∃ path, sorted_tree !! i = Some (c, path).
Proof.
  rewrite list_lookup_fmap. split.
  - destruct (sorted_tree !! i) as [[c' path]|]; [|done]. intros [= <-]. eauto.
  - by intros [path ->].
Qed.

Lemma rows_thread c : In c rows ↔ in_thread cs postID c.
Proof.
  rewrite in_map_iff. split.
  - intros (x & <- & Hx). apply sorted_tree_row in Hx as [k Hx].
    by eapply row_at_thread.
  - intros Hc. apply thread_row_at in Hc as (k & path & Hx).
    exists (c, path). split; [done|]. apply sorted_tree_row. eauto.
Qed.

Lemma rows_NoDup : NoDup (map CommentRow.id rows).
Proof.
  rewrite map_map. apply NoDup_ListNoDup.
  eapply (Permutation_NoDup (l := map idf (comment_tree root_path append_path cs postID)));
    [|apply NoDup_ListNoDup, comment_tree_NoDup].
  apply Permutation_map. symmetry. apply merge_sort_Permutation.
Qed.

(** A reply comes after its parent. *)
Lemma rows_parent_first i c p :
  rows !! i = Some c → CommentRow.parent_id c = Some p →
  ∃ j q, (j < i)%nat ∧ rows !! j = Some q ∧ CommentRow.id q = p
         ∧ reply_to cs c q.
Proof.
  intros [path Hi]%rows_lookup Hp.
  assert (In (c, path) sorted_tree) as Hin
    by (apply list_elem_of_In; by eapply list_elem_of_lookup_2).
  apply sorted_tree_row in Hin as [k Hx].
  inversion Hx as [|k' c' q path' Hc Hq Hpq]; subst; [congruence|].
  assert (In (q, path') sorted_tree) as Hq' by (apply sorted_tree_row; eauto).
  apply list_elem_of_In, list_elem_of_lookup_1 in Hq' as [j Hj].
  exists j, q. split.
  - eapply sorted_tree_order; [exact Hj|exact Hi|]. simpl. apply path_ext.
  - split; [apply rows_lookup; eauto|]. split; [congruence|].
    split; [by eapply (row_at_In k' (q, path'))|done].
Qed.

(** A comment comes before all the replies below it. *)
Lemma rows_before_descendants d a :
  descends cs d a → ∀ i, rows !! i = Some d →
  ∃ j, (j < i)%nat ∧ rows !! j = Some a.
Proof.
  induction 1 as [d a [Ha Hp]|d q a [Hq Hp] _ IH]; intros i Hi.
  - destruct (rows_parent_first i d _ Hi Hp) as (j & q & Hj & Hq & Hid & Hin & _).
    exists j. split; [done|]. by rewrite <- (same_id q a Hin Ha Hid).
  - destruct (rows_parent_first i d _ Hi Hp) as (j & q' & Hj & Hq' & Hid & Hin & _).
    rewrite (same_id q' q Hin Hq Hid) in Hq'.
    destruct (IH j Hq') as (j' & Hj' & Ha). exists j'. split; [lia|done].
Qed.

(** Siblings come by their keys, where the order of the paths of stored
    rows is the order of the last key. *)
Lemma rows_siblings (key : CommentRow.t → Z) :
  (∀ c1 c2, In c1 cs → In c2 cs →
     path_le (root_path c1) (root_path c2) = true → key c1 ≤ key c2) →
  (∀ path c1 c2, In c1 cs → In c2 cs →
     path_le (append_path path c1) (append_path path c2) = true →
     key c1 ≤ key c2) →
  ∀ i j c1 c2,
    (i < j)%nat → rows !! i = Some c1 → rows !! j = Some c2 →
    CommentRow.parent_id c1 = CommentRow.parent_id c2 →
    key c1 ≤ key c2.
Proof.
  intros Hroot Happ i j c1 c2 Hij [p1 Hi]%rows_lookup [p2 Hj]%rows_lookup Hpar.
  assert (path_le p1 p2 = true) as Hle.
  { destruct (path_le p1 p2) eqn:E; [done|].
    pose proof (sorted_tree_order j i _ _ Hj Hi E). lia. }
  assert (∃ k1, row_at k1 (c1, p1)) as [k1 H1].
  { apply sorted_tree_row, list_elem_of_In. by eapply list_elem_of_lookup_2. }
  assert (∃ k2, row_at k2 (c2, p2)) as [k2 H2].
  { apply sorted_tree_row, list_elem_of_In. by eapply list_elem_of_lookup_2. }
  inversion H1 as [? Hc1 Hp1 Hn1|? ? q1 path1 Hc1 Hq1 Hpq1]; subst;
    inversion H2 as [? Hc2 Hp2 Hn2|? ? q2 path2 Hc2 Hq2 Hpq2]; subst;
    try congruence.
  - by apply Hroot.
  - assert (CommentRow.id q1 = CommentRow.id q2) as Hid by congruence.
    destruct (row_at_unique _ _ Hq1 _ _ Hq2 Hid) as [_ [= <- <-]].
    by eapply Happ.
Qed.

Lemma rows_empty :
  (∀ c, In c cs → CommentRow.post_id c ≠ postID) → rows = [].
Proof.
  intros Hnone. destruct rows as [|c l] eqn:E; [done|].
  assert (In c rows) as Hc by (rewrite E; by left).
  apply rows_thread in Hc. exfalso. clear E.
  induction Hc as [c Hc Hp Hn|c q Hc Hq IH Hp]; [|done].
  by apply (Hnone c).
Qed.

End thread.

(** *** The paths of postgres: arrays of timestamps *)

Lemma array_le_total a b :
  postgres.array_le a b = true ∨ postgres.array_le b a = true.
Proof.
  revert b. induction a as [|x a IH]; intros [|y b]; simpl; auto.
  destruct (IH b) as [->| ->]; destruct (Z.ltb_spec x y), (Z.ltb_spec y x),
    (Z.eqb_spec x y), (Z.eqb_spec y x); simpl; auto; lia.
Qed.

Lemma array_le_trans a b c :
  postgres.array_le a b = true → postgres.array_le b c = true →
  postgres.array_le a c = true.
Proof.
  revert b c. induction a as [|x a IH]; intros [|y b] [|z c]; simpl; auto;
    try discriminate.
  intros Hab Hbc.
  destruct (Z.ltb_spec x y), (Z.ltb_spec y z), (Z.ltb_spec x z),
    (Z.eqb_spec x y), (Z.eqb_spec y z), (Z.eqb_spec x z);
    simpl in *; try done; try lia.
  by apply (IH b c).
Qed.

Lemma array_le_ext path c :
  postgres.array_le (postgres.append_path path c) path = false.
Proof.
  unfold postgres.append_path. induction path as [|x path IH]; simpl; [done|].
  rewrite Z.ltb_irrefl, Z.eqb_refl. done.
Qed.

Lemma array_le_root c1 c2 :
  postgres.array_le (postgres.root_path c1) (postgres.root_path c2) = true →
  CommentRow.created_utc c1 ≤ CommentRow.created_utc c2.
Proof.
  unfold postgres.root_path. simpl.
  destruct (Z.ltb_spec (CommentRow.created_utc c1) (CommentRow.created_utc c2)),
    (Z.eqb_spec (CommentRow.created_utc c1) (CommentRow.created_utc c2));
    simpl; try done; lia.
Qed.

Lemma array_le_last path c1 c2 :
  postgres.array_le (postgres.append_path path c1) (postgres.append_path path c2)
  = true →
  CommentRow.created_utc c1 ≤ CommentRow.created_utc c2.
Proof.
  unfold postgres.append_path. induction path as [|x path IH]; simpl.
  - apply array_le_root.
  - by rewrite Z.ltb_irrefl, Z.eqb_refl.
Qed.

(** *** The paths of sqlite: text *)

Lemma ascii_compare_refl a : Ascii.compare a a = Eq.
Proof. unfold Ascii.compare. apply N.compare_refl. Qed.

Lemma string_leb_trans a b c :
  String.leb a b = true → String.leb b c = true → String.leb a c = true.
Proof.
  unfold String.leb.
  revert b c. induction a as [|x a IH]; intros [|y b] [|z c]; simpl; auto;
    try discriminate.
  specialize (IH b c). unfold Ascii.compare.
  destruct (N.compare_spec (N_of_ascii x) (N_of_ascii y)) as [Hxy|Hxy|Hxy],
    (N.compare_spec (N_of_ascii y) (N_of_ascii z)) as [Hyz|Hyz|Hyz],
    (N.compare_spec (N_of_ascii x) (N_of_ascii z)) as [Hxz|Hxz|Hxz];
    try done; try lia.
Qed.

Lemma string_leb_ext path s :
  s ≠ "" → String.leb (path +:+ s) path = false.
Proof.
  intros Hs. unfold String.leb.
  induction path as [|x path IH]; simpl; [by destruct s|].
  by rewrite ascii_compare_refl.
Qed.

Lemma real_text_nonempty t : sqlite.real_text t ≠ "".
Proof.
  unfold sqlite.real_text.
  by destruct (DecimalString.NilZero.string_of_int (Z.to_int t)).
Qed.

Lemma text_path_ext path c :
  String.leb (sqlite.append_path path c) path = false.
Proof. apply string_leb_ext, real_text_nonempty. Qed.

(** *** The text of a whole second *)

Lemma string_of_uint_numeral d :
  NilEmpty.string_of_uint d = numeral (uint_digits d).
Proof. induction d; cbn; by rewrite ?IHd. Qed.

Lemma uint_digits_lt d : Forall (λ k, k < 10)%nat (uint_digits d).
Proof. induction d; cbn; constructor; try done; lia. Qed.

Lemma of_uint_acc_value d acc :
  Z.pos (Pos.of_uint_acc d acc)
  = foldl (λ a k, 10 * a + Z.of_nat k) (Z.pos acc) (uint_digits d).
Proof.
  revert acc. induction d; intros acc; cbn [Pos.of_uint_acc uint_digits foldl];
    rewrite ?IHd; try done; f_equal; lia.
Qed.

Lemma of_uint_value d : Z.of_N (Pos.of_uint d) = numeral_value (uint_digits d).
Proof.
  unfold numeral_value.
  induction d; cbn [Pos.of_uint uint_digits foldl]; try done;
    cbn [Z.of_N]; by rewrite of_uint_acc_value.
Qed.

Lemma to_uint_value p : numeral_value (uint_digits (Pos.to_uint p)) = Z.pos p.
Proof. by rewrite <- of_uint_value, Unsigned.of_to. Qed.

(** The text of a positive whole second: its digits and [.0]. *)
Lemma real_text_pos p :
  sqlite.real_text (Z.pos p) = numeral (uint_digits (Pos.to_uint p)) +:+ ".0".
Proof.
  unfold sqlite.real_text. cbn [Z.to_int NilZero.string_of_int].
  unfold NilZero.string_of_uint.
  pose proof (Unsigned.to_uint_nonnil p).
  destruct (Pos.to_uint p) eqn:E; try done; by rewrite <- string_of_uint_numeral.
Qed.

Lemma nzhead_digits d :
  match uint_digits (Decimal.nzhead d) with 0%nat :: _ => False | _ => True end.
Proof. induction d; cbn; done. Qed.

(** The first digit is not 0. *)
Lemma to_uint_head p :
  ∃ k ds, uint_digits (Pos.to_uint p) = k :: ds ∧ (0 < k)%nat.
Proof.
  pose proof (Unsigned.to_of (Pos.to_uint p)) as H.
  rewrite Unsigned.of_to in H. cbn [N.to_uint] in H.
  pose proof (Unsigned.to_uint_nonzero p) as Hnz.
  pose proof (nzhead_digits (Pos.to_uint p)) as Hh.
  unfold Decimal.unorm in H.
  destruct (Decimal.nzhead (Pos.to_uint p)) eqn:E;
    try (by destruct Hnz); rewrite H in *; cbn in Hh |- *;
    try done; eexists _, _; (split; [done|lia]).
Qed.

Lemma foldl_numeral acc ds :
  Forall (λ k, k < 10)%nat ds →
  foldl (λ a k, 10 * a + Z.of_nat k) acc ds
  = acc * 10 ^ Z.of_nat (length ds) + numeral_value ds
  ∧ 0 ≤ numeral_value ds < 10 ^ Z.of_nat (length ds).
Proof.
  unfold numeral_value. intros Hds. revert acc.
  induction Hds as [|d ds Hd Hds IH]; intros acc.
  - cbn. lia.
  - cbn [foldl length]. rewrite Nat2Z.inj_succ, Z.pow_succ_r by lia.
    destruct (IH (10 * acc + Z.of_nat d)) as [-> Hb].
    destruct (IH (10 * 0 + Z.of_nat d)) as [-> _].
    split; [lia|]. nia.
Qed.

Lemma digit_char_compare a b :
  (a < 10)%nat → (b < 10)%nat →
  Ascii.compare (digit_char a) (digit_char b) = Nat.compare a b.
Proof.
  intros Ha Hb.
  do 10 (destruct a as [|a]; [do 10 (destruct b as [|b]; [reflexivity|]); lia|]).
  lia.
Qed.

(** Numerals of one length come in the order of their values. *)
Lemma numeral_order suf ds1 : ∀ ds2,
  length ds1 = length ds2 →
  Forall (λ k, k < 10)%nat ds1 → Forall (λ k, k < 10)%nat ds2 →
  String.leb (numeral ds1 +:+ suf) (numeral ds2 +:+ suf) = true →
  numeral_value ds1 ≤ numeral_value ds2.
Proof.
  unfold String.leb.
  induction ds1 as [|a ds1 IH]; intros [|b ds2] Hlen H1 H2; try done.
  inversion H1 as [|? ? Ha H1']; inversion H2 as [|? ? Hb H2']; subst.
  injection Hlen as Hlen.
  cbn [numeral foldr]. change (String ?c ?s +:+ suf) with (String c (s +:+ suf)).
  cbn [String.compare]. rewrite (digit_char_compare a b Ha Hb).
  unfold numeral_value. cbn [foldl].
  destruct (foldl_numeral (10 * 0 + Z.of_nat a) ds1 H1') as [-> B1].
  destruct (foldl_numeral (10 * 0 + Z.of_nat b) ds2 H2') as [-> B2].
  rewrite <- Hlen in *.
  destruct (Nat.compare_spec a b) as [->|Hlt|Hgt]; [| |done].
  - intros Hc. specialize (IH ds2 Hlen H1' H2' Hc). lia.
  - intros _. nia.
Qed.

Lemma string_leb_prefix p a b : String.leb (p +:+ a) (p +:+ b) = String.leb a b.
Proof.
  unfold String.leb. induction p as [|c p IH]; [done|].
  change (String c p +:+ ?x) with (String c (p +:+ x)).
  cbn [String.compare]. by rewrite ascii_compare_refl.
Qed.

Lemma ten_digits_length p :
  ten_digits (Z.pos p) → length (uint_digits (Pos.to_uint p)) = 10%nat.
Proof.
  unfold ten_digits. intros Hp. destruct (to_uint_head p) as (k & ds & E & Hk).
  pose proof (to_uint_value p) as Hv.
  pose proof (uint_digits_lt (Pos.to_uint p)) as Hlt.
  rewrite E in *. inversion Hlt as [|? ? Hk' Hds]; subst.
  unfold numeral_value in Hv. cbn [foldl] in Hv.
  destruct (foldl_numeral (10 * 0 + Z.of_nat k) ds Hds) as [Hf B].
  rewrite Hf in Hv. cbn [length].
  assert (Z.of_nat (length ds) = 9) as Hn; [|lia].
  destruct (Z.lt_trichotomy (Z.of_nat (length ds)) 9) as [H|[H|H]]; [|done|].
  - assert (10 ^ Z.of_nat (length ds) ≤ 10 ^ 8) by (apply Z.pow_le_mono_r; lia).
    nia.
  - assert (10 ^ 10 ≤ 10 ^ Z.of_nat (length ds)) by (apply Z.pow_le_mono_r; lia).
    nia.
Qed.

(** Under one prefix, the texts of two Unix times of ten digits come in
    the order of the times. *)
Lemma real_text_order path t1 t2 :
  ten_digits t1 → ten_digits t2 →
  String.leb (path +:+ sqlite.real_text t1) (path +:+ sqlite.real_text t2) = true →
  t1 ≤ t2.
Proof.
  intros H1 H2. rewrite string_leb_prefix.
  destruct t1 as [|p1|p1]; [destruct H1; lia| |destruct H1; lia].
  destruct t2 as [|p2|p2]; [destruct H2; lia| |destruct H2; lia].
  rewrite !real_text_pos. intros Hle.
  rewrite <- (to_uint_value p1), <- (to_uint_value p2).
  apply (numeral_order ".0"); [|apply uint_digits_lt..|done].
  by rewrite !ten_digits_length.
Qed.

(** ** C4: GetCommentsByPost *)

(** C4. sqlite does not return siblings in the order of their creation
    times. The replies [early] and [late] are both top-level replies of the
    post, created at the Unix times 999999999 and 1000000000. sqlite sorts
    by the text of the path, [999999999.0] and [1000000000.0], and returns
    [late] before [early]; postgres, whose path is an array of timestamps,
    returns [early] before [late] from the same batch. *)
Theorem C4_sqlite_sibling_order :
  let batch := [fixtures.early; fixtures.late] in
  let rows s :=
    map (λ r, (CommentRow.id r, CommentRow.parent_id r, CommentRow.created_utc r))
      (comments s) in
  let thread r := map (λ c, (Comment.ID c, Comment.CreatedUTC c)) (fst r) in
  rows (fixtures.with_comments SQLite batch)
  = [("early", None, 999999999); ("late", None, 1000000000)]
  ∧ rows (fixtures.with_comments Postgres batch)
    = [("early", None, 999999999); ("late", None, 1000000000)]
  ∧ map sqlite.root_path (comments (fixtures.with_comments SQLite batch))
    = ["999999999.0"; "1000000000.0"]
  ∧ sqlite.GetCommentsByPost (fixtures.with_comments SQLite batch) "depthtest"
    = ([fixtures.late; fixtures.early], noerr)
  ∧ thread (sqlite.GetCommentsByPost (fixtures.with_comments SQLite batch)
              "depthtest")
    = [("late", 1000000000); ("early", 999999999)]
  ∧ thread (postgres.GetCommentsByPost (fixtures.with_comments Postgres batch)
              "depthtest")
    = [("early", 999999999); ("late", 1000000000)].
Proof. cbv zeta. repeat split; vm_compute; reflexivity. Qed.

(** ** GetCommentsByPost: the thread and its order *)

(** X25. With [id] the primary key of [comments], GetCommentsByPost
    returns without an error, each once, exactly the replies reached
    through parent links from a top-level reply of the post. In the
    sequence a reply comes after its parent, a comment before all its
    descendants, and siblings (same parent, or all top-level) in ascending
    creation time; a post without replies gives the empty sequence. On
    postgres for every store; on sqlite for a store whose creation times are
    Unix times of ten digits, whose texts the query sorts as it sorts the
    times. *)
Theorem GetCommentsByPost_returns_the_thread (b : Backend) (s : DB)
    (postID : string) :
  NoDup (map CommentRow.id (comments s)) →
  (b = SQLite → ∀ c, In c (comments s) → ten_digits (CommentRow.created_utc c)) →
  let rows := storage.thread_rows b s postID in
  snd (storage.GetCommentsByPost b s postID) = noerr
  ∧ map Comment.ID (fst (storage.GetCommentsByPost b s postID))
    = map CommentRow.id rows
  ∧ (∀ c, In c rows ↔ in_thread (comments s) postID c)
  ∧ NoDup (map CommentRow.id rows)
  ∧ (∀ i c p,
       rows !! i = Some c → CommentRow.parent_id c = Some p →
       ∃ j q, (j < i)%nat ∧ rows !! j = Some q ∧ CommentRow.id q = p)
  ∧ (∀ i d a,
       rows !! i = Some d → descends (comments s) d a →
       ∃ j, (j < i)%nat ∧ rows !! j = Some a)
  ∧ (∀ i j c1 c2,
       (i < j)%nat → rows !! i = Some c1 → rows !! j = Some c2 →
       CommentRow.parent_id c1 = CommentRow.parent_id c2 →
       CommentRow.created_utc c1 ≤ CommentRow.created_utc c2)
  ∧ ((∀ c, In c (comments s) → CommentRow.post_id c ≠ postID) →
     storage.GetCommentsByPost b s postID = ([], noerr)).
Proof.
  intros Hpk Hten rows. split; [by destruct b|].
  split.
  { destruct b; cbn [storage.GetCommentsByPost];
      unfold postgres.GetCommentsByPost, sqlite.GetCommentsByPost; cbn [fst];
      rewrite map_map; by apply map_ext. }
  destruct b; unfold rows, storage.thread_rows, query_comments; simpl.
  - split; [apply rows_thread; done|]. split; [by apply rows_NoDup|].
    split.
    { intros i c p Hi Hp.
      destruct (rows_parent_first postgres.root_path postgres.append_path
                  postgres.array_le (comments s) postID Hpk array_le_total
                  array_le_trans array_le_ext i c p Hi Hp)
        as (j & q & Hj & Hq & Hid & _). eauto. }
    split.
    { intros i d a Hi Hd.
      by apply (rows_before_descendants postgres.root_path postgres.append_path
                  postgres.array_le (comments s) postID Hpk array_le_total
                  array_le_trans array_le_ext d a Hd i). }
    split.
    { apply (rows_siblings postgres.root_path postgres.append_path
               postgres.array_le (comments s) postID Hpk array_le_total
               array_le_trans CommentRow.created_utc).
      - intros c1 c2 _ _. apply array_le_root.
      - intros path c1 c2 _ _. apply array_le_last. }
    intros Hnone. unfold postgres.GetCommentsByPost, query_comments.
    by rewrite (rows_empty postgres.root_path postgres.append_path
                  postgres.array_le (comments s) postID Hpk Hnone).
  - split; [apply rows_thread; done|]. split; [by apply rows_NoDup|].
    split.
    { intros i c p Hi Hp.
      destruct (rows_parent_first sqlite.root_path sqlite.append_path
                  String.leb (comments s) postID Hpk String.leb_total
                  string_leb_trans text_path_ext i c p Hi Hp)
        as (j & q & Hj & Hq & Hid & _). eauto. }
    split.
    { intros i d a Hi Hd.
      by apply (rows_before_descendants sqlite.root_path sqlite.append_path
                  String.leb (comments s) postID Hpk String.leb_total
                  string_leb_trans text_path_ext d a Hd i). }
    split.
    { apply (rows_siblings sqlite.root_path sqlite.append_path
               String.leb (comments s) postID Hpk String.leb_total
               string_leb_trans CommentRow.created_utc).
      - intros c1 c2 H1 H2. apply (real_text_order ""); by apply Hten.
      - intros path c1 c2 H1 H2. apply real_text_order; by apply Hten. }
    intros Hnone. unfold sqlite.GetCommentsByPost, query_comments.
    by rewrite (rows_empty sqlite.root_path sqlite.append_path
                  String.leb (comments s) postID Hpk Hnone).
Qed.

(** X25 at the thread of TestCommentDepthCalculation, saved through sqlite
    in one batch: the query returns c1, c2, c3, c4. *)
Lemma GetCommentsByPost_returns_the_thread_witness :
  let s := fixtures.with_comments SQLite
             [fixtures.c1; fixtures.c2; fixtures.c3; fixtures.c4] in
  NoDup (map CommentRow.id (comments s))
  ∧ (∀ c, In c (comments s) → ten_digits (CommentRow.created_utc c))
  ∧ map Comment.ID (fst (storage.GetCommentsByPost SQLite s "depthtest"))
    = ["c1"; "c2"; "c3"; "c4"]
  ∧ map CommentRow.id (storage.thread_rows SQLite s "depthtest")
    = ["c1"; "c2"; "c3"; "c4"]
  ∧ ∀ c, In c (storage.thread_rows SQLite s "depthtest")
         ↔ in_thread (comments s) "depthtest" c.
Proof.
  set (s := fixtures.with_comments SQLite
              [fixtures.c1; fixtures.c2; fixtures.c3; fixtures.c4]).
  assert (NoDup (map CommentRow.id (comments s))) as Hpk.
  { vm_compute. repeat constructor; set_solver. }
  assert (∀ c, In c (comments s) → ten_digits (CommentRow.created_utc c)) as Hten.
  { intros c [<-|[<-|[<-|[<-|[]]]]]; vm_compute; by split. }
  split; [exact Hpk|]. split; [exact Hten|]. split; [reflexivity|].
  destruct (GetCommentsByPost_returns_the_thread SQLite s "depthtest" Hpk
              (λ _, Hten)) as (_ & Hids & Hthread & _).
  split; [by rewrite <- Hids|exact Hthread].
Defined.

(** * Further properties of the storage layer *)

(** ** Subreddits: SaveSubreddit and GetSubreddit *)

Lemma GetSubreddit_SaveSubreddit s now sub name :
  GetSubreddit (fst (SaveSubreddit s now sub)) name =
    if String.eqb (SubredditData.DisplayName sub) name then inl sub
    else GetSubreddit s name.
Proof.
  unfold GetSubreddit, SaveSubreddit. simpl.
  rewrite (lookup_row_upsert SubredditRow.name) by done. simpl.
  destruct (String.eqb (SubredditData.DisplayName sub) name); [|done].
  destruct sub. by destruct (lookup_row _ _ _).
Qed.

(** X1. What SaveSubreddit stores, GetSubreddit gives back: SaveSubreddit
    returns nil, GetSubreddit of the saved name then returns the saved
    display name, title, description and subscriber count, whatever was
    stored under that name before, and every other name reads as before. *)
Theorem SaveSubreddit_then_GetSubreddit (s : DB) (now : Z) (sub : SubredditData.t) :
  let r := SaveSubreddit s now sub in
  snd r = noerr
  ∧ GetSubreddit (fst r) (SubredditData.DisplayName sub) = inl sub
  ∧ ∀ name, name ≠ SubredditData.DisplayName sub →
      GetSubreddit (fst r) name = GetSubreddit s name.
Proof.
  cbv zeta. split; [done|]. split.
  - by rewrite GetSubreddit_SaveSubreddit, String.eqb_refl.
  - intros name Hne. rewrite GetSubreddit_SaveSubreddit.
    by destruct (String.eqb_spec (SubredditData.DisplayName sub) name).
Qed.

(** ** Posts: SavePost, SavePosts and GetPost *)

Lemma SaveSubreddit_blank_kept s now post n :
  GetSubreddit s n = inl (blank_subreddit n) →
  GetSubreddit (fst (SaveSubreddit s now (subreddit_of_post post))) n
  = inl (blank_subreddit n).
Proof.
  intros H. rewrite GetSubreddit_SaveSubreddit. simpl.
  by destruct (String.eqb_spec (Post.Subreddit post) n) as [<-|].
Qed.

(** The first loop of SavePosts leaves a blank row for every subreddit it
    has seen, in the transaction and on the handle. *)
Lemma ensure_subreddits_blank now seen tx batch tx' err :
  ensure_subreddits now seen tx batch = (tx', err) →
  (∀ n, default false (seen !! n) = true →
        GetSubreddit (tx_base tx) n = inl (blank_subreddit n)
        ∧ GetSubreddit (tx_cur tx) n = inl (blank_subreddit n)) →
  err = noerr
  ∧ ∀ n, default false (seen !! n) = true
         ∨ (n ≠ "" ∧ In n (map Post.Subreddit batch)) →
         GetSubreddit (tx_base tx') n = inl (blank_subreddit n)
         ∧ GetSubreddit (tx_cur tx') n = inl (blank_subreddit n).
Proof.
  revert seen tx. induction batch as [|post rest IH]; intros seen tx.
  - intros [= <- <-] Hseen. split; [done|]. intros n [Hn|[_ []]]. auto.
  - cbn [ensure_subreddits].
    destruct (negb (String.eqb (Post.Subreddit post) "")
              && negb (default false (seen !! Post.Subreddit post))) eqn:Hc.
    + cbn [SaveSubreddit snd fst]. intros Hrun Hseen.
      eapply IH in Hrun as [-> Hrun].
      * split; [done|]. intros n Hn. apply Hrun.
        destruct Hn as [Hn|[Hne [<-|Hin]]]; [left|left|by right];
          rewrite lookup_insert; case_decide; done.
      * intros m. rewrite lookup_insert. case_decide as Hm.
        -- subst m. intros _. unfold outside. cbn [tx_base tx_cur].
           pose proof (GetSubreddit_SaveSubreddit (tx_base tx) now
                         (subreddit_of_post post) (Post.Subreddit post)) as H1.
           pose proof (GetSubreddit_SaveSubreddit (tx_cur tx) now
                         (subreddit_of_post post) (Post.Subreddit post)) as H2.
           cbn [SaveSubreddit fst subreddit_of_post SubredditData.DisplayName]
             in H1, H2.
           rewrite String.eqb_refl in H1, H2. done.
        -- intros Hseen'. destruct (Hseen m Hseen') as [Hb Hcur].
           unfold outside. cbn [tx_base tx_cur].
           split; by apply (SaveSubreddit_blank_kept _ now post).
    + intros Hrun Hseen. eapply IH in Hrun as [-> Hrun]; [|exact Hseen].
      split; [done|]. intros n Hn. apply Hrun.
      destruct Hn as [Hn|[Hne [<-|Hin]]]; [by left| |by right].
      left. apply andb_false_iff in Hc as [Hc|Hc].
      * apply negb_false_iff, String.eqb_eq in Hc. done.
      * by apply negb_false_iff in Hc.
Qed.

Lemma GetSubreddit_subreddits s s' name :
  subreddits s' = subreddits s → GetSubreddit s' name = GetSubreddit s name.
Proof. unfold GetSubreddit. by intros ->. Qed.

Lemma exec_post_subreddits f row s s' :
  exec_post f row s = inl s' → subreddits s' = subreddits s.
Proof.
  unfold exec_post. destruct (has_row _ _ _); [by intros [= <-]|].
  destruct (post_fk _ _); [done|]. by intros [= <-].
Qed.

Lemma SavePost_with_blank f s now post :
  Post.Subreddit post ≠ "" →
  GetSubreddit (fst (SavePost_with f s now post)) (Post.Subreddit post)
  = inl (blank_subreddit (Post.Subreddit post)).
Proof.
  intros Hne. unfold SavePost_with.
  destruct (String.eqb_spec (Post.Subreddit post) ""); [done|].
  cbn [negb SaveSubreddit].
  pose proof (GetSubreddit_SaveSubreddit s now (subreddit_of_post post)
                (Post.Subreddit post)) as H.
  cbn [SaveSubreddit fst subreddit_of_post SubredditData.DisplayName] in H.
  rewrite String.eqb_refl in H.
  destruct (exec_post _ _ _) as [s'|e] eqn:E; unfold noerr; cbn [fst];
    [|exact H].
  etrans; [|exact H]. apply GetSubreddit_subreddits.
  by apply exec_post_subreddits in E.
Qed.

Lemma SavePosts_blank s now batch post :
  In post batch → Post.Subreddit post ≠ "" →
  GetSubreddit (fst (SavePosts s now batch)) (Post.Subreddit post)
  = inl (blank_subreddit (Post.Subreddit post)).
Proof.
  intros Hin Hne. unfold SavePosts.
  destruct batch as [|p ps]; [done|].
  destruct (ensure_subreddits now ∅ (BeginTx s) (p :: ps)) as [tx err] eqn:E.
  apply ensure_subreddits_blank in E as [-> Hblank].
  2:{ intros n. by rewrite lookup_empty. }
  destruct (Hblank (Post.Subreddit post)) as [Hbase Hcur].
  { right. split; [done|]. by apply in_map. }
  destruct (insert_posts now (tx_cur tx) (p :: ps)) as [cur|e] eqn:Ei;
    cbn [fst Rollback Commit tx_cur]; [|done].
  apply insert_posts_tables in Ei as [Hs _].
  by rewrite (GetSubreddit_subreddits _ _ _ Hs).
Qed.

(** X3. SavePost and SavePosts reset the subreddit of a post: after either
    call, failed or not, the subreddit a post names (a non-empty name) reads
    back with that name and with an empty title, an empty description and
    no subscribers, whatever SaveSubreddit had stored for it before. *)
Theorem saving_a_post_resets_its_subreddit (b : Backend) (s : DB) (now : Z)
    (post : Post.t) (batch : list Post.t) :
  Post.Subreddit post ≠ "" →
  GetSubreddit (fst (storage.SavePost b s now post)) (Post.Subreddit post)
  = inl (blank_subreddit (Post.Subreddit post))
  ∧ (In post batch →
     GetSubreddit (fst (storage.SavePosts b s now batch)) (Post.Subreddit post)
     = inl (blank_subreddit (Post.Subreddit post))).
Proof.
  intros Hne. split.
  - destruct b; by apply SavePost_with_blank.
  - intros Hin. by apply SavePosts_blank.
Qed.

(** X3 at the subreddit of the fixtures, saved with its title and its
    subscribers before the post is. *)
Lemma saving_a_post_resets_its_subreddit_witness :
  let golang := SubredditData.mk "golang" "The Go Programming Language" "Go" 250000 in
  let s := fst (SaveSubreddit store.empty 9 golang) in
  Post.Subreddit fixtures.post ≠ ""
  ∧ GetSubreddit s "golang" = inl golang
  ∧ GetSubreddit (fst (storage.SavePost SQLite s 10 fixtures.post)) "golang"
    = inl (blank_subreddit "golang")
  ∧ GetSubreddit (fst (storage.SavePosts SQLite s 10 [fixtures.post])) "golang"
    = inl (blank_subreddit "golang").
Proof.
  cbv zeta.
  assert (Post.Subreddit fixtures.post ≠ "") as Hne by done.
  split; [exact Hne|]. split; [reflexivity|].
  destruct (saving_a_post_resets_its_subreddit SQLite
              (fst (SaveSubreddit store.empty 9
                      (SubredditData.mk "golang" "The Go Programming Language"
                         "Go" 250000)))
              10 fixtures.post [fixtures.post] Hne) as [H1 H2].
  split; [exact H1|]. apply H2. by left.
Defined.

Lemma sqlite_GetPost_stored s id post :
  sqlite.GetPost s id = inl post → In id (map PostRow.id (posts s)).
Proof.
  unfold sqlite.GetPost. destruct (lookup_row _ _ _) as [r|] eqn:E; [|done].
  intros _. apply lookup_row_Some in E as [Hin <-]. by apply in_map.
Qed.

(** When SavePost goes through, and what it leaves when it does not. *)
Lemma SavePost_with_outcome f s now post :
  (snd (SavePost_with f s now post) = noerr
   ↔ Post.Subreddit post ≠ ""
     ∨ In (Post.ID post) (map PostRow.id (posts s))
     ∨ In "" (map SubredditRow.name (subreddits s)))
  ∧ (snd (SavePost_with f s now post) ≠ noerr →
     SavePost_with f s now post
     = (s, Some {| Op := "save_post"; Err := ForeignKey "posts_subreddit_fkey" |})).
Proof.
  unfold SavePost_with, noerr.
  destruct (String.eqb_spec (Post.Subreddit post) "") as [Hs|Hs]; cbn [negb].
  - unfold exec_post, post_fk.
    destruct (has_row PostRow.id _ _) eqn:Hid; cbn [snd].
    { apply has_row_In in Hid. split; [|done]. split; auto. }
    apply has_row_false in Hid. cbn [post_row PostRow.subreddit PostRow.id] in *.
    rewrite Hs. destruct (has_row SubredditRow.name "" _) eqn:Hn; cbn [snd].
    { apply has_row_In in Hn. split; [|done]. split; auto. }
    apply has_row_false in Hn. split; [|done].
    split; [done|]. intros [H|[H|H]]; done.
  - cbn [SaveSubreddit]. unfold noerr, exec_post, post_fk.
    cbn [exec_subreddit set_subreddits posts subreddits post_row
         PostRow.subreddit PostRow.id].
    assert (has_row SubredditRow.name (Post.Subreddit post)
              (upsert SubredditRow.name subreddit_do_update
                 (subreddit_row now (subreddit_of_post post)) (subreddits s))
            = true) as ->.
    { unfold has_row. rewrite (lookup_row_upsert SubredditRow.name) by done.
      cbn. by rewrite String.eqb_refl. }
    destruct (has_row PostRow.id _ _); cbn [snd]; (split; [|done]);
      split; auto.
Qed.

(** X4. On sqlite, SavePost returns nil exactly when the post names a
    subreddit, or is already stored, or a subreddit with the empty name is
    stored. Otherwise the insert breaks the foreign key of
    [posts.subreddit]: SavePost returns the error of save_post and the store
    is as it was. *)
Theorem SavePost_succeeds_iff (s : DB) (now : Z) (post : Post.t) :
  (snd (sqlite.SavePost s now post) = noerr
   ↔ Post.Subreddit post ≠ ""
     ∨ In (Post.ID post) (map PostRow.id (posts s))
     ∨ In "" (map SubredditRow.name (subreddits s)))
  ∧ (snd (sqlite.SavePost s now post) ≠ noerr →
     sqlite.SavePost s now post
     = (s, Some {| Op := "save_post"; Err := ForeignKey "posts_subreddit_fkey" |})).
Proof. apply SavePost_with_outcome. Qed.

Lemma scan_post_row now post : sqlite.scan_post (post_row now post) = stored_post post.
Proof.
  unfold sqlite.scan_post, post_row, stored_post, sqlite_Edited. simpl.
  by destruct (IsEdited (Post.Edited post) && (0 <? Timestamp (Post.Edited post))).
Qed.

Lemma scan_post_do_update row now post :
  sqlite.scan_post (post_do_update row (post_row now post))
  = resaved_post (sqlite.scan_post row) post.
Proof.
  unfold sqlite.scan_post, post_row, post_do_update, resaved_post, sqlite_Edited.
  simpl.
  by destruct (IsEdited (Post.Edited post) && (0 <? Timestamp (Post.Edited post))).
Qed.

(** GetPost after the upsert of a post. *)
Lemma sqlite_GetPost_exec_post s s1 s' now post :
  posts s1 = posts s →
  exec_post post_do_update (post_row now post) s1 = inl s' →
  sqlite.GetPost s' (Post.ID post)
  = inl match sqlite.GetPost s (Post.ID post) with
        | inl old => resaved_post old post
        | inr _ => stored_post post
        end.
Proof.
  intros Hposts E. unfold sqlite.GetPost.
  rewrite (exec_post_rows _ _ _ _ E), Hposts.
  rewrite (lookup_row_upsert PostRow.id) by done.
  cbn [post_row PostRow.id]. rewrite String.eqb_refl.
  destruct (lookup_row PostRow.id (Post.ID post) (posts s)) as [row|].
  - f_equal. apply scan_post_do_update.
  - f_equal. apply scan_post_row.
Qed.

(** GetPost after a SavePost that went through. *)
Lemma sqlite_GetPost_SavePost s now post :
  snd (sqlite.SavePost s now post) = noerr →
  sqlite.GetPost (fst (sqlite.SavePost s now post)) (Post.ID post)
  = inl match sqlite.GetPost s (Post.ID post) with
        | inl old => resaved_post old post
        | inr _ => stored_post post
        end.
Proof.
  unfold sqlite.SavePost, SavePost_with.
  destruct (negb (String.eqb (Post.Subreddit post) ""));
    cbn [SaveSubreddit]; unfold noerr;
    (destruct (exec_post _ _ _) as [s'|e] eqn:E; cbn [fst snd]; [|done]);
    intros _; by eapply sqlite_GetPost_exec_post; [|exact E].
Qed.

(** X5. On sqlite, a post saved for the first time reads back as it was
    given: for a post that names a subreddit, whose id is not stored and
    whose timestamps are whole seconds of fewer than 16 digits, SavePost
    returns nil and GetPost of its id returns its id, subreddit, author,
    title, text, url, score, comment count, creation time and self flag;
    [Edited] comes back set, with its timestamp, when the post was edited at
    a positive timestamp, and unset otherwise. *)
Theorem sqlite_SavePost_then_GetPost (s : DB) (now : Z) (post : Post.t) :
  Post.Subreddit post ≠ "" →
  ¬ In (Post.ID post) (map PostRow.id (posts s)) →
  kept_post post →
  snd (sqlite.SavePost s now post) = noerr
  ∧ sqlite.GetPost (fst (sqlite.SavePost s now post)) (Post.ID post)
    = inl (stored_post post).
Proof.
  intros Hsub Hid _.
  assert (snd (sqlite.SavePost s now post) = noerr) as Hok.
  { apply (SavePost_with_outcome post_do_update s now post). by left. }
  split; [exact Hok|]. rewrite (sqlite_GetPost_SavePost s now post Hok).
  unfold sqlite.GetPost. apply lookup_row_None in Hid. by rewrite Hid.
Qed.

(** X5 at the post of the fixtures, on a fresh store. *)
Lemma sqlite_SavePost_then_GetPost_witness :
  Post.Subreddit fixtures.post ≠ ""
  ∧ ¬ In (Post.ID fixtures.post) (map PostRow.id (posts store.empty))
  ∧ kept_post fixtures.post
  ∧ snd (sqlite.SavePost store.empty 10 fixtures.post) = noerr
  ∧ sqlite.GetPost (fst (sqlite.SavePost store.empty 10 fixtures.post)) "depthtest"
    = inl fixtures.post.
Proof.
  assert (Post.Subreddit fixtures.post ≠ "") as H1 by done.
  assert (¬ In (Post.ID fixtures.post) (map PostRow.id (posts store.empty)))
    as H2 by (by intros []).
  assert (kept_post fixtures.post) as H3 by (unfold kept_post, kept_by; simpl; lia).
  split; [exact H1|]. split; [exact H2|]. split; [exact H3|].
  exact (sqlite_SavePost_then_GetPost store.empty 10 fixtures.post H1 H2 H3).
Defined.

(** X6. On sqlite, saving a stored post again updates its score, its
    comment count and its edit mark and nothing else: SavePost returns nil,
    and GetPost then returns the subreddit, author, title, text, url,
    creation time and self flag of the first save with the score, the
    comment count and the [Edited] of the new post. For timestamps that are
    whole seconds of fewer than 16 digits. *)
Theorem sqlite_SavePost_again (s : DB) (now : Z) (post old : Post.t) :
  sqlite.GetPost s (Post.ID post) = inl old →
  kept_post old → kept_post post →
  snd (sqlite.SavePost s now post) = noerr
  ∧ sqlite.GetPost (fst (sqlite.SavePost s now post)) (Post.ID post)
    = inl (resaved_post old post).
Proof.
  intros Hold _ _.
  assert (snd (sqlite.SavePost s now post) = noerr) as Hok.
  { apply (SavePost_with_outcome post_do_update s now post). right. left.
    by apply (sqlite_GetPost_stored s (Post.ID post) old). }
  split; [exact Hok|]. by rewrite (sqlite_GetPost_SavePost s now post Hok), Hold.
Qed.

(** X6 at the post of the fixtures, fetched again with score 50 and another
    creation time. *)
Lemma sqlite_SavePost_again_witness :
  let s := fixtures.with_post SQLite in
  sqlite.GetPost s (Post.ID fixtures.post_rescored) = inl fixtures.post
  ∧ kept_post fixtures.post
  ∧ kept_post fixtures.post_rescored
  ∧ snd (sqlite.SavePost s 20 fixtures.post_rescored) = noerr
  ∧ sqlite.GetPost (fst (sqlite.SavePost s 20 fixtures.post_rescored)) "depthtest"
    = inl (Post.mk "depthtest" "golang" "" "Depth Test Post" "" "" 50 4 1700000000
             fixtures.not_edited false).
Proof.
  cbv zeta.
  assert (sqlite.GetPost (fixtures.with_post SQLite) (Post.ID fixtures.post_rescored)
          = inl fixtures.post) as H by reflexivity.
  assert (kept_post fixtures.post) as H1 by (unfold kept_post, kept_by; simpl; lia).
  assert (kept_post fixtures.post_rescored) as H2
    by (unfold kept_post, kept_by; simpl; lia).
  split; [exact H|]. split; [exact H1|]. split; [exact H2|].
  exact (sqlite_SavePost_again (fixtures.with_post SQLite) 20
           fixtures.post_rescored fixtures.post H H1 H2).
Defined.

(** ** Batches of posts *)

Lemma ensure_subreddits_cur now seen tx batch tx' err :
  ensure_subreddits now seen tx batch = (tx', err) →
  posts (tx_cur tx') = posts (tx_cur tx).
Proof.
  revert seen tx. induction batch as [|p ps IH]; simpl; intros seen tx.
  - by intros [= <- <-].
  - destruct (_ && _); [|apply IH]. simpl. intros H. by apply IH in H.
Qed.

Lemma GetSubreddit_has_row s name sub :
  GetSubreddit s name = inl sub →
  has_row SubredditRow.name name (subreddits s) = true.
Proof.
  unfold GetSubreddit, has_row. by destruct (lookup_row _ _ _).
Qed.

(** The second loop of SavePosts on posts that are all new and whose
    subreddits are all there. *)
Lemma insert_posts_fresh now tx batch :
  (∀ p, In p batch →
        has_row SubredditRow.name (Post.Subreddit p) (subreddits tx) = true) →
  NoDup (map Post.ID batch) →
  (∀ p, In p batch → ¬ In (Post.ID p) (map PostRow.id (posts tx))) →
  ∃ cur, insert_posts now tx batch = inl cur
    ∧ (∀ p, In p batch →
            lookup_row PostRow.id (Post.ID p) (posts cur) = Some (post_row now p))
    ∧ (∀ k, ¬ In k (map Post.ID batch) →
            lookup_row PostRow.id k (posts cur) = lookup_row PostRow.id k (posts tx)).
Proof.
  revert tx. induction batch as [|p ps IH]; intros tx Hsub Hnd Hfresh.
  - exists tx. by repeat split.
  - cbn [map] in Hnd. apply NoDup_cons in Hnd as [Hp Hnd].
    rewrite list_elem_of_In in Hp.
    assert (has_row PostRow.id (Post.ID p) (posts tx) = false) as Hid.
    { apply has_row_false, Hfresh. by left. }
    cbn [insert_posts]. unfold exec_post, post_fk.
    cbn [post_row PostRow.id PostRow.subreddit]. rewrite Hid.
    rewrite (Hsub p) by by left.
    set (tx1 := set_posts tx _).
    assert (∀ k, lookup_row PostRow.id k (posts tx1)
                 = if String.eqb (Post.ID p) k then Some (post_row now p)
                   else lookup_row PostRow.id k (posts tx)) as Hlook.
    { intros k. unfold tx1. cbn [set_posts posts].
      rewrite (lookup_row_upsert PostRow.id) by done.
      change (PostRow.id (post_row now p)) with (Post.ID p).
      destruct (String.eqb_spec (Post.ID p) k) as [<-|]; [|done].
      assert (lookup_row PostRow.id (Post.ID p) (posts tx) = None) as ->; [|done].
      apply lookup_row_None, Hfresh. by left. }
    destruct (IH tx1) as (cur & Hrun & Hin & Hout).
    + intros q Hq. apply Hsub. by right.
    + done.
    + intros q Hq Hstored. apply lookup_row_None in Hstored; [done|].
      rewrite Hlook. destruct (String.eqb_spec (Post.ID p) (Post.ID q)) as [Heq|_].
      * destruct Hp. rewrite Heq. by apply in_map.
      * apply lookup_row_None, Hfresh. by right.
    + exists cur. split; [exact Hrun|]. split.
      * intros q [<-|Hq]; [|by apply Hin].
        rewrite (Hout _ Hp), Hlook. by rewrite String.eqb_refl.
      * intros k Hk. cbn [map] in Hk. rewrite Hout by (intros ?; apply Hk; by right).
        rewrite Hlook. destruct (String.eqb_spec (Post.ID p) k) as [Heq|]; [|done].
        destruct Hk. by left.
Qed.

(** X7. On sqlite, a batch of new posts reads back post by post: when
    every post of the batch names a subreddit, the ids are distinct and not
    stored and the timestamps are whole seconds of fewer than 16 digits,
    SavePosts returns nil, GetPost of each id returns the post as it was
    given ([Edited] as stored), and every other id reads as before. (The
    store is one database for all connections, as a database file is.) *)
Theorem SavePosts_then_GetPost (s : DB) (now : Z) (batch : list Post.t) :
  (∀ p, In p batch → Post.Subreddit p ≠ "") →
  NoDup (map Post.ID batch) →
  (∀ p, In p batch → ¬ In (Post.ID p) (map PostRow.id (posts s))) →
  (∀ p, In p batch → kept_post p) →
  let r := storage.SavePosts SQLite s now batch in
  snd r = noerr
  ∧ (∀ p, In p batch → sqlite.GetPost (fst r) (Post.ID p) = inl (stored_post p))
  ∧ (∀ id, ¬ In id (map Post.ID batch) →
           sqlite.GetPost (fst r) id = sqlite.GetPost s id).
Proof.
  intros Hsub Hnd Hfresh _. cbv zeta. unfold storage.SavePosts, SavePosts.
  destruct batch as [|p0 ps] eqn:Eb; [by repeat split|]. rewrite <- Eb in *.
  assert (batch ≠ []) as Hne by (by rewrite Eb).
  clear Eb p0 ps.
  destruct (ensure_subreddits now ∅ (BeginTx s) batch) as [tx err] eqn:E.
  pose proof (ensure_subreddits_cur _ _ _ _ _ _ E) as Hposts.
  apply ensure_subreddits_blank in E as [-> Hblank].
  2:{ intros n. by rewrite lookup_empty. }
  destruct (insert_posts_fresh now (tx_cur tx) batch) as (cur & -> & Hin & Hout).
  - intros p Hp. destruct (Hblank (Post.Subreddit p)) as [_ Hc].
    { right. split; [by apply Hsub|by apply in_map]. }
    by apply GetSubreddit_has_row in Hc.
  - done.
  - intros p Hp. rewrite Hposts. by apply Hfresh.
  - unfold noerr. cbn [fst snd Commit tx_cur]. split; [done|].
    unfold sqlite.GetPost. split.
    + intros p Hp. rewrite (Hin p Hp). f_equal. apply scan_post_row.
    + intros id Hid. by rewrite (Hout id Hid), Hposts.
Qed.

(** X7 at the post of the fixtures and a second post, on a fresh store. *)
Lemma SavePosts_then_GetPost_witness :
  let batch := [fixtures.post; fixtures.other_post] in
  (∀ p, In p batch → Post.Subreddit p ≠ "")
  ∧ NoDup (map Post.ID batch)
  ∧ (∀ p, In p batch → ¬ In (Post.ID p) (map PostRow.id (posts store.empty)))
  ∧ (∀ p, In p batch → kept_post p)
  ∧ snd (storage.SavePosts SQLite store.empty 10 batch) = noerr
  ∧ sqlite.GetPost (fst (storage.SavePosts SQLite store.empty 10 batch)) "other"
    = inl fixtures.other_post.
Proof.
  cbv zeta.
  assert (∀ p, In p [fixtures.post; fixtures.other_post] → Post.Subreddit p ≠ "")
    as H1 by (intros p [<-|[<-|[]]]; done).
  assert (NoDup (map Post.ID [fixtures.post; fixtures.other_post])) as H2.
  { apply NoDup_ListNoDup. repeat constructor; simpl; intuition congruence. }
  assert (∀ p, In p [fixtures.post; fixtures.other_post] →
               ¬ In (Post.ID p) (map PostRow.id (posts store.empty)))
    as H3 by (intros p _ []).
  assert (∀ p, In p [fixtures.post; fixtures.other_post] → kept_post p) as H4
    by (intros p [<-|[<-|[]]]; unfold kept_post, kept_by; simpl; lia).
  split; [exact H1|]. split; [exact H2|]. split; [exact H3|]. split; [exact H4|].
  destruct (SavePosts_then_GetPost store.empty 10
              [fixtures.post; fixtures.other_post] H1 H2 H3 H4) as (Hok & Hin & _).
  split; [exact Hok|]. apply (Hin fixtures.other_post). right. by left.
Defined.

(** ** Comments: the row of a comment and its scan *)

Lemma substring_all s : substring 0 (String.length s) s = s.
Proof. induction s as [|a s IH]; simpl; congruence. Qed.

Lemma strip3_fullname a b c s :
  s ≠ "" → strip3 (String a (String b (String c s))) = s.
Proof.
  destruct s as [|x s]; [done|]. intros _. unfold strip3. simpl.
  by rewrite substring_all.
Qed.

Lemma fullnames_params c :
  fullnames c →
  "t3_" +:+ postID_param c = Comment.LinkID c
  ∧ match parentID_param c with
    | Some parentID => "t1_" +:+ parentID
    | None => Comment.LinkID c
    end = Comment.ParentID c.
Proof.
  intros [(post & Hpost & Hl) Hp]. unfold postID_param, parentID_param.
  rewrite Hl. change ("t3_" +:+ post) with (String "t" (String "3" (String "_" post))).
  rewrite (strip3_fullname _ _ _ _ Hpost). split; [done|].
  destruct Hp as [->|(parent & Hparent & ->)].
  - rewrite Hl. change ("t3_" +:+ post) with (String "t" (String "3" (String "_" post))).
    by rewrite String.eqb_refl, orb_true_r.
  - change ("t1_" +:+ parent) with (String "t" (String "1" (String "_" parent))).
    rewrite (strip3_fullname _ _ _ _ Hparent). simpl. done.
Qed.

(** X8. A comment comes back from its row as it went in. For a comment
    with the fullnames of the API (LinkID [t3_<post>], ParentID the LinkID or
    [t1_<comment>]) and timestamps that are whole seconds the backend keeps
    (fewer than 16 digits on sqlite, below 2^32 in size on postgres), the
    scan of GetCommentsByPost applied to the row SaveComment and SaveComments
    write returns the id, LinkID, ParentID, author, body, score and creation
    time of the comment; [Edited] comes back set when the comment was edited
    at a timestamp that is positive (sqlite) or not 0 (postgres), and unset
    otherwise. *)
Theorem comment_row_round_trip (b : Backend) (now : Z) (c : Comment.t) (depth : Z) :
  fullnames c →
  kept_comment b c →
  match b with
  | SQLite =>
      sqlite.scan_comment (sqlite.comment_row now c depth)
      = with_Edited c (sqlite_Edited (Comment.Edited c))
  | Postgres =>
      postgres.scan_comment (postgres.comment_row now c depth)
      = with_Edited c (postgres_Edited (Comment.Edited c))
  end.
Proof.
  intros Hc [Hcreated Hedited]. destruct (fullnames_params c Hc) as [Hl Hp].
  destruct b.
  - assert (Comment.CreatedUTC c ≠ postgres.zeroTime) as Hzero
      by (unfold kept_by, postgres.zeroTime in *; lia).
    clear Hcreated Hedited.
    unfold postgres.scan_comment, postgres.comment_row, with_Edited, postgres_Edited,
      postgres.unixFloatToTime, postgres.timePtrOrNil, postgres.timeToUnixFloat.
    destruct c as [id link parent author body score created [edited ts]].
    cbn [Comment.ID Comment.LinkID Comment.ParentID Comment.Author Comment.Body
         Comment.Score Comment.CreatedUTC Comment.Edited IsEdited Timestamp] in *.
    assert ((if (if created =? 0 then (postgres.zeroTime, false)
                 else (created, true)).1 =? postgres.zeroTime
             then 0
             else (if created =? 0 then (postgres.zeroTime, false)
                   else (created, true)).1) = created) as Hcr.
    { destruct (Z.eqb_spec created 0) as [->|]; cbn [fst]; [done|].
      by destruct (Z.eqb_spec created postgres.zeroTime). }
    destruct (Z.eqb_spec ts 0) as [->|Hts];
      cbn [CommentRow.id CommentRow.post_id CommentRow.parent_id CommentRow.author
           CommentRow.body CommentRow.score CommentRow.created_utc
           CommentRow.edited_utc fst snd negb andb orb];
      rewrite ?Hl, ?Hp, ?Hcr.
    + destruct edited; cbn; by rewrite ?andb_false_r.
    + destruct edited; cbn [negb orb andb]; [|done].
      destruct (ts =? postgres.zeroTime) eqn:E; cbn [negb]; [done|].
      by rewrite E.
  - unfold sqlite.scan_comment, sqlite.comment_row, with_Edited, sqlite_Edited.
    cbn [CommentRow.id CommentRow.post_id CommentRow.parent_id CommentRow.author
         CommentRow.body CommentRow.score CommentRow.created_utc
         CommentRow.edited_utc].
    rewrite Hl, Hp.
    by destruct (IsEdited (Comment.Edited c) && (0 <? Timestamp (Comment.Edited c))).
Qed.

(** X8 at the reply [c2] of the fixtures, on both backends. *)
Lemma comment_row_round_trip_witness :
  fullnames fixtures.c2
  ∧ kept_comment SQLite fixtures.c2
  ∧ kept_comment Postgres fixtures.c2
  ∧ sqlite.scan_comment (sqlite.comment_row 11 fixtures.c2 1) = fixtures.c2
  ∧ postgres.scan_comment (postgres.comment_row 11 fixtures.c2 1) = fixtures.c2.
Proof.
  assert (fullnames fixtures.c2) as H.
  { split; [by exists "depthtest"|]. right. by exists "c1". }
  assert (kept_comment SQLite fixtures.c2) as H1
    by (unfold kept_comment, kept_by; simpl; lia).
  assert (kept_comment Postgres fixtures.c2) as H2
    by (unfold kept_comment, kept_by; simpl; lia).
  split; [exact H|]. split; [exact H1|]. split; [exact H2|].
  split.
  - exact (comment_row_round_trip SQLite 11 fixtures.c2 1 H H1).
  - exact (comment_row_round_trip Postgres 11 fixtures.c2 1 H H2).
Defined.

(** ** Comments the foreign keys reject *)

Lemma exec_comment_posts f row tx tx' :
  exec_comment f row tx = inl tx' → posts tx' = posts tx.
Proof.
  unfold exec_comment. destruct (has_row _ _ _); [by intros [= <-]|].
  destruct (comment_fk tx row); [discriminate|]. by intros [= <-].
Qed.

(** The statement for a dangling comment fails on a foreign key: that of
    [post_id] when the post is missing. *)
Lemma exec_comment_dangling f row c tx :
  CommentRow.id row = Comment.ID c →
  CommentRow.post_id row = postID_param c →
  CommentRow.parent_id row = parentID_param c →
  dangling c tx [] →
  ∃ e, exec_comment f row tx = inr e
       ∧ (¬ In (postID_param c) (map PostRow.id (posts tx)) →
          e = ForeignKey "comments_post_id_fkey").
Proof.
  intros Hid Hpost Hparent (Hnew & _ & Hwhy). unfold exec_comment, comment_fk.
  rewrite Hid, Hpost, Hparent. apply has_row_false in Hnew. rewrite Hnew.
  destruct (has_row PostRow.id (postID_param c) (posts tx)) eqn:Hp; cbn [negb].
  - apply has_row_In in Hp. destruct Hwhy as [Hwhy|(p & -> & Hne & Hp' & _)];
      [done|].
    apply has_row_false in Hp'. rewrite Hp'.
    destruct (String.eqb_spec p (Comment.ID c)); [done|]. cbn.
    eexists. split; [done|]. by intros [].
  - eexists. split; [done|]. done.
Qed.

(** A statement that goes through for an earlier comment of the batch
    leaves the comment dangling. *)
Lemma dangling_step f row c c0 pre tx tx' :
  (∀ old, CommentRow.id (f old row) = CommentRow.id old) →
  CommentRow.id row = Comment.ID c0 →
  dangling c tx (c0 :: pre) →
  exec_comment f row tx = inl tx' →
  dangling c tx' pre.
Proof.
  intros Hf Hid (Hnew & Hpre & Hwhy) E.
  pose proof (exec_comment_ids f row tx tx' Hf E) as Hids.
  pose proof (exec_comment_posts f row tx tx' E) as Hposts.
  assert (∀ x, ¬ In x (map CommentRow.id (comments tx)) →
               ¬ In x (map Comment.ID (c0 :: pre)) →
               ¬ In x (map CommentRow.id (comments tx'))) as Hkeep.
  { intros x H1 H2. rewrite Hids, in_app_iff. intros [H|H]; [done|].
    destruct (has_row _ _ _); [done|]. destruct H as [<-|[]].
    apply H2. left. by rewrite Hid. }
  split; [by apply Hkeep|]. split; [intros H; apply Hpre; by right|].
  destruct Hwhy as [Hwhy|(p & Hp & Hne & Hp1 & Hp2)].
  - left. by rewrite Hposts.
  - right. exists p. split; [done|]. split; [done|]. split; [by apply Hkeep|].
    intros H. apply Hp2. by right.
Qed.

Lemma sqlite_insert_dangling now c rest pre tx :
  dangling c tx pre →
  ∃ e, sqlite.insert_comments now tx (pre ++ c :: rest)%list = inr e.
Proof.
  revert tx. induction pre as [|c0 pre IH]; intros tx Hd; cbn [app sqlite.insert_comments].
  - destruct (exec_comment_dangling comment_do_update
                (sqlite.comment_row now c (sqlite.flat_depth (parentID_param c)))
                c tx) as (e & -> & _); try done. eauto.
  - destruct (exec_comment _ _ tx) as [tx'|e] eqn:E; [|eauto].
    apply IH. by eapply dangling_step; [| |exact Hd|exact E].
Qed.

Lemma postgres_insert_dangling fuel now commentMap c rest pre depthCache tx r :
  dangling c tx pre →
  postgres.insert_comments fuel now commentMap depthCache tx (pre ++ c :: rest)%list
  = Some r →
  ∃ e, r = inr e.
Proof.
  revert depthCache tx. induction pre as [|c0 pre IH]; intros depthCache tx Hd;
    cbn [app postgres.insert_comments];
    (destruct (postgres.calculateDepth _ _ _ _ _) as [[d cache1]|]; [|done]).
  - destruct (postgres_comment_row_id now c d) as (Hid & Hpar & Hpost & _).
    destruct (exec_comment_dangling comment_do_update_depth
                (postgres.comment_row now c d) c tx Hid Hpost Hpar Hd)
      as (e & -> & _).
    intros [= <-]. eauto.
  - destruct (postgres_comment_row_id now c0 d) as (Hid & _).
    destruct (exec_comment _ _ tx) as [tx'|e] eqn:E; [|intros [= <-]; eauto].
    apply IH. by eapply dangling_step; [| |exact Hd|exact E].
Qed.

(** A batch with a dangling comment is rolled back, and the call returns:
    always on sqlite, and on postgres when the batch has no cycle. *)
Lemma SaveComments_dangling b s now c pre rest :
  dangling c s pre →
  (∀ fuel r, storage.SaveComments fuel b s now (pre ++ c :: rest)%list = Some r →
             ∃ e, r = (Rollback (BeginTx s), Some e))
  ∧ (b = SQLite ∨ ¬ cyclic (postgres.build_commentMap (pre ++ c :: rest)%list) →
     ∃ n, ∀ fuel, (n ≤ fuel)%nat →
       is_Some (storage.SaveComments fuel b s now (pre ++ c :: rest)%list)).
Proof.
  intros Hd. assert ((pre ++ c :: rest)%list ≠ []) as Hne by (by destruct pre).
  assert (dangling c (tx_cur (BeginTx s)) pre) as Hd' by done.
  split.
  - intros fuel r. destruct b; cbn [storage.SaveComments].
    + rewrite SaveComments_nonempty by done.
      destruct (postgres.insert_comments _ _ _ _ _ _) as [res|] eqn:E; [|done].
      destruct (postgres_insert_dangling _ _ _ _ _ _ _ _ _ Hd' E) as [e ->].
      intros [= <-]. eauto.
    + intros [= <-]. rewrite sqlite_SaveComments_nonempty by done.
      destruct (sqlite_insert_dangling now c rest pre _ Hd') as [e ->]. eauto.
  - intros Hb. destruct b; cbn [storage.SaveComments].
    + destruct Hb as [|Hc]; [done|].
      destruct (insert_comments_returns now
                  (postgres.build_commentMap (pre ++ c :: rest)%list) (pre ++ c :: rest)%list)
        as [n Hn].
      { intros c' _. by apply acyclic_resolves. }
      exists n. intros fuel Hfuel. rewrite SaveComments_nonempty by done.
      destruct (Hn fuel (tx_cur (BeginTx s)) ∅ Hfuel (cache_sound_empty _))
        as [[cur|e] E]; rewrite E; eauto.
    + exists 0%nat. eauto.
Qed.

(** X9. A comment cannot be stored before its post. SaveComment of a
    comment that is not stored, for a post that is not stored, returns the
    error of save_comment with the foreign key of [comments.post_id] and
    leaves the store as it was. A batch that holds such a comment (its id
    not among the comments before it) never returns nil: whenever
    SaveComments returns, it returns an error and the batch is rolled back,
    and it does return on sqlite, and on postgres when the batch has no
    cycle. *)
Theorem comment_needs_its_post (b : Backend) (s : DB) (now : Z) (c : Comment.t)
    (pre rest : list Comment.t) :
  ¬ In (Comment.ID c) (map CommentRow.id (comments s)) →
  ¬ In (postID_param c) (map PostRow.id (posts s)) →
  storage.SaveComment b s now c
  = (s, Some {| Op := "save_comment"; Err := ForeignKey "comments_post_id_fkey" |})
  ∧ (¬ In (Comment.ID c) (map Comment.ID pre) →
     (∀ fuel r, storage.SaveComments fuel b s now (pre ++ c :: rest)%list = Some r →
                ∃ e, r = (Rollback (BeginTx s), Some e))
     ∧ (b = SQLite ∨ ¬ cyclic (postgres.build_commentMap (pre ++ c :: rest)%list) →
        ∃ n, ∀ fuel, (n ≤ fuel)%nat →
          is_Some (storage.SaveComments fuel b s now (pre ++ c :: rest)%list))).
Proof.
  intros Hnew Hpost. split.
  - assert (dangling c s []) as Hd by (split; [done|split; [by intros []|by left]]).
    destruct b; cbn [storage.SaveComment];
      unfold postgres.SaveComment, sqlite.SaveComment.
    + destruct (postgres_comment_row_id now c
                  (postgres.parent_depth s (parentID_param c)))
        as (Hid & Hpar & Hpid & _).
      destruct (exec_comment_dangling comment_do_update
                  (postgres.comment_row now c
                     (postgres.parent_depth s (parentID_param c))) c s
                  Hid Hpid Hpar Hd)
        as (e & -> & He).
      by rewrite (He Hpost).
    + destruct (exec_comment_dangling comment_do_update
                  (sqlite.comment_row now c (sqlite.flat_depth (parentID_param c)))
                  c s) as (e & -> & He); try done.
      by rewrite (He Hpost).
  - intros Hpre. apply SaveComments_dangling.
    split; [done|]. split; [done|]. by left.
Qed.

(** X9 at the comment [c1] of the fixtures, on a store without its post. *)
Lemma comment_needs_its_post_witness :
  ¬ In (Comment.ID fixtures.c1) (map CommentRow.id (comments store.empty))
  ∧ ¬ In (postID_param fixtures.c1) (map PostRow.id (posts store.empty))
  ∧ storage.SaveComment SQLite store.empty 11 fixtures.c1
    = (store.empty,
       Some {| Op := "save_comment"; Err := ForeignKey "comments_post_id_fkey" |})
  ∧ snd (sqlite.SaveComments store.empty 11 [fixtures.c1])
    = Some {| Op := "insert_comment"; Err := ForeignKey "comments_post_id_fkey" |}.
Proof.
  assert (¬ In (Comment.ID fixtures.c1) (map CommentRow.id (comments store.empty)))
    as H1 by (by intros []).
  assert (¬ In (postID_param fixtures.c1) (map PostRow.id (posts store.empty)))
    as H2 by (by intros []).
  split; [exact H1|]. split; [exact H2|].
  destruct (comment_needs_its_post SQLite store.empty 11 fixtures.c1 [] [] H1 H2)
    as [H _].
  split; [exact H|reflexivity].
Defined.

(** X10. In a batch a reply has to come after its parent. When a reply
    that is not stored comes in the batch before any comment with the id of
    its parent, and the parent is not stored either, its insert breaks the
    foreign key of [comments.parent_id] even though the parent comes later
    in the same batch: SaveComments never returns nil, whenever it returns
    it returns an error and the batch is rolled back, and it does return on
    sqlite, and on postgres when the batch has no cycle. *)
Theorem reply_before_its_parent (b : Backend) (s : DB) (now : Z) (c : Comment.t)
    (p : string) (pre rest : list Comment.t) :
  parentID_param c = Some p →
  p ≠ Comment.ID c →
  ¬ In p (map CommentRow.id (comments s)) →
  ¬ In p (map Comment.ID pre) →
  ¬ In (Comment.ID c) (map CommentRow.id (comments s)) →
  ¬ In (Comment.ID c) (map Comment.ID pre) →
  (∀ fuel r, storage.SaveComments fuel b s now (pre ++ c :: rest)%list = Some r →
             ∃ e, r = (Rollback (BeginTx s), Some e))
  ∧ (b = SQLite ∨ ¬ cyclic (postgres.build_commentMap (pre ++ c :: rest)%list) →
     ∃ n, ∀ fuel, (n ≤ fuel)%nat →
       is_Some (storage.SaveComments fuel b s now (pre ++ c :: rest)%list)).
Proof.
  intros Hp Hne Hp1 Hp2 Hc1 Hc2. apply SaveComments_dangling.
  split; [done|]. split; [done|]. right. by exists p.
Qed.

(** X10 at the replies [c2] and [c1] of the fixtures, the reply first:
    saved in the other order the batch goes through. *)
Lemma reply_before_its_parent_witness :
  let s := fixtures.with_post SQLite in
  parentID_param fixtures.c2 = Some "c1"
  ∧ "c1" ≠ Comment.ID fixtures.c2
  ∧ ¬ In "c1" (map CommentRow.id (comments s))
  ∧ ¬ In (Comment.ID fixtures.c2) (map CommentRow.id (comments s))
  ∧ (∃ e, sqlite.SaveComments s 11 [fixtures.c2; fixtures.c1]
          = (Rollback (BeginTx s), Some e))
  ∧ snd (sqlite.SaveComments s 11 [fixtures.c1; fixtures.c2]) = noerr.
Proof.
  cbv zeta.
  assert (parentID_param fixtures.c2 = Some "c1") as H1 by reflexivity.
  assert ("c1" ≠ Comment.ID fixtures.c2) as H2 by done.
  assert (¬ In "c1" (map CommentRow.id (comments (fixtures.with_post SQLite))))
    as H3 by (by intros []).
  assert (¬ In (Comment.ID fixtures.c2)
            (map CommentRow.id (comments (fixtures.with_post SQLite))))
    as H4 by (by intros []).
  split; [exact H1|]. split; [exact H2|]. split; [exact H3|]. split; [exact H4|].
  split; [|reflexivity].
  destruct (reply_before_its_parent SQLite (fixtures.with_post SQLite) 11
              fixtures.c2 "c1" [] [fixtures.c1] H1 H2 H3 (λ H, H) H4 (λ H, H))
    as [H _].
  exact (H 0%nat _ eq_refl).
Defined.

(** ** The depths postgres' SaveComments stores *)

Lemma exec_comment_batch_depth commentMap now c d tx tx' :
  resolves commentMap (Comment.ID c) d →
  exec_comment comment_do_update_depth (postgres.comment_row now c d) tx = inl tx' →
  stored_at_batch_depth commentMap tx' (Comment.ID c)
  ∧ ∀ k, stored_at_batch_depth commentMap tx k →
         stored_at_batch_depth commentMap tx' k.
Proof.
  intros Hd E. destruct (postgres_comment_row_id now c d) as (Hid & _ & _ & Hdepth).
  assert (∀ k, lookup_row CommentRow.id k (comments tx')
               = if String.eqb (Comment.ID c) k
                 then Some match lookup_row CommentRow.id k (comments tx) with
                           | Some old =>
                               comment_do_update_depth old (postgres.comment_row now c d)
                           | None => postgres.comment_row now c d
                           end
                 else lookup_row CommentRow.id k (comments tx)) as Hlook.
  { intros k. rewrite (exec_comment_rows _ _ _ _ E).
    rewrite (lookup_row_upsert CommentRow.id) by done. by rewrite Hid. }
  assert (stored_at_batch_depth commentMap tx' (Comment.ID c)) as Hc.
  { unfold stored_at_batch_depth. rewrite Hlook, String.eqb_refl.
    eexists. split; [done|].
    destruct (lookup_row _ _ _); cbn [comment_do_update_depth CommentRow.depth];
      by rewrite Hdepth. }
  split; [exact Hc|]. intros k Hk.
  destruct (String.eqb_spec (Comment.ID c) k) as [<-|Hne]; [exact Hc|].
  unfold stored_at_batch_depth. rewrite Hlook.
  by destruct (String.eqb_spec (Comment.ID c) k).
Qed.

Lemma insert_comments_batch_depth fuel now commentMap depthCache tx cs cur :
  cache_sound commentMap depthCache →
  postgres.insert_comments fuel now commentMap depthCache tx cs = Some (inl cur) →
  (∀ k, stored_at_batch_depth commentMap tx k →
        stored_at_batch_depth commentMap cur k)
  ∧ ∀ c, In c cs → stored_at_batch_depth commentMap cur (Comment.ID c).
Proof.
  revert depthCache tx. induction cs as [|c0 cs IH]; intros depthCache tx Hs;
    cbn [postgres.insert_comments].
  - intros [= <-]. split; [done|]. by intros c [].
  - destruct (postgres.calculateDepth _ _ _ _ _) as [[d cache1]|] eqn:Ed; [|done].
    apply calculateDepth_sound in Ed as [Hd Hs1]; [|done].
    destruct (exec_comment _ _ tx) as [tx1|e] eqn:E; [|done].
    destruct (exec_comment_batch_depth _ _ _ _ _ _ Hd E) as [Hc0 Hkeep].
    intros Hrun. destruct (IH _ _ Hs1 Hrun) as [Hkeep' Hin].
    split; [auto|]. intros c [<-|Hc]; auto.
Qed.

(** X11. The depth postgres' SaveComments stores is the length of the
    chain of parents inside the batch. When the call returns nil, every
    comment of the batch, new or already stored, is stored at the depth its
    chain gives: 0 for a comment without a parent comment, and one more than
    its parent for a reply, a parent that is not in the batch counting as
    depth 0 whatever its stored depth. *)
Theorem postgres_batch_depth (fuel : nat) (s : DB) (now : Z) (cs : list Comment.t)
    (s' : DB) :
  postgres.SaveComments fuel s now cs = Some (s', noerr) →
  ∀ c, In c cs →
    ∃ row, lookup_row CommentRow.id (Comment.ID c) (comments s') = Some row
           ∧ resolves (postgres.build_commentMap cs) (Comment.ID c)
               (CommentRow.depth row).
Proof.
  intros Hrun c Hin. assert (cs ≠ []) as Hne by (by intros ->).
  rewrite SaveComments_nonempty in Hrun by done.
  destruct (postgres.insert_comments _ _ _ _ _ _) as [[cur|e]|] eqn:E; [|done|done].
  injection Hrun as <-.
  destruct (insert_comments_batch_depth _ _ _ _ _ _ _ (cache_sound_empty _) E)
    as [_ H].
  by apply H.
Qed.

(** X11 at the thread of TestCommentDepthCalculation, saved in one batch:
    c1 at depth 0, c2 and c4 at depth 1, c3 at depth 2. *)
Lemma postgres_batch_depth_witness :
  let cs := [fixtures.c1; fixtures.c2; fixtures.c3; fixtures.c4] in
  ∃ s', postgres.SaveComments 4 (fixtures.with_post Postgres) 11 cs = Some (s', noerr)
        ∧ fixtures.depths s' = [("c1", 0); ("c2", 1); ("c3", 2); ("c4", 1)]
        ∧ ∃ row, lookup_row CommentRow.id "c3" (comments s') = Some row
                 ∧ resolves (postgres.build_commentMap cs) "c3" (CommentRow.depth row).
Proof.
  cbv zeta. eexists. split; [vm_compute; reflexivity|]. split; [reflexivity|].
  eapply (postgres_batch_depth 4 (fixtures.with_post Postgres) 11
            [fixtures.c1; fixtures.c2; fixtures.c3; fixtures.c4] _ _ fixtures.c3).
  Unshelve.
  - right. right. by left.
  - vm_compute. reflexivity.
Defined.

(** ** GetPostStats of postgres *)

Lemma foldl_max_spec a l :
  In (foldl Z.max a l) (a :: l) ∧ ∀ v, In v (a :: l) → v ≤ foldl Z.max a l.
Proof.
  revert a. induction l as [|w ws IH]; intros v; simpl.
  - split; [by left|]. intros ? [->|[]]. lia.
  - destruct (IH (v `max` w)) as [Hin Hmax]. split.
    + destruct Hin as [Hin|Hin]; [|by right; right].
      destruct (Z.max_spec v w) as [[_ Hvw]|[_ Hvw]]; rewrite <- Hin, Hvw; auto.
    + intros x [->|[->|Hx]].
      * specialize (Hmax (x `max` w) (or_introl eq_refl)). lia.
      * specialize (Hmax (v `max` x) (or_introl eq_refl)). lia.
      * apply Hmax. by right.
Qed.

(** With a primary key, the rows with a key are the row a lookup finds. *)
Lemma filter_key {R} (key : R → string) k rows :
  NoDup (map key rows) →
  List.filter (λ r, String.eqb (key r) k) rows
  = match lookup_row key k rows with Some r => [r] | None => [] end.
Proof.
  induction rows as [|x rows IH]; [done|]. cbn [map]. intros Hnd.
  apply NoDup_cons in Hnd as [Hx Hnd]. rewrite list_elem_of_In in Hx.
  cbn [List.filter lookup_row].
  destruct (String.eqb_spec (key x) k) as [<-|Hne]; [|by apply IH].
  rewrite (IH Hnd). apply lookup_row_None in Hx. by rewrite Hx.
Qed.

(** The comments the recursive query returns do not depend on what it
    computes along the way, a path or a level. *)
Section tree_rows.
Context {K1 K2 : Type}.
Context (root1 : CommentRow.t → K1) (append1 : K1 → CommentRow.t → K1).
Context (root2 : CommentRow.t → K2) (append2 : K2 → CommentRow.t → K2).
Context (cs : list CommentRow.t) (postID : string).

Lemma nested_rows ct1 ct2 :
  map fst ct1 = map fst ct2 →
  map fst (nested append1 cs ct1) = map fst (nested append2 cs ct2).
Proof.
  intros Hct. unfold nested. induction cs as [|c l IH]; [done|].
  cbn [flat_map]. rewrite !map_app, IH. f_equal. rewrite !map_map. cbn [fst].
  clear IH. revert ct2 Hct. induction ct1 as [|x ct1 IH]; intros [|y ct2]; try done.
  cbn [map List.filter]. intros [= Hxy Hct].
  rewrite Hxy. destruct (bool_decide _); cbn [map]; by rewrite (IH _ Hct).
Qed.

Lemma comment_tree_rounds_rows n ct1 ct2 :
  map fst ct1 = map fst ct2 →
  map fst (comment_tree_rounds append1 n cs ct1)
  = map fst (comment_tree_rounds append2 n cs ct2).
Proof.
  revert ct1 ct2. induction n as [|n IH]; intros ct1 ct2 Hct; [done|].
  cbn [comment_tree_rounds].
  destruct ct1 as [|x ct1], ct2 as [|y ct2]; try done.
  rewrite !map_app, Hct. f_equal. apply IH. by apply nested_rows.
Qed.

Lemma comment_tree_rows :
  map fst (comment_tree root1 append1 cs postID)
  = map fst (comment_tree root2 append2 cs postID).
Proof.
  unfold comment_tree. apply comment_tree_rounds_rows.
  unfold anchor. by rewrite !map_map.
Qed.

Lemma tree_row_rows k x :
  tree_row root1 append1 cs postID k x →
  ∃ y, tree_row root2 append2 cs postID k (fst x, y).
Proof.
  induction 1 as [c Hc Hp Hn|k c q path Hc Hq [y IH] Hp]; cbn [fst] in *.
  - eexists. by constructor.
  - eexists. by econstructor.
Qed.
End tree_rows.

Lemma tree_row_level cs postID k x :
  tree_row postgres.root_level postgres.next_level cs postID k x →
  snd x = Z.of_nat k.
Proof.
  induction 1 as [c Hc Hp Hn|k c q path Hc Hq IH Hp]; [done|].
  cbn [snd] in *. unfold postgres.next_level. lia.
Qed.

(** X12. GetPostStats of postgres counts the thread GetCommentsByPost
    returns. With the primary keys of [posts] and [comments]: for a post
    that is not stored it returns the error of get_post_stats with
    [sql.ErrNoRows]; for a stored post, CommentCount is the number of
    comments GetCommentsByPost returns for it, MaxCommentDepth is the
    greatest level of a comment of the thread (0 for a top-level comment,
    one more at each reply; 0 without comments), whatever the stored [depth]
    column says, and LastUpdated is the [last_updated] of the post. *)
Theorem postgres_GetPostStats_counts_the_thread (s : DB) (postID : string) :
  NoDup (map PostRow.id (posts s)) →
  NoDup (map CommentRow.id (comments s)) →
  match postgres.GetPostStats s postID with
  | inr e =>
      ¬ In postID (map PostRow.id (posts s))
      ∧ e = {| QueryOp := "get_post_stats"; QueryErr := ErrNoRows |}
  | inl stats =>
      PostStats.PostID stats = postID
      ∧ (∃ p, lookup_row PostRow.id postID (posts s) = Some p
              ∧ PostStats.LastUpdated stats = PostRow.last_updated p)
      ∧ PostStats.CommentCount stats
        = Z.of_nat (length (fst (postgres.GetCommentsByPost s postID)))
      ∧ (∀ k x, tree_row postgres.root_path postgres.append_path (comments s)
                  postID k x →
                Z.of_nat k ≤ PostStats.MaxCommentDepth stats)
      ∧ (PostStats.CommentCount stats = 0 → PostStats.MaxCommentDepth stats = 0)
      ∧ (PostStats.CommentCount stats ≠ 0 →
         ∃ k x, tree_row postgres.root_path postgres.append_path (comments s)
                  postID k x
                ∧ Z.of_nat k = PostStats.MaxCommentDepth stats)
  end.
Proof.
  intros Hposts Hpk. unfold postgres.GetPostStats.
  rewrite (filter_key PostRow.id postID (posts s) Hposts).
  destruct (lookup_row PostRow.id postID (posts s)) as [p|] eqn:Ep.
  2:{ by apply lookup_row_None in Ep. }
  set (ct := comment_tree postgres.root_level postgres.next_level (comments s) postID).
  cbn [PostStats.PostID PostStats.LastUpdated PostStats.CommentCount
       PostStats.MaxCommentDepth foldl map List.length].
  assert (length (fst (postgres.GetCommentsByPost s postID)) = length ct) as Hlen.
  { unfold postgres.GetCommentsByPost, query_comments. cbn [fst].
    rewrite !length_map, merge_sort_Permutation.
    rewrite <- (length_map fst), <- (length_map fst ct). f_equal.
    apply comment_tree_rows. }
  assert (∀ c l, In (c, l) ct ↔
                 ∃ k, tree_row postgres.root_level postgres.next_level
                        (comments s) postID k (c, l)) as Hct.
  { intros c l. apply comment_tree_spec. exact Hpk. }
  split; [done|]. split; [eauto|]. split; [rewrite Hlen; lia|].
  split; [|split].
  - intros k x Hx.
    destruct (tree_row_rows _ _ postgres.root_level postgres.next_level _ _ _ _ Hx)
      as [l Hl].
    pose proof (tree_row_level _ _ _ _ Hl) as Hk. cbn [snd] in Hk. subst l.
    assert (In (Z.of_nat k) (map snd ct)) as Hin.
    { apply in_map_iff. exists (fst x, Z.of_nat k). split; [done|].
      apply Hct. eauto. }
    destruct (map snd ct) as [|l0 ls]; [done|].
    by apply (foldl_max_spec l0 ls).
  - intros Hzero. destruct ct as [|x l]; [done|]. simpl in Hzero. lia.
  - intros Hsome. destruct ct as [|[c0 l0] ct'] eqn:Ect; [done|].
    rewrite <- Ect in *. cbn [map snd] in *.
    assert (In (foldl Z.max (snd (c0, l0)) (map snd ct')) (map snd ct)) as Hin.
    { rewrite Ect. cbn [map]. apply foldl_max_spec. }
    rewrite Ect. cbn [map snd].
    apply in_map_iff in Hin as ([c l] & Hl & Hin). cbn [snd] in Hl.
    apply Hct in Hin as [k Hk].
    pose proof (tree_row_level _ _ _ _ Hk) as Hlk. cbn [snd] in Hlk.
    destruct (tree_row_rows _ _ postgres.root_path postgres.append_path _ _ _ _ Hk)
      as [path Hpath].
    exists k, (c, path). split; [done|]. cbn [snd] in *. lia.
Qed.


(** X12 at the thread of TestCommentDepthCalculation, saved through postgres
    in one batch: four comments, the deepest at level 2. *)
Lemma postgres_GetPostStats_counts_the_thread_witness :
  let s := default store.empty
             (fst <$> postgres.SaveComments 4 (fixtures.with_post Postgres) 11
                        [fixtures.c1; fixtures.c2; fixtures.c3; fixtures.c4]) in
  NoDup (map PostRow.id (posts s))
  ∧ NoDup (map CommentRow.id (comments s))
  ∧ postgres.GetPostStats s "depthtest"
    = inl (PostStats.mk "depthtest" 4 2 10)
  ∧ match postgres.GetPostStats s "depthtest" with
    | inl stats =>
        PostStats.CommentCount stats
        = Z.of_nat (length (fst (postgres.GetCommentsByPost s "depthtest")))
    | inr _ => False
    end.
Proof.
  set (s := default store.empty
              (fst <$> postgres.SaveComments 4 (fixtures.with_post Postgres) 11
                         [fixtures.c1; fixtures.c2; fixtures.c3; fixtures.c4])).
  assert (NoDup (map PostRow.id (posts s))) as H1.
  { vm_compute. repeat constructor; set_solver. }
  assert (NoDup (map CommentRow.id (comments s))) as H2.
  { vm_compute. repeat constructor; set_solver. }
  split; [exact H1|]. split; [exact H2|]. split; [reflexivity|].
  pose proof (postgres_GetPostStats_counts_the_thread s "depthtest" H1 H2) as H.
  destruct (postgres.GetPostStats s "depthtest") as [stats|e].
  - exact (proj1 (proj2 (proj2 H))).
  - destruct H as [H _]. apply H. by left.
Defined.

(** ** The migration runner: versions *)

Lemma digit_of_digit_char d :
  (d < 10)%nat → schema.digit_of (digit_char d) = Some (Z.of_nat d).
Proof. intros Hd. do 10 (destruct d as [|d]; [reflexivity|]). lia. Qed.

Lemma append_String c s t : String c s +:+ t = String c (s +:+ t).
Proof. reflexivity. Qed.

Lemma scan_digits_numeral rest ds :
  Forall (λ d, d < 10)%nat ds →
  ∀ acc count,
    schema.scan_digits acc count (numeral ds +:+ String "_" rest)
    = (foldl (λ acc d, 10 * acc + Z.of_nat d) acc ds, (count + length ds)%nat,
       String "_" rest).
Proof.
  induction 1 as [|d ds Hd Hds IH]; intros acc count.
  - cbn. by rewrite Nat.add_0_r.
  - cbn [numeral foldr foldl length]. rewrite append_String.
    cbn [schema.scan_digits]. rewrite (digit_of_digit_char d Hd).
    change (foldr (λ d s, String (digit_char d) s) "" ds) with (numeral ds).
    rewrite IH. f_equal. f_equal. lia.
Qed.

(** A name that starts with a digit has no blanks and no sign to skip. *)
Lemma scan_version_digit d s :
  (d < 10)%nat →
  schema.scan_version (String (digit_char d) s)
  = let '(value, count, rest) := schema.scan_digits 0 0 (String (digit_char d) s) in
    match count, rest with
    | S _, String "_" _ =>
        if (- 2 ^ 63 <=? value) && (value <? 2 ^ 63) then Some value else None
    | _, _ => None
    end.
Proof. intros Hd. do 10 (destruct d as [|d]; [reflexivity|]). lia. Qed.

Lemma numeral_value_nonneg ds : 0 ≤ numeral_value ds.
Proof.
  unfold numeral_value.
  assert (∀ acc, 0 ≤ acc → 0 ≤ foldl (λ acc d, 10 * acc + Z.of_nat d) acc ds) as H.
  { induction ds as [|d ds IH]; intros acc Hacc; cbn [foldl]; [lia|].
    apply IH. lia. }
  by apply H.
Qed.

(** X13. The version of a migration file is the number its name starts
    with. For a name made of decimal digits, an underscore and anything
    after it, [fmt.Sscanf(name, "%d_", &version)] as loadMigrations calls
    it reads the value of the digits, leading zeros included, provided the
    value fits an [int]. *)
Theorem scan_version_reads_the_number (ds : list nat) (rest : string) :
  ds ≠ [] →
  Forall (λ d, d < 10)%nat ds →
  numeral_value ds < 2 ^ 63 →
  schema.scan_version (numeral ds +:+ "_" +:+ rest) = Some (numeral_value ds).
Proof.
  intros Hne Hds Hfit. destruct ds as [|d ds]; [done|].
  pose proof (Forall_inv Hds) as Hd. cbn [numeral foldr]. rewrite append_String.
  rewrite (scan_version_digit d _ Hd). rewrite <- append_String.
  change (String (digit_char d) (foldr (λ d s, String (digit_char d) s) "" ds))
    with (numeral (d :: ds)).
  change ("_" +:+ rest) with (String "_" rest).
  rewrite (scan_digits_numeral rest (d :: ds) Hds 0 0).
  change (foldl (λ acc d, 10 * acc + Z.of_nat d) 0 (d :: ds))
    with (numeral_value (d :: ds)).
  pose proof (numeral_value_nonneg (d :: ds)).
  cbn [Nat.add length].
  destruct (Z.leb_spec (- 2 ^ 63) (numeral_value (d :: ds))); [|lia].
  destruct (Z.ltb_spec (numeral_value (d :: ds)) (2 ^ 63)); [done|lia].
Qed.

(** X13 at the name of the first migration of the repository. *)
Lemma scan_version_reads_the_number_witness :
  [0; 0; 1]%nat ≠ []
  ∧ Forall (λ d, d < 10)%nat [0; 0; 1]%nat
  ∧ numeral_value [0; 0; 1]%nat < 2 ^ 63
  ∧ numeral [0; 0; 1]%nat +:+ "_" +:+ "initial.sql" = "001_initial.sql"
  ∧ schema.scan_version "001_initial.sql" = Some 1.
Proof.
  assert ([0; 0; 1]%nat ≠ []) as H1 by done.
  assert (Forall (λ d, d < 10)%nat [0; 0; 1]%nat) as H2 by (repeat constructor; lia).
  assert (numeral_value [0; 0; 1]%nat < 2 ^ 63) as H3 by done.
  split; [exact H1|]. split; [exact H2|]. split; [exact H3|]. split; [reflexivity|].
  exact (scan_version_reads_the_number [0; 0; 1]%nat "initial.sql" H1 H2 H3).
Defined.


Lemma pending_app cur ms1 ms2 :
  pending cur (ms1 ++ ms2) = (pending cur ms1 ++ pending cur ms2)%list.
Proof. unfold pending. apply List.filter_app. Qed.

Lemma pending_cons_above cur m ms :
  cur < schema.Version m → pending cur (m :: ms) = m :: pending cur ms.
Proof.
  intros Hm. unfold pending. cbn [List.filter].
  by destruct (Z.leb_spec (schema.Version m) cur); [lia|].
Qed.

(** X14. Two migrations with the same version cannot both be applied. When
    the list of the runner, sorted by version, holds two migrations of one
    version above the ledger maximum, Run does not return nil: it fails at
    the second of them at the latest (its ledger record breaks the primary
    key of schema_version), or earlier. *)
Theorem Run_fails_on_a_duplicate_version {Objects : Type}
    (exec_sql : string → Objects → option Objects)
    (mr : schema.MigrationRunner) (now : Z) (db : schema.DB)
    (m1 m2 : schema.Migration) (before between after : list schema.Migration) :
  Sorted schema.by_version (schema.migrations mr) →
  schema.migrations mr = (before ++ m1 :: between ++ m2 :: after)%list →
  schema.Version m1 = schema.Version m2 →
  schema.getCurrentVersion (schema.createSchemaVersionTable db) < schema.Version m1 →
  snd (schema.Run exec_sql mr now db) ≠ None.
Proof.
  intros Hsorted Hms Hsame Habove Hnil. unfold schema.Run in Hnil.
  apply Sorted_StronglySorted in Hsorted; [|apply _].
  destruct (schema.run_pending exec_sql now _ _ _) as [db' res] eqn:Hrun.
  cbn [snd] in Hnil. subst res.
  destruct (run_pending_spec exec_sql now _ _ Hsorted
              (schema.createSchemaVersionTable db) (schema.ledger db) _ _
              eq_refl Hrun)
    as (done & rest & Hpend & _ & _ & Hlt & _ & -> & _).
  rewrite app_nil_r in Hpend. subst done. rewrite Hms in Hlt.
  rewrite pending_app, pending_cons_above, pending_app, pending_cons_above in Hlt
    by lia.
  rewrite map_app in Hlt. apply StronglySorted_app_1_r in Hlt.
  cbn [map] in Hlt. apply StronglySorted_inv in Hlt as [_ Hlt].
  rewrite map_app, Forall_app in Hlt. destruct Hlt as [_ Hlt].
  cbn [map] in Hlt. apply Forall_inv in Hlt. lia.
Qed.

(** X14 at the two files of [duplicate_versions], on a fresh database: the
    runner is built, and Run fails at the second file. *)
Lemma Run_fails_on_a_duplicate_version_witness :
  schema.NewMigrationRunner fixtures.duplicate_versions "sqlite"
  = inl fixtures.duplicate_runner
  ∧ Sorted schema.by_version (schema.migrations fixtures.duplicate_runner)
  ∧ schema.getCurrentVersion (schema.createSchemaVersionTable fixtures.fresh) < 1
  ∧ snd (schema.Run fixtures.exec_sql fixtures.duplicate_runner 10 fixtures.fresh)
    = Some {| schema.failed_migration := "001_initial.sql";
              schema.cause := schema.RecordMigration (UniqueKey "schema_version_pkey") |}
  ∧ snd (schema.Run fixtures.exec_sql fixtures.duplicate_runner 10 fixtures.fresh)
    ≠ None.
Proof.
  split; [reflexivity|].
  assert (Sorted schema.by_version (schema.migrations fixtures.duplicate_runner))
    as H1.
  { repeat constructor. unfold schema.by_version. simpl. lia. }
  assert (schema.getCurrentVersion (schema.createSchemaVersionTable fixtures.fresh) < 1)
    as H2 by done.
  split; [exact H1|]. split; [exact H2|]. split; [reflexivity|].
  exact (Run_fails_on_a_duplicate_version fixtures.exec_sql fixtures.duplicate_runner
           10 fixtures.fresh _ _ [] [] [] H1 eq_refl eq_refl H2).
Defined.

Lemma run_pending_positive {Objects : Type}
    (exec_sql : string → Objects → option Objects) now cur ms :
  0 ≤ cur →
  ∀ db, schema.run_pending exec_sql now cur db ms
        = schema.run_pending exec_sql now cur db
            (List.filter (λ m, 0 <? schema.Version m) ms).
Proof.
  intros Hcur. induction ms as [|m ms IH]; intros db; [done|].
  cbn [schema.run_pending List.filter].
  destruct (Z.leb_spec (schema.Version m) cur) as [Hle|Hlt].
  - destruct (Z.ltb_spec 0 (schema.Version m)); [|apply IH].
    cbn [schema.run_pending].
    destruct (Z.leb_spec (schema.Version m) cur); [apply IH|lia].
  - destruct (Z.ltb_spec 0 (schema.Version m)); [|lia].
    cbn [schema.run_pending].
    destruct (Z.leb_spec (schema.Version m) cur); [lia|].
    destruct (schema.runMigration exec_sql now db m) as [db' [err|]]; [done|].
    apply IH.
Qed.

(** X15. A migration whose version is 0 or negative is never applied.
    On a database whose ledger holds no negative version (an empty or a
    missing ledger among them), Run does exactly what it does for the runner
    without the migrations of version 0 or below: the same database and the
    same result, so that a file named [000_...] is skipped without an
    error. *)
Theorem Run_skips_versions_up_to_zero {Objects : Type}
    (exec_sql : string → Objects → option Objects)
    (mr : schema.MigrationRunner) (now : Z) (db : schema.DB) :
  (∀ r, In r (schema.ledger db) → 0 ≤ schema.version r) →
  schema.Run exec_sql mr now db = schema.Run exec_sql (positive_versions mr) now db.
Proof.
  intros Hledger. unfold schema.Run, positive_versions. cbn [schema.migrations].
  apply run_pending_positive.
  destruct (getCurrentVersion_spec (schema.createSchemaVersionTable db))
    as [[_ ->]|[Hin _]]; [done|].
  apply in_map_iff in Hin as (r & <- & Hr). apply Hledger.
  by destruct db as [o [l|] n].
Qed.

(** X15 at a runner with a file [000_setup.sql], on a fresh database: only
    the migration of version 1 is run and recorded. *)
Lemma Run_skips_versions_up_to_zero_witness :
  (∀ r, In r (schema.ledger fixtures.fresh) → 0 ≤ schema.version r)
  ∧ schema.Run fixtures.exec_sql fixtures.zero_runner 10 fixtures.fresh
    = schema.Run fixtures.exec_sql (positive_versions fixtures.zero_runner) 10
        fixtures.fresh
  ∧ schema.Run fixtures.exec_sql fixtures.zero_runner 10 fixtures.fresh
    = (schema.mkDB ["A"]
         (Some [{| schema.version := 1; schema.name := "001_initial.sql";
                   schema.applied_at := 10 |}]) 1,
       None).
Proof.
  assert (∀ r, In r (schema.ledger fixtures.fresh) → 0 ≤ schema.version r) as H
    by (intros r []).
  split; [exact H|]. split; [|reflexivity].
  exact (Run_skips_versions_up_to_zero fixtures.exec_sql fixtures.zero_runner 10
           fixtures.fresh H).
Defined.

(** ** The query of GetPostsBySubreddit *)

(** The ORDER BY takes its column and its direction from fixed lists. *)
Lemma order_by_cases ToUpper opts :
  In (fst (order_by ToUpper opts)) ["created_utc"; "score"; "num_comments"]
  ∧ In (snd (order_by ToUpper opts)) ["ASC"; "DESC"].
Proof.
  unfold order_by. cbn [fst snd]. split.
  - generalize (QueryOptions.SortBy opts). intros sortBy.
    destruct (String.eqb_spec sortBy ""); [vm_compute; auto|].
    destruct (String.eqb_spec sortBy "comments"); [vm_compute; auto|].
    destruct (String.eqb_spec sortBy "created"); [vm_compute; auto|].
    destruct (validSortColumns !! sortBy) as [[]|] eqn:E; cbn; auto.
    unfold validSortColumns in E. rewrite !lookup_insert in E.
    repeat case_decide; subst; cbn; auto. by rewrite lookup_empty in E.
  - generalize (ToUpper (QueryOptions.SortOrder opts)). intros sortOrder.
    destruct (String.eqb_spec sortOrder "ASC") as [->|]; [cbn; auto|].
    destruct (String.eqb_spec sortOrder "DESC") as [->|]; cbn; auto.
Qed.


(** X16. The query GetPostsBySubreddit builds is well formed, whatever the
    options. On postgres the placeholders of the text are $1, $2, ... in
    this order, as many as there are arguments; on sqlite there are as many
    [?] as arguments. The arguments are the subreddit, the start date and
    the end date when they are set, the limit (25 when the option is 0) and
    the offset. The ORDER BY names one of created_utc, score and
    num_comments, and ASC or DESC: no text of the caller goes into the
    query. *)
Theorem GetPostsBySubreddit_query_is_well_formed (ToUpper : string → string)
    (subreddit : string) (opts : QueryOptions.t) :
  let pq := postgres.GetPostsBySubreddit_query ToUpper subreddit opts in
  let sq := sqlite.GetPostsBySubreddit_query ToUpper subreddit opts in
  let args :=
    (arg_string subreddit
     :: (if IsZero (QueryOptions.StartDate opts) then []
         else [arg_time (QueryOptions.StartDate opts)])
     ++ (if IsZero (QueryOptions.EndDate opts) then []
         else [arg_time (QueryOptions.EndDate opts)])
     ++ [arg_int (if QueryOptions.Limit opts =? 0 then 25
                  else QueryOptions.Limit opts);
         arg_int (QueryOptions.Offset opts)])%list in
  snd pq = args
  ∧ snd sq = args
  ∧ dollar_placeholders (fst pq) = map Z.of_nat (seq 1 (length args))
  ∧ question_marks (fst sq) = length args
  ∧ In (fst (order_by ToUpper opts)) ["created_utc"; "score"; "num_comments"]
  ∧ In (snd (order_by ToUpper opts)) ["ASC"; "DESC"].
Proof.
  cbv zeta. destruct (order_by_cases ToUpper opts) as [Hcol Hdir].
  unfold postgres.GetPostsBySubreddit_query, sqlite.GetPostsBySubreddit_query.
  destruct (order_by ToUpper opts) as [col dir]. cbn [fst snd] in Hcol, Hdir.
  destruct (IsZero (QueryOptions.StartDate opts)),
    (IsZero (QueryOptions.EndDate opts)); cbn [negb fst snd];
    (split; [reflexivity|]); (split; [reflexivity|]);
    (split; [|split; [|by split; [by cbn [fst] | by cbn [snd]]]]);
    destruct Hcol as [<-|[<-|[<-|[]]]], Hdir as [<-|[<-|[]]];
    vm_compute; reflexivity.
Qed.

(** ** The archiver *)

Lemma wrap64_small z : - 2 ^ 63 ≤ z < 2 ^ 63 → wrap64 z = z.
Proof. intros Hz. unfold wrap64. rewrite Z.mod_small; lia. Qed.

Lemma upsert_length {R} (key : R → string) f new rows :
  (length (upsert key f new rows) ≤ S (length rows))%nat.
Proof.
  induction rows as [|r rows IH]; cbn [upsert length]; [lia|].
  destruct (String.eqb _ _); cbn [length]; lia.
Qed.

Lemma insert_posts_length now tx batch cur :
  insert_posts now tx batch = inl cur →
  (length (posts cur) ≤ length (posts tx) + length batch)%nat.
Proof.
  revert tx. induction batch as [|p ps IH]; intros tx; cbn [insert_posts length].
  - intros [= <-]. lia.
  - destruct (exec_post _ _ tx) as [tx'|e] eqn:E; [|done].
    intros Hrun. apply IH in Hrun. apply exec_post_rows in E.
    pose proof (upsert_length PostRow.id post_do_update (post_row now p) (posts tx)).
    rewrite E in Hrun. lia.
Qed.

(** SavePosts adds at most as many posts as the batch has. *)
Lemma SavePosts_length s now batch :
  (length (posts (fst (SavePosts s now batch))) ≤ length (posts s) + length batch)%nat.
Proof.
  unfold SavePosts. destruct batch as [|p ps] eqn:Eb; [cbn; lia|].
  rewrite <- Eb. clear Eb.
  destruct (ensure_subreddits now ∅ (BeginTx s) batch) as [tx err] eqn:E.
  pose proof (ensure_subreddits_cur _ _ _ _ _ _ E) as Hcur.
  apply ensure_subreddits_tables in E as [Hbase _]. cbn in Hbase, Hcur.
  destruct err as [err|]; [cbn [fst]; unfold Rollback; rewrite Hbase; lia|].
  destruct (insert_posts now (tx_cur tx) batch) as [cur|e] eqn:Ei;
    cbn [fst]; unfold Rollback, Commit; cbn [tx_cur].
  - apply insert_posts_length in Ei. rewrite Hcur in Ei. exact Ei.
  - rewrite Hbase. lia.
Qed.

Section archiver_facts.
Context {Client ClientError : Type} (client : RedditClient Client ClientError).
Context (backend : Backend) (fuel : nat) (now : Z).

(** On sqlite the loop over the comments of the posts always ends. *)
Lemma archive_comments_returns c s subreddit batch :
  backend = SQLite →
  is_Some (Archiver.archive_comments client backend fuel now c s subreddit batch).
Proof.
  intros ->. revert c s. induction batch as [|p ps IH]; intros c s;
    cbn [Archiver.archive_comments]; [eauto|].
  unfold Archiver.ArchivePost.
  destruct (client_GetComments client c _) as [c1 [resp|err]]; [|apply IH].
  destruct (storage.SavePost SQLite s now _) as [s1 [err|]]; [apply IH|].
  destruct (_ && _); [|apply IH]. cbn [storage.SaveComments].
  destruct (sqlite.SaveComments s1 now _) as [s2 [err|]]; apply IH.
Qed.

(** The loop of BackfillSubreddit from [fetched] posts on. *)
Lemma backfill_spec subreddit maxPosts includeComments :
  (∀ c req c' resp,
     0 < PostsRequest.Limit req →
     client_GetNew client c req = (c', inl resp) →
     Z.of_nat (length (PostsResponse.Posts resp)) ≤ PostsRequest.Limit req) →
  maxPosts < 2 ^ 63 →
  includeComments = false ∨ backend = SQLite →
  ∀ rounds c s fetched after,
    0 ≤ fetched →
    (Z.to_nat (maxPosts - fetched) ≤ rounds)%nat →
    ∃ c' s' err,
      Archiver.backfill client backend fuel now rounds c s subreddit maxPosts
        includeComments fetched after = Some (c', s', err)
      ∧ (includeComments = false →
         Z.of_nat (length (posts s'))
         ≤ Z.of_nat (length (posts s)) + Z.max 0 (maxPosts - fetched)).
Proof.
  intros Hlimit Hmax Hcomments.
  induction rounds as [|rounds IH]; intros c s fetched after Hfetched Hrounds;
    cbn [Archiver.backfill];
    (destruct (Z.ltb_spec fetched maxPosts) as [Hlt|Hge];
     [|eexists _, _, _; split; [done|]; intros _; lia]); [lia|].
  rewrite (wrap64_small (maxPosts - fetched)) by lia.
  set (batchSize := if maxPosts - fetched <? 100 then maxPosts - fetched else 100).
  assert (0 < batchSize ≤ maxPosts - fetched) as Hbatch.
  { unfold batchSize. destruct (Z.ltb_spec (maxPosts - fetched) 100); lia. }
  destruct (client_GetNew client c (PostsRequest.mk subreddit batchSize after))
    as [c1 [resp|err]] eqn:Eget.
  2:{ eexists _, _, _. split; [done|]. intros _. lia. }
  apply Hlimit in Eget; [|cbn; lia]. cbn [PostsRequest.Limit] in Eget.
  destruct (Nat.eqb_spec (length (PostsResponse.Posts resp)) 0) as [Hzero|Hsome].
  { eexists _, _, _. split; [done|]. intros _. lia. }
  pose proof (SavePosts_length s now (PostsResponse.Posts resp)) as Hlen.
  unfold storage.SavePosts.
  destruct (SavePosts s now (PostsResponse.Posts resp)) as [s1 [err|]];
    cbn [fst] in Hlen.
  { eexists _, _, _. split; [done|]. intros _. lia. }
  assert (∃ c2 s2,
            (if includeComments
             then Archiver.archive_comments client backend fuel now c1 s1 subreddit
                    (PostsResponse.Posts resp)
             else Some (c1, s1)) = Some (c2, s2)
            ∧ (includeComments = false → s2 = s1)) as (c2 & s2 & -> & Hs2).
  { destruct includeComments; [|by eexists _, _].
    destruct Hcomments as [|Hb]; [done|].
    destruct (archive_comments_returns c1 s1 subreddit (PostsResponse.Posts resp) Hb)
      as [[c2 s2] ->].
    by eexists _, _. }
  rewrite (wrap64_small (fetched + _)) by lia.
  destruct (String.eqb (PostsResponse.AfterFullname resp) "").
  { eexists _, _, _. split; [done|]. intros Hf. rewrite (Hs2 Hf). lia. }
  destruct (IH c2 s2 (fetched + Z.of_nat (length (PostsResponse.Posts resp)))
              (PostsResponse.AfterFullname resp)) as (c' & s' & err & -> & Hbound);
    [lia|lia|].
  eexists _, _, _. split; [done|]. intros Hf. specialize (Hbound Hf).
  rewrite (Hs2 Hf) in Hbound. lia.
Qed.

End archiver_facts.

(** X17. BackfillSubreddit ends within maxPosts rounds and stores at most
    maxPosts posts. When the client answers a request for n posts (n
    positive) with at most n posts, and comments are left out or the
    backend is sqlite, the loop has ended after at most maxPosts requests
    (none for maxPosts at or below 0); without comments, the posts table
    has then at most maxPosts rows more than before. *)
Theorem BackfillSubreddit_stays_within_maxPosts {Client ClientError : Type}
    (client : RedditClient Client ClientError) (backend : Backend) (fuel : nat)
    (now : Z) (c : Client) (s : DB) (subreddit : string) (maxPosts : Z)
    (includeComments : bool) (rounds : nat) :
  (∀ c req c' resp,
     0 < PostsRequest.Limit req →
     client_GetNew client c req = (c', inl resp) →
     Z.of_nat (length (PostsResponse.Posts resp)) ≤ PostsRequest.Limit req) →
  maxPosts < 2 ^ 63 →
  includeComments = false ∨ backend = SQLite →
  (Z.to_nat maxPosts ≤ rounds)%nat →
  ∃ c' s' err,
    Archiver.BackfillSubreddit client backend fuel now rounds c s subreddit maxPosts
      includeComments = Some (c', s', err)
    ∧ (includeComments = false →
       Z.of_nat (length (posts s')) ≤ Z.of_nat (length (posts s)) + Z.max 0 maxPosts).
Proof.
  intros Hlimit Hmax Hcomments Hrounds. unfold Archiver.BackfillSubreddit.
  destruct (backfill_spec client backend fuel now subreddit maxPosts includeComments
              Hlimit Hmax Hcomments rounds c s 0 "")
    as (c' & s' & err & Hrun & Hbound); [lia|by rewrite Z.sub_0_r|].
  exists c', s', err. split; [exact Hrun|]. intros Hf. specialize (Hbound Hf). lia.
Qed.


(** X17 at the mock client of the tests, asked for one post: one request,
    one post stored. *)
Lemma BackfillSubreddit_stays_within_maxPosts_witness :
  (∀ c req c' resp,
     0 < PostsRequest.Limit req →
     client_GetNew fixtures.mockRedditClient c req = (c', inl resp) →
     Z.of_nat (length (PostsResponse.Posts resp)) ≤ PostsRequest.Limit req)
  ∧ 1 < 2 ^ 63
  ∧ (Z.to_nat 1 ≤ 1)%nat
  ∧ (∃ c' s' err,
       Archiver.BackfillSubreddit fixtures.mockRedditClient SQLite 0 10 1 0%nat
         store.empty "golang" 1 false = Some (c', s', err)
       ∧ (false = false →
          Z.of_nat (length (posts s'))
          ≤ Z.of_nat (length (posts store.empty)) + Z.max 0 1))
  ∧ (λ r, (r.1.1, map PostRow.id (posts r.1.2), r.2))
    <$> Archiver.BackfillSubreddit fixtures.mockRedditClient SQLite 0 10 1 0%nat
          store.empty "golang" 1 false
    = Some (1%nat, ["post1"], None).
Proof.
  assert (∀ c req c' resp,
            0 < PostsRequest.Limit req →
            client_GetNew fixtures.mockRedditClient c req = (c', inl resp) →
            Z.of_nat (length (PostsResponse.Posts resp)) ≤ PostsRequest.Limit req)
    as H1.
  { intros c req c' resp Hpos. cbn [client_GetNew fixtures.mockRedditClient].
    intros [= _ <-].
    destruct (String.eqb (PostsRequest.After req) "");
      cbn [PostsResponse.Posts length]; [|lia].
    pose proof (firstn_le_length (Z.to_nat (PostsRequest.Limit req))
                  fixtures.mock_posts).
    lia. }
  assert (1 < 2 ^ 63) as H2 by done.
  assert (Z.to_nat 1 ≤ 1)%nat as H3 by (cbn; lia).
  split; [exact H1|]. split; [exact H2|]. split; [exact H3|].
  split; [|reflexivity].
  exact (BackfillSubreddit_stays_within_maxPosts fixtures.mockRedditClient SQLite
           0 10 0%nat store.empty "golang" 1 false 1 H1 H2 (or_introl eq_refl) H3).
Defined.

(** ** The archiver and the subreddit *)

Lemma exec_comment_subreddits f row tx tx' :
  exec_comment f row tx = inl tx' → subreddits tx' = subreddits tx.
Proof.
  unfold exec_comment. destruct (has_row _ _ _); [by intros [= <-]|].
  destruct (comment_fk tx row); [discriminate|]. by intros [= <-].
Qed.

Lemma sqlite_insert_subreddits now tx cs cur :
  sqlite.insert_comments now tx cs = inl cur → subreddits cur = subreddits tx.
Proof.
  revert tx. induction cs as [|c cs IH]; intros tx; cbn [sqlite.insert_comments].
  - by intros [= <-].
  - destruct (exec_comment _ _ tx) as [tx'|e] eqn:E; [|done].
    intros H. rewrite (IH _ H). by apply exec_comment_subreddits in E.
Qed.

Lemma postgres_insert_subreddits fuel now commentMap depthCache tx cs cur :
  postgres.insert_comments fuel now commentMap depthCache tx cs = Some (inl cur) →
  subreddits cur = subreddits tx.
Proof.
  revert depthCache tx. induction cs as [|c cs IH]; intros depthCache tx;
    cbn [postgres.insert_comments].
  - by intros [= <-].
  - destruct (postgres.calculateDepth _ _ _ _ _) as [[d cache1]|]; [|done].
    destruct (exec_comment _ _ tx) as [tx'|e] eqn:E; [|done].
    intros H. rewrite (IH _ _ H). by apply exec_comment_subreddits in E.
Qed.

(** SaveComments does not write to [subreddits]. *)
Lemma SaveComments_subreddits fuel b s now cs r :
  storage.SaveComments fuel b s now cs = Some r → subreddits (fst r) = subreddits s.
Proof.
  destruct (decide (cs = [])) as [->|Hne].
  { destruct b; by intros [= <-]. }
  destruct b; cbn [storage.SaveComments].
  - rewrite SaveComments_nonempty by done.
    destruct (postgres.insert_comments _ _ _ _ _ _) as [[cur|e]|] eqn:E; [| |done];
      intros [= <-]; cbn [fst]; [|done].
    by apply postgres_insert_subreddits in E.
  - intros [= <-]. rewrite sqlite_SaveComments_nonempty by done.
    destruct (sqlite.insert_comments _ _ _) as [cur|e] eqn:E; cbn [fst]; [|done].
    by apply sqlite_insert_subreddits in E.
Qed.

(** A subreddit that reads blank still does after SavePost. *)
Lemma SavePost_blank_kept b s now post n :
  GetSubreddit s n = inl (blank_subreddit n) →
  GetSubreddit (fst (storage.SavePost b s now post)) n = inl (blank_subreddit n).
Proof.
  intros Hn.
  assert (∀ f, GetSubreddit (fst (SavePost_with f s now post)) n
               = inl (blank_subreddit n)) as Hgen.
  { intros f. unfold SavePost_with.
    destruct (negb (String.eqb (Post.Subreddit post) "")); cbn [SaveSubreddit];
      unfold noerr.
    - pose proof (SaveSubreddit_blank_kept s now post n Hn) as H.
      cbn [SaveSubreddit fst] in H.
      destruct (exec_post _ _ _) as [s'|e] eqn:E; cbn [fst]; [|exact H].
      etrans; [|exact H]. apply GetSubreddit_subreddits.
      by apply exec_post_subreddits in E.
    - destruct (exec_post _ _ _) as [s'|e] eqn:E; cbn [fst]; [|exact Hn].
      etrans; [|exact Hn]. apply GetSubreddit_subreddits.
      by apply exec_post_subreddits in E. }
  destruct b; apply Hgen.
Qed.

Section archiver_subreddit.
Context {Client ClientError : Type} (client : RedditClient Client ClientError).
Context (backend : Backend) (fuel : nat) (now : Z).

Lemma ArchivePost_blank_kept c s subreddit postID includeComments c' s' err n :
  Archiver.ArchivePost client backend fuel now c s subreddit postID includeComments
  = Some (c', s', err) →
  GetSubreddit s n = inl (blank_subreddit n) →
  GetSubreddit s' n = inl (blank_subreddit n).
Proof.
  unfold Archiver.ArchivePost. intros Hrun Hn.
  destruct (client_GetComments client c _) as [c1 [resp|e]];
    [|by injection Hrun as <- <- <-].
  pose proof (SavePost_blank_kept backend s now (CommentsResponse.Post resp) n Hn)
    as Hpost.
  destruct (storage.SavePost backend s now _) as [s1 [e|]]; cbn [fst] in Hpost;
    [by injection Hrun as <- <- <-|].
  destruct (_ && _); [|by injection Hrun as <- <- <-].
  destruct (storage.SaveComments fuel backend s1 now _) as [[s2 e]|] eqn:E; [|done].
  apply SaveComments_subreddits in E. cbn [fst] in E.
  assert (s' = s2) as -> by (destruct e; by injection Hrun as <- <- <-).
  by rewrite (GetSubreddit_subreddits _ _ _ E).
Qed.

Lemma archive_comments_blank_kept subreddit batch c s c' s' n :
  Archiver.archive_comments client backend fuel now c s subreddit batch
  = Some (c', s') →
  GetSubreddit s n = inl (blank_subreddit n) →
  GetSubreddit s' n = inl (blank_subreddit n).
Proof.
  revert c s. induction batch as [|p ps IH]; intros c s;
    cbn [Archiver.archive_comments].
  - by intros [= <- <-].
  - destruct (Archiver.ArchivePost _ _ _ _ _ _ _ _ _) as [[[c1 s1] e]|] eqn:E;
      [|done].
    intros Hrun Hn. apply (IH _ _ Hrun).
    by eapply ArchivePost_blank_kept; [exact E|].
Qed.

End archiver_subreddit.

(** X18. ArchiveSubreddit loses what it has just saved of the subreddit.
    When the listing it fetches holds a post that names a subreddit (in
    particular the one being archived), then however the call ends, the
    stored subreddit of that name reads back with an empty title, an empty
    description and no subscribers: the row SaveSubreddit wrote from the
    fetched subreddit is overwritten when the posts are saved. *)
Theorem ArchiveSubreddit_resets_the_subreddit {Client ClientError : Type}
    (client : RedditClient Client ClientError) (backend : Backend) (fuel : nat)
    (now : Z) (c c1 c2 c' : Client) (s s' : DB) (subreddit : string)
    (opts : ArchiveOptions.t) (subInfo : SubredditData.t)
    (postsResponse : PostsResponse.t) (post : Post.t)
    (err : option (ArchiveError ClientError)) :
  client_GetSubreddit client c subreddit = (c1, inl subInfo) →
  Archiver.fetch_posts client c1
    (if String.eqb (ArchiveOptions.Sort opts) "" then "hot"
     else ArchiveOptions.Sort opts)
    (PostsRequest.mk subreddit
       (if ArchiveOptions.Limit opts =? 0 then 25 else ArchiveOptions.Limit opts) "")
  = Some (c2, inl postsResponse) →
  In post (PostsResponse.Posts postsResponse) →
  Post.Subreddit post ≠ "" →
  Archiver.ArchiveSubreddit client backend fuel now c s subreddit opts
  = Some (c', s', err) →
  GetSubreddit s' (Post.Subreddit post) = inl (blank_subreddit (Post.Subreddit post)).
Proof.
  intros Hsub Hfetch Hin Hne. unfold Archiver.ArchiveSubreddit.
  rewrite Hsub. cbn [storage.SaveSubreddit SaveSubreddit]. unfold noerr.
  rewrite Hfetch.
  pose proof (SavePosts_blank (exec_subreddit subreddit_do_update
                                 (subreddit_row now subInfo) s)
                now (PostsResponse.Posts postsResponse) post Hin Hne) as Hblank.
  unfold storage.SavePosts.
  destruct (SavePosts _ now (PostsResponse.Posts postsResponse)) as [s1 [e|]];
    cbn [fst] in Hblank; [by intros [= _ <- _]|].
  destruct (ArchiveOptions.IncludeComments opts); [|by intros [= _ <- _]].
  destruct (Archiver.archive_comments _ _ _ _ _ _ _ _) as [[c3 s3]|] eqn:E; [|done].
  intros [= _ <- _]. by eapply archive_comments_blank_kept; [exact E|].
Qed.

(** X18 at the mock client of the tests, whose posts are in the subreddit it
    returns: after ArchiveSubreddit has returned nil, the title, the
    description and the subscribers of golang are gone. *)
Lemma ArchiveSubreddit_resets_the_subreddit_witness :
  let opts := ArchiveOptions.mk "hot" 25 true 0 false in
  let r := Archiver.ArchiveSubreddit fixtures.mockRedditClient SQLite 0 10 0%nat
             store.empty "golang" opts in
  client_GetSubreddit fixtures.mockRedditClient 0%nat "golang"
  = (1%nat, inl fixtures.mock_subreddit)
  ∧ (snd <$> r) = Some None
  ∧ (GetSubreddit (default store.empty (snd ∘ fst <$> r)) "golang"
     = inl (blank_subreddit "golang")).
Proof.
  cbv zeta. split; [reflexivity|]. split; [reflexivity|].
  destruct (Archiver.ArchiveSubreddit fixtures.mockRedditClient SQLite 0 10 0%nat
              store.empty "golang" (ArchiveOptions.mk "hot" 25 true 0 false))
    as [[[c' s'] err]|] eqn:E; [|discriminate E].
  cbn [fmap option_fmap option_map default compose fst snd].
  exact (ArchiveSubreddit_resets_the_subreddit fixtures.mockRedditClient SQLite 0
           10 0%nat 1%nat 2%nat c' store.empty s' "golang"
           (ArchiveOptions.mk "hot" 25 true 0 false) fixtures.mock_subreddit
           (PostsResponse.mk fixtures.mock_posts "")
           (fixtures.NewTestPost 1700000000 "post1" "golang" "First Post") err
           eq_refl eq_refl (or_introl eq_refl) ltac:(done) E).
Defined.

(** ** When a comment goes in *)

Lemma exec_comment_outcome f row s :
  match exec_comment f row s with
  | inl _ =>
      In (CommentRow.id row) (map CommentRow.id (comments s))
      ∨ (In (CommentRow.post_id row) (map PostRow.id (posts s))
         ∧ match CommentRow.parent_id row with
           | None => True
           | Some p => p = CommentRow.id row ∨ In p (map CommentRow.id (comments s))
           end)
  | inr e =>
      ¬ In (CommentRow.id row) (map CommentRow.id (comments s))
      ∧ (e = ForeignKey "comments_post_id_fkey"
         ∧ ¬ In (CommentRow.post_id row) (map PostRow.id (posts s))
         ∨ e = ForeignKey "comments_parent_fkey"
           ∧ In (CommentRow.post_id row) (map PostRow.id (posts s))
           ∧ ∃ p, CommentRow.parent_id row = Some p ∧ p ≠ CommentRow.id row
                  ∧ ¬ In p (map CommentRow.id (comments s)))
  end.
Proof.
  unfold exec_comment, comment_fk.
  destruct (has_row CommentRow.id (CommentRow.id row) (comments s)) eqn:Hid.
  { left. by apply has_row_In. }
  apply has_row_false in Hid.
  destruct (has_row PostRow.id (CommentRow.post_id row) (posts s)) eqn:Hpost;
    cbn [negb].
  2:{ apply has_row_false in Hpost. split; [done|]. by left. }
  apply has_row_In in Hpost.
  destruct (CommentRow.parent_id row) as [p|]; [|right; by split].
  destruct (String.eqb_spec p (CommentRow.id row)) as [->|Hne]; cbn [orb].
  { right. split; [done|]. by left. }
  destruct (has_row CommentRow.id p (comments s)) eqn:Hp.
  - apply has_row_In in Hp. right. split; [done|]. by right.
  - apply has_row_false in Hp. split; [done|]. right.
    split; [done|]. split; [done|]. by exists p.
Qed.

(** X19. SaveComment returns nil exactly when the comment is already
    stored, or its post is stored and its parent is none, the comment
    itself, or a stored comment. Otherwise it returns the error of
    save_comment with the foreign key that failed, that of [post_id] before
    that of [parent_id], and the store is as it was. Both backends. *)
Theorem SaveComment_succeeds_iff (b : Backend) (s : DB) (now : Z) (c : Comment.t) :
  (snd (storage.SaveComment b s now c) = noerr
   ↔ In (Comment.ID c) (map CommentRow.id (comments s))
     ∨ (In (postID_param c) (map PostRow.id (posts s))
        ∧ match parentID_param c with
          | None => True
          | Some p => p = Comment.ID c ∨ In p (map CommentRow.id (comments s))
          end))
  ∧ (snd (storage.SaveComment b s now c) ≠ noerr →
     ∃ fk, storage.SaveComment b s now c
           = (s, Some {| Op := "save_comment"; Err := ForeignKey fk |})
           ∧ (fk = "comments_post_id_fkey"
              ↔ ¬ In (postID_param c) (map PostRow.id (posts s)))).
Proof.
  assert (∀ row, CommentRow.id row = Comment.ID c →
                 CommentRow.post_id row = postID_param c →
                 CommentRow.parent_id row = parentID_param c →
                 ∀ r, r = match exec_comment comment_do_update row s with
                          | inl s' => (s', noerr)
                          | inr e => (s, Some {| Op := "save_comment"; Err := e |})
                          end →
          (snd r = noerr
           ↔ In (Comment.ID c) (map CommentRow.id (comments s))
             ∨ (In (postID_param c) (map PostRow.id (posts s))
                ∧ match parentID_param c with
                  | None => True
                  | Some p => p = Comment.ID c ∨ In p (map CommentRow.id (comments s))
                  end))
          ∧ (snd r ≠ noerr →
             ∃ fk, r = (s, Some {| Op := "save_comment"; Err := ForeignKey fk |})
                   ∧ (fk = "comments_post_id_fkey"
                      ↔ ¬ In (postID_param c) (map PostRow.id (posts s))))) as Hgen.
  { intros row Hid Hpost Hparent r ->.
    pose proof (exec_comment_outcome comment_do_update row s) as H.
    rewrite Hid, Hpost, Hparent in H.
    destruct (exec_comment comment_do_update row s) as [s'|e]; cbn [snd].
    - split; [done|]. by intros [].
    - destruct H as [Hnew H]. split.
      + split; [done|]. intros [Hin|[Hin Hp]]; [done|].
        destruct H as [[_ H]|(_ & _ & p & Hp' & Hne & Hnp)]; [done|].
        rewrite Hp' in Hp. by destruct Hp.
      + intros _. destruct H as [[-> H]|(-> & H & _)].
        * eexists. split; [done|]. done.
        * eexists. split; [done|]. split; [done|]. by intros []. }
  destruct b; cbn [storage.SaveComment];
    unfold postgres.SaveComment, sqlite.SaveComment.
  - destruct (postgres_comment_row_id now c (postgres.parent_depth s (parentID_param c)))
      as (Hid & Hpar & Hpost & _).
    by apply (Hgen _ Hid Hpost Hpar).
  - by apply (Hgen (sqlite.comment_row now c (sqlite.flat_depth (parentID_param c)))).
Qed.

(** ** Saving the same thing twice *)

Lemma upsert_twice {R} (key : R → string) f new1 new2 rows :
  key new2 = key new1 →
  (∀ old, key (f old new1) = key old) →
  (∀ old, f (f old new1) new2 = f old new1) →
  f new1 new2 = new1 →
  upsert key f new2 (upsert key f new1 rows) = upsert key f new1 rows.
Proof.
  intros Hkey Hf Hold Hnew. induction rows as [|r rows IH]; cbn [upsert].
  - by rewrite <- Hkey, String.eqb_refl, Hnew.
  - destruct (String.eqb (key r) (key new1)) eqn:Hr; cbn [upsert].
    + by rewrite Hf, Hkey, Hr, Hold.
    + by rewrite Hkey, Hr, IH.
Qed.

Lemma has_row_upsert {R} (key : R → string) f new rows :
  (∀ old, key (f old new) = key old) →
  has_row key (key new) (upsert key f new rows) = true.
Proof.
  intros Hf. unfold has_row. rewrite (lookup_row_upsert key) by done.
  by rewrite String.eqb_refl.
Qed.

Lemma exec_subreddit_twice now sub s :
  exec_subreddit subreddit_do_update (subreddit_row now sub)
    (exec_subreddit subreddit_do_update (subreddit_row now sub) s)
  = exec_subreddit subreddit_do_update (subreddit_row now sub) s.
Proof.
  unfold exec_subreddit, set_subreddits. cbn [subreddits posts comments tx_begun].
  by rewrite upsert_twice.
Qed.

Lemma SaveSubreddit_twice s now sub :
  SaveSubreddit (fst (SaveSubreddit s now sub)) now sub = SaveSubreddit s now sub.
Proof.
  unfold SaveSubreddit, exec_subreddit, set_subreddits. cbn [fst subreddits posts
    comments tx_begun]. by rewrite upsert_twice.
Qed.

Lemma exec_post_twice f now post s s' :
  (∀ old, PostRow.id (f old (post_row now post)) = PostRow.id old) →
  (∀ old, f (f old (post_row now post)) (post_row now post)
          = f old (post_row now post)) →
  f (post_row now post) (post_row now post) = post_row now post →
  exec_post f (post_row now post) s = inl s' →
  exec_post f (post_row now post) s' = inl s'.
Proof.
  intros Hid Hold Hnew E. pose proof (exec_post_rows _ _ _ _ E) as Hrows.
  assert (s' = set_posts s (upsert PostRow.id f (post_row now post) (posts s))) as ->.
  { revert E. unfold exec_post. destruct (has_row _ _ _); [by intros [= <-]|].
    destruct (post_fk _ _); [done|]. by intros [= <-]. }
  unfold exec_post. cbn [set_posts posts].
  rewrite has_row_upsert by done. unfold set_posts. cbn [subreddits posts comments
    tx_begun]. by rewrite upsert_twice.
Qed.

Lemma SavePost_with_twice f s now post :
  (∀ old, PostRow.id (f old (post_row now post)) = PostRow.id old) →
  (∀ old, f (f old (post_row now post)) (post_row now post)
          = f old (post_row now post)) →
  f (post_row now post) (post_row now post) = post_row now post →
  SavePost_with f (fst (SavePost_with f s now post)) now post
  = SavePost_with f s now post.
Proof.
  intros Hid Hold Hnew. unfold SavePost_with at 2 3.
  destruct (negb (String.eqb (Post.Subreddit post) "")) eqn:Hsub;
    cbn [SaveSubreddit]; unfold noerr;
    (destruct (exec_post _ _ _) as [s'|e] eqn:E; cbn [fst]);
    unfold SavePost_with; rewrite Hsub; cbn [SaveSubreddit]; unfold noerr.
  - assert (exec_subreddit subreddit_do_update
              (subreddit_row now (subreddit_of_post post)) s' = s') as ->.
    { pose proof (exec_post_subreddits _ _ _ _ E) as Hs.
      destruct s' as [ss ps cs n]. unfold exec_subreddit, set_subreddits in *.
      cbn [subreddits posts comments tx_begun] in *. subst ss.
      by rewrite upsert_twice. }
    by rewrite (exec_post_twice f now post _ _ Hid Hold Hnew E).
  - by rewrite exec_subreddit_twice, E.
  - by rewrite (exec_post_twice f now post _ _ Hid Hold Hnew E).
  - by rewrite E.
Qed.

Lemma exec_comment_twice row1 row2 s s' :
  CommentRow.id row2 = CommentRow.id row1 →
  comment_do_update row1 row2 = row1 →
  (∀ old, comment_do_update (comment_do_update old row1) row2
          = comment_do_update old row1) →
  exec_comment comment_do_update row1 s = inl s' →
  exec_comment comment_do_update row2 s' = inl s'.
Proof.
  intros Hid Hnew Hold E.
  assert (s' = set_comments s (upsert CommentRow.id comment_do_update row1
                                 (comments s))) as ->.
  { revert E. unfold exec_comment. destruct (has_row _ _ _); [by intros [= <-]|].
    destruct (comment_fk _ _); [done|]. by intros [= <-]. }
  unfold exec_comment. cbn [set_comments comments]. rewrite Hid.
  rewrite has_row_upsert by done. unfold set_comments. cbn [subreddits posts
    comments tx_begun]. by rewrite upsert_twice.
Qed.

Lemma postgres_comment_row_twice now c d1 d2 :
  CommentRow.id (postgres.comment_row now c d2)
  = CommentRow.id (postgres.comment_row now c d1)
  ∧ comment_do_update (postgres.comment_row now c d1) (postgres.comment_row now c d2)
    = postgres.comment_row now c d1
  ∧ ∀ old, comment_do_update (comment_do_update old (postgres.comment_row now c d1))
             (postgres.comment_row now c d2)
           = comment_do_update old (postgres.comment_row now c d1).
Proof.
  unfold postgres.comment_row, postgres.unixFloatToTime.
  by destruct (Timestamp (Comment.Edited c) =? 0).
Qed.

(** X20. The single saves are idempotent. SaveSubreddit, SavePost and
    SaveComment called a second time with the same entity at the same clock
    reading return what the first call returned and leave the store the
    first call left: no second row, no other value, and an error again where
    the first call failed. Both backends. *)
Theorem single_saves_are_idempotent (b : Backend) (s : DB) (now : Z)
    (sub : SubredditData.t) (post : Post.t) (c : Comment.t) :
  storage.SaveSubreddit b (fst (storage.SaveSubreddit b s now sub)) now sub
  = storage.SaveSubreddit b s now sub
  ∧ storage.SavePost b (fst (storage.SavePost b s now post)) now post
    = storage.SavePost b s now post
  ∧ storage.SaveComment b (fst (storage.SaveComment b s now c)) now c
    = storage.SaveComment b s now c.
Proof.
  split; [apply SaveSubreddit_twice|]. split.
  - destruct b; by apply SavePost_with_twice.
  - destruct b; cbn [storage.SaveComment];
      unfold postgres.SaveComment, sqlite.SaveComment.
    + destruct (exec_comment comment_do_update
                  (postgres.comment_row now c
                     (postgres.parent_depth s (parentID_param c))) s)
        as [s'|e] eqn:E; cbn [fst]; [|by rewrite E].
      destruct (postgres_comment_row_twice now c
                  (postgres.parent_depth s (parentID_param c))
                  (postgres.parent_depth s' (parentID_param c)))
        as (Hid & Hnew & Hold).
      by rewrite (exec_comment_twice _ _ _ _ Hid Hnew Hold E).
    + destruct (exec_comment comment_do_update
                  (sqlite.comment_row now c (sqlite.flat_depth (parentID_param c))) s)
        as [s'|e] eqn:E; cbn [fst]; [|by rewrite E].
      by rewrite (exec_comment_twice _ _ _ _ eq_refl eq_refl (λ _, eq_refl) E).
Qed.

(** ** Batches: all or nothing *)

Lemma upsert_ids {R} (key : R → string) f new rows :
  (∀ old, key (f old new) = key old) →
  In (key new) (map key (upsert key f new rows))
  ∧ ∀ k, In k (map key rows) → In k (map key (upsert key f new rows)).
Proof.
  intros Hf. rewrite (upsert_kept_column key key f new rows Hf). split.
  - rewrite in_app_iff. destruct (has_row key (key new) rows) eqn:E.
    + left. by apply has_row_In.
    + right. by left.
  - intros k Hk. rewrite in_app_iff. by left.
Qed.

Lemma insert_posts_ids now tx batch cur :
  insert_posts now tx batch = inl cur →
  (∀ k, In k (map PostRow.id (posts tx)) → In k (map PostRow.id (posts cur)))
  ∧ ∀ p, In p batch → In (Post.ID p) (map PostRow.id (posts cur)).
Proof.
  revert tx. induction batch as [|p ps IH]; intros tx; cbn [insert_posts].
  - intros [= <-]. split; [done|]. by intros p [].
  - destruct (exec_post _ _ tx) as [tx'|e] eqn:E; [|done].
    intros Hrun. destruct (IH _ Hrun) as [Hkeep Hin].
    apply exec_post_rows in E.
    destruct (upsert_ids PostRow.id post_do_update (post_row now p) (posts tx))
      as [Hp Hold]; [done|].
    rewrite <- E in Hp, Hold. split; [auto|].
    intros q [<-|Hq]; auto.
Qed.

Lemma sqlite_insert_ids now tx cs cur :
  sqlite.insert_comments now tx cs = inl cur →
  (∀ k, In k (map CommentRow.id (comments tx)) →
        In k (map CommentRow.id (comments cur)))
  ∧ ∀ c, In c cs → In (Comment.ID c) (map CommentRow.id (comments cur)).
Proof.
  revert tx. induction cs as [|c cs IH]; intros tx; cbn [sqlite.insert_comments].
  - intros [= <-]. split; [done|]. by intros c [].
  - destruct (exec_comment _ _ tx) as [tx'|e] eqn:E; [|done].
    intros Hrun. destruct (IH _ Hrun) as [Hkeep Hin].
    apply exec_comment_rows in E.
    destruct (upsert_ids CommentRow.id comment_do_update
                (sqlite.comment_row now c (sqlite.flat_depth (parentID_param c)))
                (comments tx)) as [Hc Hold]; [done|].
    rewrite <- E in Hc, Hold. split; [auto|].
    intros q [<-|Hq]; auto.
Qed.

Lemma postgres_insert_ids fuel now commentMap depthCache tx cs cur :
  postgres.insert_comments fuel now commentMap depthCache tx cs = Some (inl cur) →
  (∀ k, In k (map CommentRow.id (comments tx)) →
        In k (map CommentRow.id (comments cur)))
  ∧ ∀ c, In c cs → In (Comment.ID c) (map CommentRow.id (comments cur)).
Proof.
  revert depthCache tx. induction cs as [|c cs IH]; intros depthCache tx;
    cbn [postgres.insert_comments].
  - intros [= <-]. split; [done|]. by intros c [].
  - destruct (postgres.calculateDepth _ _ _ _ _) as [[d cache1]|]; [|done].
    destruct (exec_comment _ _ tx) as [tx'|e] eqn:E; [|done].
    intros Hrun. destruct (IH _ _ Hrun) as [Hkeep Hin].
    apply exec_comment_rows in E.
    destruct (postgres_comment_row_id now c d) as (Hid & _).
    destruct (upsert_ids CommentRow.id comment_do_update_depth
                (postgres.comment_row now c d) (comments tx)) as [Hc Hold]; [done|].
    rewrite <- E, Hid in Hc. rewrite <- E in Hold. split; [auto|].
    intros q [<-|Hq]; auto.
Qed.

(** X21. A batch is all or nothing on its own table. When SavePosts returns
    an error, [posts] and [comments] are as before the call, and when it
    returns nil every post of the batch is stored. When SaveComments returns
    an error, the three tables are as before the call, and when it returns
    nil every comment of the batch is stored. Both backends. *)
Theorem batches_are_all_or_nothing (fuel : nat) (b : Backend) (s : DB) (now : Z)
    (batch : list Post.t) (cs : list Comment.t) :
  (match snd (storage.SavePosts b s now batch) with
   | Some _ =>
       posts (fst (storage.SavePosts b s now batch)) = posts s
       ∧ comments (fst (storage.SavePosts b s now batch)) = comments s
   | None =>
       ∀ p, In p batch →
            In (Post.ID p)
              (map PostRow.id (posts (fst (storage.SavePosts b s now batch))))
   end)
  ∧ (∀ r, storage.SaveComments fuel b s now cs = Some r →
          match snd r with
          | Some _ =>
              subreddits (fst r) = subreddits s
              ∧ posts (fst r) = posts s
              ∧ comments (fst r) = comments s
          | None =>
              ∀ c, In c cs →
                   In (Comment.ID c) (map CommentRow.id (comments (fst r)))
          end).
Proof.
  split.
  - unfold storage.SavePosts.
    destruct (SavePosts s now batch) as [s' [e|]] eqn:E; cbn [fst snd].
    + by apply (SavePosts_failure_keeps_posts s now batch s' e).
    + revert E. unfold SavePosts. destruct batch as [|p0 ps] eqn:Eb.
      { intros _ p []. }
      rewrite <- Eb. clear Eb p0 ps.
      destruct (ensure_subreddits now ∅ (BeginTx s) batch) as [tx [err|]]; [done|].
      destruct (insert_posts now (tx_cur tx) batch) as [cur|e] eqn:Ei; [|done].
      intros [= <-]. by apply (proj2 (insert_posts_ids _ _ _ _ Ei)).
  - intros r. destruct (decide (cs = [])) as [->|Hne].
    { destruct b; intros [= <-]; by intros c []. }
    destruct b; cbn [storage.SaveComments].
    + rewrite SaveComments_nonempty by done.
      destruct (postgres.insert_comments _ _ _ _ _ _) as [[cur|e]|] eqn:E; [| |done];
        intros [= <-]; unfold noerr; cbn [fst snd]; [|done].
      by apply (proj2 (postgres_insert_ids _ _ _ _ _ _ _ E)).
    + intros [= <-]. rewrite sqlite_SaveComments_nonempty by done.
      destruct (sqlite.insert_comments _ _ _) as [cur|e] eqn:E; unfold noerr;
        cbn [fst snd]; [|done].
      by apply (proj2 (sqlite_insert_ids _ _ _ _ E)).
Qed.

(** ** ArchiveSubreddit and the sort type *)

(** X22. ArchiveSubreddit checks the sort type after it has saved the
    subreddit. For a sort type other than hot, new, top and the empty
    default, once the client has returned the subreddit the call returns the
    error for the invalid sort type, without a request for posts, and the
    store holds the fetched subreddit: GetSubreddit returns it. *)
Theorem ArchiveSubreddit_invalid_sort {Client ClientError : Type}
    (client : RedditClient Client ClientError) (backend : Backend) (fuel : nat)
    (now : Z) (c c1 : Client) (s : DB) (subreddit : string)
    (opts : ArchiveOptions.t) (subInfo : SubredditData.t) :
  ¬ In (ArchiveOptions.Sort opts) [""; "hot"; "new"; "top"] →
  client_GetSubreddit client c subreddit = (c1, inl subInfo) →
  ∃ s', Archiver.ArchiveSubreddit client backend fuel now c s subreddit opts
        = Some (c1, s', Some (InvalidSort (ArchiveOptions.Sort opts)))
        ∧ s' = fst (storage.SaveSubreddit backend s now subInfo)
        ∧ GetSubreddit s' (SubredditData.DisplayName subInfo) = inl subInfo.
Proof.
  intros Hsort Hsub. unfold Archiver.ArchiveSubreddit, Archiver.fetch_posts.
  rewrite Hsub. cbn [storage.SaveSubreddit SaveSubreddit]. unfold noerr.
  destruct (String.eqb_spec (ArchiveOptions.Sort opts) "") as [H|_].
  { destruct Hsort. rewrite H. by left. }
  destruct (String.eqb_spec (ArchiveOptions.Sort opts) "hot") as [H|_].
  { destruct Hsort. rewrite H. right. by left. }
  destruct (String.eqb_spec (ArchiveOptions.Sort opts) "new") as [H|_].
  { destruct Hsort. rewrite H. right. right. by left. }
  destruct (String.eqb_spec (ArchiveOptions.Sort opts) "top") as [H|_].
  { destruct Hsort. rewrite H. right. right. right. by left. }
  cbn [orb fst]. eexists. split; [done|]. split; [done|].
  pose proof (GetSubreddit_SaveSubreddit s now subInfo
                (SubredditData.DisplayName subInfo)) as H.
  cbn [SaveSubreddit fst] in H. by rewrite String.eqb_refl in H.
Qed.

(** X22 at the mock client of the tests and the sort type [rising]. *)
Lemma ArchiveSubreddit_invalid_sort_witness :
  let opts := ArchiveOptions.mk "rising" 25 false 0 false in
  ¬ In (ArchiveOptions.Sort opts) [""; "hot"; "new"; "top"]
  ∧ client_GetSubreddit fixtures.mockRedditClient 0%nat "golang"
    = (1%nat, inl fixtures.mock_subreddit)
  ∧ ∃ s', Archiver.ArchiveSubreddit fixtures.mockRedditClient SQLite 0 10 0%nat
            store.empty "golang" opts
          = Some (1%nat, s', Some (InvalidSort "rising"))
          ∧ s' = fst (storage.SaveSubreddit SQLite store.empty 10
                        fixtures.mock_subreddit)
          ∧ GetSubreddit s' "golang" = inl fixtures.mock_subreddit.
Proof.
  cbv zeta.
  assert (¬ In "rising" [""; "hot"; "new"; "top"]) as H1
    by (intros [H|[H|[H|[H|[]]]]]; discriminate H).
  split; [exact H1|]. split; [reflexivity|].
  exact (ArchiveSubreddit_invalid_sort fixtures.mockRedditClient SQLite 0 10 0%nat
           1%nat store.empty "golang" (ArchiveOptions.mk "rising" 25 false 0 false)
           fixtures.mock_subreddit H1 eq_refl).
Defined.

(** ** sqlite: a batch of comments and the single saves *)

Lemma exec_comment_tables f row a b :
  tables a = tables b →
  match exec_comment f row a, exec_comment f row b with
  | inl a', inl b' => tables a' = tables b'
  | inr e, inr e' => e = e'
  | _, _ => False
  end.
Proof.
  unfold tables. intros [= Hs Hp Hc]. unfold exec_comment, comment_fk, set_comments.
  rewrite Hs, Hp, Hc. destruct (has_row CommentRow.id _ _); [done|].
  destruct (negb _); [done|]. destruct (CommentRow.parent_id row); [|done].
  by destruct (_ || _).
Qed.

Lemma sqlite_insert_save_each now cs a b :
  tables a = tables b →
  match sqlite.insert_comments now a cs with
  | inl cur => snd (save_each now b cs) = noerr
               ∧ tables cur = tables (fst (save_each now b cs))
  | inr _ => snd (save_each now b cs) ≠ noerr
  end.
Proof.
  revert a b. induction cs as [|c cs IH]; intros a b Hab;
    cbn [sqlite.insert_comments save_each]; [done|].
  unfold sqlite.SaveComment.
  pose proof (exec_comment_tables comment_do_update
                (sqlite.comment_row now c (sqlite.flat_depth (parentID_param c)))
                a b Hab) as H.
  destruct (exec_comment _ _ a) as [a'|e], (exec_comment _ _ b) as [b'|e'];
    try done.
  unfold noerr. by apply IH.
Qed.

(** X23. On sqlite, SaveComments is SaveComment in a transaction. The
    batch returns nil exactly when saving its comments one by one, in
    order, returns nil each time, and the three tables it then leaves are
    those the single saves leave. When it returns an error the tables are
    as before the call. *)
Theorem sqlite_batch_is_single_saves (s : DB) (now : Z) (cs : list Comment.t) :
  (snd (sqlite.SaveComments s now cs) = noerr ↔ snd (save_each now s cs) = noerr)
  ∧ (snd (sqlite.SaveComments s now cs) = noerr →
     tables (fst (sqlite.SaveComments s now cs)) = tables (fst (save_each now s cs)))
  ∧ (snd (sqlite.SaveComments s now cs) ≠ noerr →
     tables (fst (sqlite.SaveComments s now cs)) = tables s).
Proof.
  destruct (decide (cs = [])) as [->|Hne]; [done|].
  rewrite sqlite_SaveComments_nonempty by done.
  pose proof (sqlite_insert_save_each now cs (tx_cur (BeginTx s)) s eq_refl) as H.
  destruct (sqlite.insert_comments now (tx_cur (BeginTx s)) cs) as [cur|e];
    cbn [fst snd].
  - destruct H as [H1 H2]. by repeat split.
  - split; [|split]; [|done|done]. split; [done|]. intros H'. by destruct H.
Qed.

(** ** ArchivePost: the post and its comments *)

Lemma sqlite_insert_posts now tx cs cur :
  sqlite.insert_comments now tx cs = inl cur → posts cur = posts tx.
Proof.
  revert tx. induction cs as [|c cs IH]; intros tx; cbn [sqlite.insert_comments].
  - by intros [= <-].
  - destruct (exec_comment _ _ tx) as [tx'|e] eqn:E; [|done].
    intros H. rewrite (IH _ H). by apply exec_comment_posts in E.
Qed.

Lemma postgres_insert_posts fuel now commentMap depthCache tx cs cur :
  postgres.insert_comments fuel now commentMap depthCache tx cs = Some (inl cur) →
  posts cur = posts tx.
Proof.
  revert depthCache tx. induction cs as [|c cs IH]; intros depthCache tx;
    cbn [postgres.insert_comments].
  - by intros [= <-].
  - destruct (postgres.calculateDepth _ _ _ _ _) as [[d cache1]|]; [|done].
    destruct (exec_comment _ _ tx) as [tx'|e] eqn:E; [|done].
    intros H. rewrite (IH _ _ H). by apply exec_comment_posts in E.
Qed.

(** SaveComments does not write to [posts], and on an error it leaves
    [comments] as well. *)
Lemma SaveComments_posts fuel b s now cs r :
  storage.SaveComments fuel b s now cs = Some r →
  posts (fst r) = posts s
  ∧ (snd r ≠ noerr → comments (fst r) = comments s).
Proof.
  destruct (decide (cs = [])) as [->|Hne].
  { destruct b; by intros [= <-]. }
  destruct b; cbn [storage.SaveComments].
  - rewrite SaveComments_nonempty by done.
    destruct (postgres.insert_comments _ _ _ _ _ _) as [[cur|e]|] eqn:E; [| |done];
      intros [= <-]; cbn [fst snd]; [|done].
    split; [|done]. by apply postgres_insert_posts in E.
  - intros [= <-]. rewrite sqlite_SaveComments_nonempty by done.
    destruct (sqlite.insert_comments _ _ _) as [cur|e] eqn:E; cbn [fst snd]; [|done].
    split; [|done]. by apply sqlite_insert_posts in E.
Qed.

(** SavePost does not write to [comments]. *)
Lemma SavePost_with_comments f s now post :
  comments (fst (SavePost_with f s now post)) = comments s.
Proof.
  unfold SavePost_with, SaveSubreddit.
  assert (∀ s1, comments s1 = comments s →
            comments (fst (match exec_post f (post_row now post) s1 with
                           | inl s' => (s', noerr)
                           | inr e => (s1, Some {| Op := "save_post"; Err := e |})
                           end)) = comments s) as H.
  { intros s1 H1. unfold exec_post. destruct (has_row _ _ _); [done|].
    by destruct (post_fk _ _). }
  destruct (negb _); by apply H.
Qed.

(** A post that SavePost has saved is in [posts]. *)
Lemma SavePost_with_stored f s now post :
  (∀ old new, PostRow.id (f old new) = PostRow.id old) →
  snd (SavePost_with f s now post) = noerr →
  In (Post.ID post) (map PostRow.id (posts (fst (SavePost_with f s now post)))).
Proof.
  intros Hf. unfold SavePost_with.
  destruct (if negb _ then _ else _) as [s1 [e|]]; [done|].
  destruct (exec_post f (post_row now post) s1) as [s'|e] eqn:E; [|done].
  intros _. cbn [fst]. apply exec_post_rows in E. rewrite E.
  destruct (upsert_ids PostRow.id f (post_row now post) (posts s1)) as [H _];
    [done|exact H].
Qed.

(** X24. ArchivePost saves the post before the comments and outside their
    transaction. Once the client has returned the thread and SavePost has
    returned nil, the post is stored whatever ArchivePost returns: [posts]
    is as SavePost left it. When ArchivePost then returns an error, it is
    the error of SaveComments, comments were asked for, and [comments] is
    as before the call; when comments were not asked for, ArchivePost
    returns nil and the store is as SavePost left it. *)
Theorem ArchivePost_keeps_the_post {Client ClientError : Type}
    (client : RedditClient Client ClientError) (backend : Backend) (fuel : nat)
    (now : Z) (c c1 c' : Client) (s s' : DB) (subreddit postID : string)
    (includeComments : bool) (resp : CommentsResponse.t)
    (err : option (ArchiveError ClientError)) :
  client_GetComments client c (CommentsRequest.mk subreddit postID)
  = (c1, inl resp) →
  snd (storage.SavePost backend s now (CommentsResponse.Post resp)) = noerr →
  Archiver.ArchivePost client backend fuel now c s subreddit postID includeComments
  = Some (c', s', err) →
  let s1 := fst (storage.SavePost backend s now (CommentsResponse.Post resp)) in
  c' = c1
  ∧ posts s' = posts s1
  ∧ In (Post.ID (CommentsResponse.Post resp)) (map PostRow.id (posts s'))
  ∧ (err ≠ None →
     includeComments = true
     ∧ comments s' = comments s
     ∧ ∃ e, err = Some (Stored e)
            ∧ storage.SaveComments fuel backend s1 now
                (CommentsResponse.Comments resp) = Some (s', Some e))
  ∧ (includeComments = false → err = None ∧ s' = s1).
Proof.
  intros Hget Hsave. unfold Archiver.ArchivePost. rewrite Hget.
  assert (In (Post.ID (CommentsResponse.Post resp))
            (map PostRow.id
               (posts (fst (storage.SavePost backend s now
                              (CommentsResponse.Post resp)))))) as Hin.
  { destruct backend; by apply SavePost_with_stored. }
  assert (comments (fst (storage.SavePost backend s now
                           (CommentsResponse.Post resp))) = comments s) as Hcs.
  { destruct backend; apply SavePost_with_comments. }
  destruct (storage.SavePost backend s now _) as [s1 [e|]]; [done|].
  cbn [fst] in *.
  destruct includeComments; cbn [andb].
  - destruct (0 <? _).
    + destruct (storage.SaveComments fuel backend s1 now _) as [[s2 [e|]]|] eqn:E;
        [| |done]; intros [= <- <- <-];
        destruct (SaveComments_posts _ _ _ _ _ _ E) as [Hp Hc]; cbn [fst snd] in *;
        rewrite Hp; repeat split; try done.
      * rewrite Hc by done. done.
      * by exists e.
    + intros [= <- <- <-]. by repeat split.
  - intros [= <- <- <-]. by repeat split.
Qed.

(** X24 at a client that returns a thread whose only comment is on another
    post: the post is stored and the call returns the error of
    SaveComments. *)
Lemma ArchivePost_keeps_the_post_witness :
  let client := fixtures.strayCommentClient in
  let s1 := fst (storage.SavePost SQLite store.empty 10 fixtures.mock_post) in
  client_GetComments client 0%nat (CommentsRequest.mk "golang" "post1")
  = (1%nat, inl fixtures.stray_thread)
  ∧ snd (storage.SavePost SQLite store.empty 10 fixtures.mock_post) = noerr
  ∧ ∃ s' e,
      Archiver.ArchivePost client SQLite 0 10 0%nat store.empty "golang" "post1" true
      = Some (1%nat, s', Some (Stored e))
      ∧ posts s' = posts s1
      ∧ In "post1" (map PostRow.id (posts s'))
      ∧ comments s' = comments store.empty.
Proof.
  cbv zeta. split; [reflexivity|]. split; [reflexivity|].
  eexists _, _. split; [reflexivity|].
  destruct (ArchivePost_keeps_the_post fixtures.strayCommentClient SQLite 0 10
              0%nat 1%nat 1%nat store.empty _ "golang" "post1" true
              fixtures.stray_thread _ eq_refl eq_refl eq_refl)
    as (_ & Hp & Hin & Herr & _).
  split; [exact Hp|]. split; [exact Hin|].
  exact (proj1 (proj2 (Herr ltac:(discriminate)))).
Defined.

